(** * IICS field-naming validator: rule engine, field registry,
      statistics, batch orchestration, container detection, debouncer
      and performance monitor.

    A shallow embedding of the TypeScript sources
    ([validation-rules.ts], [rule-executor.ts], [validator-engine],
    [field-manager], [stats-manager.ts], [validation-orchestrator],
    [container-detector.ts], [debouncer.ts], [performance])
    followed by the properties proved of it.

    Conventions of the embedding.
    - A JavaScript string whose characters matter (a field value) is the
      list of its UTF-16 code units; strings that are only compared for
      equality (rule names, messages, element ids) are [string].
    - A JavaScript [Map] is a [gmap]; where the code visits the entries
      of a [Map], the model keeps beside the [gmap] the time of insertion
      of each key and visits the entries in that order.
    - A DOM element is a record read at the time of the call; a field
      record keeps the element by reference (a node number) and the live
      element is looked up in the DOM passed to the call.
    - Calls to collaborators (callbacks, timers, observers, the panel)
      are returned as a list of events next to the new state.
    - [Date.now()] is an argument [now].
    - A call of a rule's predicate returns a boolean or throws; the
      predicate has no other effect.  A priority is an integer, as the
      default rules have it. *)

From Stdlib Require Import ZArith NArith List Bool String Ascii Lia.
From Stdlib Require Import Sorting.Sorted.
From stdpp Require Import gmap strings list fin_maps sorting.

Local Open Scope string_scope.
Local Open Scope list_scope.

(** ** JavaScript strings *)

Module JsString.

(** A UTF-16 code unit. *)
Definition char16 : Type := N.
Definition jsstring : Type := list N.

(** A literal whose characters are all below U+0100. *)
Definition js (s : string) : jsstring :=
  List.map N_of_ascii (list_ascii_of_string s).

Definition inRange (lo hi c : N) : bool := (lo <=? c)%N && (c <=? hi)%N.

(** WhiteSpace and LineTerminator of ECMAScript: the characters that
    [String.prototype.trim] strips and that [\s] matches. *)
Definition isWhiteSpace (c : N) : bool :=
  inRange 9 13 c          (* TAB, LF, VT, FF, CR *)
  || (c =? 32)%N          (* SPACE *)
  || (c =? 160)%N         (* NO-BREAK SPACE *)
  || (c =? 5760)%N        (* U+1680 *)
  || inRange 8192 8202 c  (* U+2000 .. U+200A *)
  || (c =? 8232)%N        (* U+2028 LINE SEPARATOR *)
  || (c =? 8233)%N        (* U+2029 PARAGRAPH SEPARATOR *)
  || (c =? 8239)%N        (* U+202F *)
  || (c =? 8287)%N        (* U+205F *)
  || (c =? 12288)%N       (* U+3000 *)
  || (c =? 65279)%N.      (* U+FEFF *)

Fixpoint trimStart (s : jsstring) : jsstring :=
  match s with
  | [] => []
  | c :: s' => if isWhiteSpace c then trimStart s' else s
  end.

Definition trimEnd (s : jsstring) : jsstring := rev (trimStart (rev s)).

(** [value.trim()] *)
Definition trim (s : jsstring) : jsstring := trimEnd (trimStart s).

Definition isUpper (c : N) : bool := inRange 65 90 c.
Definition isLower (c : N) : bool := inRange 97 122 c.
Definition isDigit (c : N) : bool := inRange 48 57 c.
Definition underscore : N := 95.

(** [/^[A-Z]/.test(v)] *)
Definition startsWithCapital (v : jsstring) : bool :=
  match v with c :: _ => isUpper c | [] => false end.

(** [/\s/.test(v)] *)
Definition hasWhiteSpace (v : jsstring) : bool := existsb isWhiteSpace v.

(** [[A-Za-z0-9_]] *)
Definition isWordChar (c : N) : bool :=
  isUpper c || isLower c || isDigit c || (c =? underscore)%N.

(** [/^[A-Za-z0-9_]+$/.test(v)]: one character or more, all of the
    class; without the [m] flag [$] is the end of the input only. *)
Definition allWordChars (v : jsstring) : bool :=
  match v with [] => false | _ :: _ => forallb isWordChar v end.

(** [/_$/.test(v)] *)
Definition endsWithUnderscore (v : jsstring) : bool :=
  match rev v with c :: _ => (c =? underscore)%N | [] => false end.

(** [/__/.test(v)] *)
Fixpoint hasDoubleUnderscore (v : jsstring) : bool :=
  match v with
  | c :: (d :: _) as v' =>
      ((c =? underscore)%N && (d =? underscore)%N) || hasDoubleUnderscore v'
  | _ => false
  end.

(** [/^[0-9]/.test(v)] *)
Definition startsWithDigit (v : jsstring) : bool :=
  match v with c :: _ => isDigit c | [] => false end.

(** The string is empty or starts with a character that is not
    whitespace. *)
Definition startsClean (s : jsstring) : Prop :=
  match s with [] => True | c :: _ => isWhiteSpace c = false end.

End JsString.
Import JsString.

(** ** validation-rules.ts *)

(** [check value] is what the call [rule.check(value)] returns;
    [throws value] tells that the call throws instead of returning. *)
Record ValidationRule : Type := mkRule {
  name : string;
  check : jsstring -> bool;
  message : string;
  priority : option Z;  (* [priority?: number] *)
  throws : jsstring -> bool
}.

(** The predicates of the code base are regular-expression and length
    tests: they return on every string. *)
Definition neverThrows : jsstring -> bool := fun _ => false.

Definition MAX_SAFE_INTEGER : Z := 9007199254740991.

(** [rule.priority ?? Number.MAX_SAFE_INTEGER] *)
Definition priorityOf (r : ValidationRule) : Z :=
  match priority r with Some p => p | None => MAX_SAFE_INTEGER end.

Module ValidationRules.

(** [Array.prototype.sort] with the comparator
    [priorityA - priorityB]: the sort of ECMAScript is stable, so the
    result is the one of a stable insertion sort on [priorityOf]. *)
Fixpoint insertByPriority (r : ValidationRule) (l : list ValidationRule)
  : list ValidationRule :=
  match l with
  | [] => [r]
  | x :: l' =>
      if (priorityOf r <=? priorityOf x)%Z then r :: l
      else x :: insertByPriority r l'
  end.

Definition sortByPriority (rules : list ValidationRule)
  : list ValidationRule :=
  fold_right insertByPriority [] rules.

Definition defaultRules : list ValidationRule :=
  [ mkRule "not-empty"
      (fun value => (0 <? length value)%nat)
      "Field cannot be empty" (Some 1%Z) neverThrows;
    mkRule "starts-with-capital"
      (fun value => startsWithCapital value)
      "Must start with capital letter" (Some 2%Z) neverThrows;
    mkRule "no-spaces"
      (fun value => negb (hasWhiteSpace value))
      "No spaces allowed" (Some 3%Z) neverThrows;
    mkRule "alphanumeric-underscore"
      (fun value => allWordChars value)
      "Only letters, numbers, and underscore allowed" (Some 4%Z) neverThrows;
    mkRule "min-length"
      (fun value => (3 <=? length value)%nat)
      "Must be at least 3 characters" (Some 5%Z) neverThrows;
    mkRule "max-length"
      (fun value => (length value <=? 50)%nat)
      "Cannot exceed 50 characters" (Some 6%Z) neverThrows;
    mkRule "no-trailing-underscore"
      (fun value => negb (endsWithUnderscore value))
      "Cannot end with underscore" (Some 7%Z) neverThrows;
    mkRule "no-consecutive-underscores"
      (fun value => negb (hasDoubleUnderscore value))
      "No consecutive underscores" (Some 8%Z) neverThrows;
    mkRule "no-leading-number"
      (fun value => negb (startsWithDigit value))
      "Cannot start with number" (Some 9%Z) neverThrows ].

(** The constructor: [this.rules = defaultRules; this.sortByPriority()]. *)
Definition initializeDefaultRules : list ValidationRule :=
  sortByPriority defaultRules.

(** [this.rules.findIndex((r) => r.name === n)] *)
Definition findIndex (n : string) (rules : list ValidationRule)
  : option nat :=
  fst <$> list_find (fun r => name r = n) rules.

Definition getAll (rules : list ValidationRule) : list ValidationRule :=
  rules.

Definition get (n : string) (rules : list ValidationRule)
  : option ValidationRule :=
  snd <$> list_find (fun r => name r = n) rules.

(** [add]: overwrite in place when the name is known, push otherwise,
    then sort. *)
Definition add (rule : ValidationRule) (rules : list ValidationRule)
  : list ValidationRule :=
  sortByPriority
    match findIndex (name rule) rules with
    | Some existingIndex => <[existingIndex := rule]> rules
    | None => rules ++ [rule]
    end.

(** [remove]: [splice(index, 1)] at the first rule of that name. *)
Definition remove (n : string) (rules : list ValidationRule)
  : bool * list ValidationRule :=
  match findIndex n rules with
  | Some index => (true, delete index rules)
  | None => (false, rules)
  end.

(** [excludedNames.includes(rule.name)] *)
Definition includes (names : list string) (n : string) : bool :=
  bool_decide (n ∈ names).

Definition getExcluding (excludedNames : list string)
    (rules : list ValidationRule) : list ValidationRule :=
  List.filter (fun rule => negb (includes excludedNames (name rule))) rules.

End ValidationRules.

(** ** rule-executor.ts *)

Module RuleExecutor.

(** The loop of [executeRules]: one [errors.push] per failing rule.
    This is the array the loop returns; [throwsOn] tells when it does
    not return. *)
Definition executeRules (value : jsstring) (rules : list ValidationRule)
  : list string :=
  foldl (fun errors rule =>
           if check rule value then errors else errors ++ [message rule])
        [] rules.

(** A call [rule.check(value)] of the loop throws: nothing in
    [executeRules] catches the exception, which reaches the caller. *)
Definition throwsOn (value : jsstring) (rules : list ValidationRule) : bool :=
  existsb (fun rule => throws rule value) rules.

Definition executeRulesExcluding (value : jsstring)
    (rules : list ValidationRule) (excludedNames : list string)
  : list string :=
  let filteredRules :=
    List.filter
      (fun rule => negb (ValidationRules.includes excludedNames (name rule)))
      rules in
  executeRules value filteredRules.

Definition validateRule (value : jsstring) (rule : ValidationRule) : bool :=
  check rule value.

End RuleExecutor.

(** ** validation-result and validator-engine *)

Record ValidationResult : Type := mkResult {
  isValid : bool;
  errors : list string;
  timestamp : Z
}.

Record ValidatorEngineConfig : Type := mkEngineConfig {
  enableEmptyFieldOptimization : bool;
  stopOnFirstError : bool;
  maxErrorsPerField : Z
}.

Module ValidatorEngine.

(** [ResultProcessor.createResult] *)
Definition createResult (now : Z) (valid : bool) (errs : list string)
  : ValidationResult :=
  mkResult valid errs now.

(** The configuration the constructor builds when given none. *)
Definition defaultConfig : ValidatorEngineConfig :=
  mkEngineConfig true false 10.

(** [validate(field)], on the field's [value].  An exception of a
    predicate is caught: it is handed to the error handler and the
    result is the one of the [catch] branch. *)
Definition validate (config : ValidatorEngineConfig)
    (rules : list ValidationRule) (now : Z) (fieldValue : jsstring)
  : ValidationResult :=
  let value := trim fieldValue in
  if (length value =? 0)%nat && enableEmptyFieldOptimization config then
    createResult now false ["Field cannot be empty"]
  else
    let rulesToExecute :=
      if enableEmptyFieldOptimization config
      then ValidationRules.getExcluding ["not-empty"] rules
      else ValidationRules.getAll rules in
    if RuleExecutor.throwsOn value rulesToExecute then
      createResult now false ["Validation error occurred"]
    else
      let errs := RuleExecutor.executeRules value rulesToExecute in
      createResult now (length errs =? 0)%nat errs.

End ValidatorEngine.

(** ** The DOM as the code reads it *)

Inductive Tag : Type := TagInput | TagTextarea | TagOther.

Record Element : Type := mkElement {
  el_tag : Tag;
  el_typeText : bool;         (* the element matches [[type="text"]] *)
  el_id : string;             (* [element.id] *)
  el_value : jsstring;        (* [element.value] *)
  el_offsetParentNull : bool  (* [element.offsetParent === null] *)
}.

(** Element objects are held by reference; [Dom] gives the live element
    behind each reference. *)
Definition NodeRef : Type := nat.
Definition Dom : Type := NodeRef -> Element.

Definition isFormTag (t : Tag) : bool :=
  match t with TagInput | TagTextarea => true | TagOther => false end.

(** [FIELD_SELECTOR = 'input[id^="ae_sf_"], textarea[id^="ae_sf_"]'] *)
Definition matchesFieldSelector (e : Element) : bool :=
  isFormTag (el_tag e) && String.prefix "ae_sf_" (el_id e).

(** [FIELD_SELECTOR_FALLBACK = 'input[type="text"], textarea'] *)
Definition matchesFieldSelectorFallback (e : Element) : bool :=
  match el_tag e with
  | TagInput => el_typeText e
  | TagTextarea => true
  | TagOther => false
  end.

(** [container.querySelectorAll(selector)]: the container is given by
    its descendants in document order. *)
Definition querySelectorAll (dom : Dom) (sel : Element -> bool)
    (container : list NodeRef) : list NodeRef :=
  List.filter (fun n => sel (dom n)) container.

Record ValidatorConfig : Type := mkConfig {
  pollInterval : Z;
  minFieldsForProcess : Z;
  autoValidate : bool;
  enableKeyboardShortcut : bool;
  maxRetries : Z;
  debounceDelay : Z
}.

(** ** field-manager *)

Module FieldData.
Record t : Type := mk {
  element : NodeRef;
  isValid : option bool;  (* [boolean | null] *)
  errors : list string;
  lastValidated : Z
}.

(** [Partial<Omit<FieldData, "element">>] *)
Record updates : Type := mkUpdates {
  u_isValid : option (option bool);
  u_errors : option (list string);
  u_lastValidated : option Z
}.

(** [Object.assign(fieldData, updates)] *)
Definition assign (fd : t) (u : updates) : t :=
  mk (element fd)
     (default (isValid fd) (u_isValid u))
     (default (errors fd) (u_errors u))
     (default (lastValidated fd) (u_lastValidated u)).
End FieldData.

Inductive FieldEvent : Type :=
| ListenersAdded (field : NodeRef)      (* [addEventListener] input, blur *)
| Registered (id : string)              (* "Registered field: id" *)
| Observed (field : NodeRef)            (* [intersectionObserver.observe] *)
| ListenersRemoved (field : NodeRef)
| DebounceCancelled (key : string)      (* [debouncer.cancel] *)
| Unobserved (field : NodeRef)
| Unregistered (id : string).           (* "Unregistered field: id" *)

Module FieldManager.

(** The [Map] [registeredFields] is visited in the order in which its
    keys were inserted: [insertedAt] gives, for each key, the number of
    insertions made before its own, and [insertions] counts the
    insertions made so far. *)
Record t : Type := mk {
  registeredFields : gmap string FieldData.t;
  lastValues : gmap string jsstring;
  (** elements carrying the [_iicsValidateHandler] property *)
  handlers : gset nat;
  (** [intersectionObserver !== null] *)
  observing : bool;
  insertedAt : gmap string nat;
  insertions : nat
}.

(** A new registry, observing intersections or not. *)
Definition initial (observing : bool) : t := mk ∅ ∅ ∅ observing ∅ 0.

(** The record under a key is replaced; the key keeps its place. *)
Definition setRegistered (m : gmap string FieldData.t) (fm : t) : t :=
  mk m (lastValues fm) (handlers fm) (observing fm) (insertedAt fm)
     (insertions fm).
Definition setLastValues (m : gmap string jsstring) (fm : t) : t :=
  mk (registeredFields fm) m (handlers fm) (observing fm) (insertedAt fm)
     (insertions fm).
Definition setHandlers (h : gset nat) (fm : t) : t :=
  mk (registeredFields fm) (lastValues fm) h (observing fm) (insertedAt fm)
     (insertions fm).

Definition getField (fieldId : string) (fm : t) : option FieldData.t :=
  registeredFields fm !! fieldId.

Definition getFieldCount (fm : t) : nat := size (registeredFields fm).

Definition hasField (fieldId : string) (fm : t) : bool :=
  bool_decide (is_Some (registeredFields fm !! fieldId)).

(** [this.registeredFields.set(id, fieldData)]: a new key goes to the
    end of the order of the [Map], a key that is there keeps its
    place. *)
Definition setField (id : string) (fieldData : FieldData.t) (fm : t) : t :=
  mk (<[id := fieldData]> (registeredFields fm)) (lastValues fm)
     (handlers fm) (observing fm)
     (if hasField id fm then insertedAt fm
      else <[id := insertions fm]> (insertedAt fm))
     (if hasField id fm then insertions fm else S (insertions fm)).

(** [this.registeredFields.delete(id)] *)
Definition deleteField (id : string) (fm : t) : t :=
  mk (delete id (registeredFields fm)) (lastValues fm) (handlers fm)
     (observing fm) (delete id (insertedAt fm)) (insertions fm).

(** The time of insertion of a key. *)
Definition insertionTime (fm : t) (id : string) : nat :=
  default 0 (insertedAt fm !! id).

(** Entries in ascending order of the time of insertion of their
    keys.  In every registry that the operations below make of a new
    one, the keys of the records are the keys that have a time of
    insertion and no two keys have the same time ([wellFormed],
    further down), so that this order is the order in which the keys
    were set. *)
Fixpoint insertByTime (fm : t) (e : string * FieldData.t)
    (l : list (string * FieldData.t)) : list (string * FieldData.t) :=
  match l with
  | [] => [e]
  | x :: l' =>
      if (insertionTime fm e.1 <=? insertionTime fm x.1)%nat then e :: l
      else x :: insertByTime fm e l'
  end.

(** The entries of the [Map], in the order in which it is visited. *)
Definition entries (fm : t) : list (string * FieldData.t) :=
  foldr (insertByTime fm) [] (map_to_list (registeredFields fm)).

(** [getAllFields()]: the [Map] itself, given by its entries in order. *)
Definition getAllFields (fm : t) : list (string * FieldData.t) :=
  entries fm.

(** [this.registeredFields.values()] *)
Definition values (fm : t) : list FieldData.t := (entries fm).*2.

(** [updateFieldData] *)
Definition updateFieldData (fieldId : string) (u : FieldData.updates)
    (fm : t) : t :=
  match registeredFields fm !! fieldId with
  | Some fieldData =>
      setRegistered
        (<[fieldId := FieldData.assign fieldData u]> (registeredFields fm))
        fm
  | None => fm
  end.

(** [hasFieldChanged]; [lastValues.get(fieldId) || ""] is the stored
    value, or the empty string when there is none. *)
Definition hasFieldChanged (dom : Dom) (fieldId : string) (fm : t)
  : t * bool :=
  match registeredFields fm !! fieldId with
  | None => (fm, false)
  | Some fieldData =>
      let currentValue := el_value (dom (FieldData.element fieldData)) in
      let lastValue := default [] (lastValues fm !! fieldId) in
      if bool_decide (currentValue = lastValue) then (fm, false)
      else (setLastValues (<[fieldId := currentValue]> (lastValues fm)) fm,
            true)
  end.

(** [registerField] *)
Definition registerField (config : ValidatorConfig) (dom : Dom)
    (field : NodeRef) (fm : t) : t * list FieldEvent :=
  let fieldData := FieldData.mk field None [] 0 in
  let id := el_id (dom field) in
  let fm1 := setField id fieldData fm in
  if autoValidate config
  then (setHandlers ({[field]} ∪ handlers fm1) fm1,
        [ListenersAdded field; Registered id])
  else (fm1, [Registered id]).

(** [unregisterField] *)
Definition unregisterField (fieldId : string) (fm : t)
  : t * list FieldEvent :=
  match registeredFields fm !! fieldId with
  | None => (fm, [])
  | Some fieldData =>
      let el := FieldData.element fieldData in
      let '(fm1, ev1) :=
        if bool_decide (el ∈ handlers fm)
        then (setHandlers (handlers fm ∖ {[el]}) fm, [ListenersRemoved el])
        else (fm, []) in
      let ev2 := [DebounceCancelled ("validate-" ++ fieldId)] in
      let ev3 := if observing fm1 then [Unobserved el] else [] in
      (deleteField fieldId fm1,
       ev1 ++ ev2 ++ ev3 ++ [Unregistered fieldId])
  end.

(** The body of [fields.forEach] in [scanAndRegister]. *)
Definition scanField (config : ValidatorConfig) (dom : Dom)
    (acc : t * gset string * list FieldEvent) (field : NodeRef)
  : t * gset string * list FieldEvent :=
  let '(fm, currentFieldIds, evs) := acc in
  let id := el_id (dom field) in
  let currentFieldIds := {[id]} ∪ currentFieldIds in
  if hasField id fm then (fm, currentFieldIds, evs)
  else
    let '(fm1, ev1) := registerField config dom field fm in
    let fm2 :=
      setLastValues (<[id := el_value (dom field)]> (lastValues fm1)) fm1 in
    let ev2 :=
      if observing fm2 && el_offsetParentNull (dom field)
      then [Observed field] else [] in
    (fm2, currentFieldIds, evs ++ ev1 ++ ev2).

(** [this.registeredFields.keys()] *)
Definition keys (fm : t) : list string := (entries fm).*1.

Definition unregisterAll (ids : list string) (fm : t)
  : t * list FieldEvent :=
  foldl (fun '(fm, evs) id =>
           let '(fm', ev) := unregisterField id fm in (fm', evs ++ ev))
        (fm, []) ids.

(** The [fields] of [scanAndRegister]: the matches of the primary
    selector, or of the fallback when there is none. *)
Definition scannedFields (dom : Dom) (container : list NodeRef)
  : list NodeRef :=
  let fields := querySelectorAll dom matchesFieldSelector container in
  if (length fields =? 0)%nat
  then querySelectorAll dom matchesFieldSelectorFallback container
  else fields.

(** The ids of a list of elements. *)
Definition idsOf (dom : Dom) (fields : list NodeRef) : gset string :=
  list_to_set ((fun field => el_id (dom field)) <$> fields).

(** [scanAndRegister(container)] *)
Definition scanAndRegister (config : ValidatorConfig) (dom : Dom)
    (container : list NodeRef) (fm : t) : t * list FieldEvent :=
  let fields := scannedFields dom container in
  let '(fm1, currentFieldIds, evs1) :=
    foldl (scanField config dom) (fm, ∅, []) fields in
  let fieldsToRemove :=
    List.filter (fun id => bool_decide (id ∉ currentFieldIds)) (keys fm1) in
  let '(fm2, evs2) := unregisterAll fieldsToRemove fm1 in
  (fm2, evs1 ++ evs2).

(** [getFieldsNeedingValidation(maxAge)] *)
Definition getFieldsNeedingValidation (now : Z) (dom : Dom) (maxAge : Z)
    (fm : t) : list FieldData.t :=
  List.filter
    (fun fieldData =>
       negb (length (trim (el_value (dom (FieldData.element fieldData))))
             =? 0)%nat
       && (maxAge <? now - FieldData.lastValidated fieldData)%Z)
    (values fm).

(** [cleanup()] *)
Definition cleanup (fm : t) : t * list FieldEvent :=
  if (size (registeredFields fm) =? 0)%nat then (fm, [])
  else unregisterAll (keys fm) fm.

Definition registrations (evs : list FieldEvent) : nat :=
  length (List.filter
            (fun e => match e with Registered _ => true | _ => false end)
            evs).

Definition unregistrations (evs : list FieldEvent) : nat :=
  length (List.filter
            (fun e => match e with Unregistered _ => true | _ => false end)
            evs).

End FieldManager.

(** ** stats-manager.ts *)

Record ValidationStats : Type := mkStats {
  totalFields : Z;
  validFields : Z;
  invalidFields : Z;
  lastValidated : option Z  (* [Date | null] *)
}.

Module StatsManager.

Definition reset : ValidationStats := mkStats 0 0 0 None.

Definition incrementValid (s : ValidationStats) : ValidationStats :=
  mkStats (totalFields s) (validFields s + 1) (invalidFields s)
          (lastValidated s).

Definition incrementInvalid (s : ValidationStats) : ValidationStats :=
  mkStats (totalFields s) (validFields s) (invalidFields s + 1)
          (lastValidated s).

Definition setTotal (count : Z) (s : ValidationStats) : ValidationStats :=
  mkStats count (validFields s) (invalidFields s) (lastValidated s).

Definition markValidated (now : Z) (s : ValidationStats) : ValidationStats :=
  mkStats (totalFields s) (validFields s) (invalidFields s) (Some now).

(** [updateFromFields(fields)] *)
Definition updateFromFields (now : Z)
    (fields : list (string * FieldData.t)) : ValidationStats :=
  let s0 := setTotal (Z.of_nat (length fields)) reset in
  let s1 :=
    foldl (fun s fieldData =>
             match FieldData.isValid fieldData with
             | Some true => incrementValid s
             | Some false => incrementInvalid s
             | None => s
             end)
          s0 fields.*2 in
  markValidated now s1.

End StatsManager.

(** ** validation-orchestrator *)

Inductive UiEvent : Type :=
| Toast (text kind : string) (duration : Z)
| Highlights (updates : list (NodeRef * bool * list string))
    (* one animation frame of [updateFieldHighlight] calls *)
| StatsPanelUpdated (stats : ValidationStats)
| StatsPanelShown
| Summary (stats : ValidationStats)     (* [statsManager.showSummary()] *)
| CompletionLogged (valid invalid : Z). (* "Validation complete: ..." *)

Module ValidationOrchestrator.

Record t : Type := mk {
  fieldManager : FieldManager.t;
  stats : ValidationStats
}.

Section WithEngine.
(** The engine's configuration and rules, the clock and the DOM; a
    run of [runFullValidation] is followed here without other
    handlers running between its animation frames. *)
Variable engineConfig : ValidatorEngineConfig.
Variable rules : list ValidationRule.
Variable now : Z.
Variable dom : Dom.

Definition validateElement (field : NodeRef) : ValidationResult :=
  ValidatorEngine.validate engineConfig rules now (el_value (dom field)).

Definition outcome (result : ValidationResult) : FieldData.updates :=
  FieldData.mkUpdates (Some (Some (isValid result)))
                      (Some (errors result)) (Some now).

(** [validateSingleField(field, silent)] *)
Definition validateSingleField (field : NodeRef) (silent : bool) (o : t)
  : t * list UiEvent * bool :=
  let result := validateElement field in
  let fm :=
    FieldManager.updateFieldData (el_id (dom field)) (outcome result)
                                 (fieldManager o) in
  let st :=
    if silent then stats o
    else if isValid result
         then StatsManager.incrementValid (stats o)
         else StatsManager.incrementInvalid (stats o) in
  (mk fm st,
   [Highlights [(field, isValid result, errors result)]],
   isValid result).

(** The body of the [for] loop of [validateBatch], at index [i]. *)
Definition validateAt (fields : list FieldData.t)
    (acc : t * list (NodeRef * bool * list string)) (i : nat)
  : t * list (NodeRef * bool * list string) :=
  let '(o, updates) := acc in
  match fields !! i with
  | None => acc
  | Some fieldData =>
      let field := FieldData.element fieldData in
      let result := validateElement field in
      let fm :=
        FieldManager.updateFieldData (el_id (dom field)) (outcome result)
                                     (fieldManager o) in
      let st :=
        if negb (isValid result)
        then StatsManager.incrementValid (stats o)
        else StatsManager.incrementInvalid (stats o) in
      (mk fm st, updates ++ [(field, isValid result, errors result)])
  end.

Definition batchSize : nat := 20.

(** [onValidationComplete()] *)
Definition onValidationComplete (o : t) : t * list UiEvent :=
  let st := StatsManager.markValidated now (stats o) in
  (mk (fieldManager o) st,
   [StatsPanelUpdated st; StatsPanelShown; Summary st;
    CompletionLogged (validFields st) (invalidFields st)]).

(** One call of the closure [validateBatch]: the batch
    [currentBatch], then either the request for the next frame
    ([inl], with the incremented counter) or the completion ([inr]). *)
Definition validateBatch (fields : list FieldData.t) (currentBatch : nat)
    (o : t) : (t * nat + t) * list UiEvent :=
  let start := currentBatch * batchSize in
  let end_ := Nat.min (start + batchSize) (length fields) in
  let '(o1, updates) :=
    foldl (validateAt fields) (o, []) (seq start (end_ - start)) in
  if (end_ <? length fields)%nat
  then (inl (o1, S currentBatch), [Highlights updates])
  else let '(o2, evs) := onValidationComplete o1 in
       (inr o2, Highlights updates :: evs).

(** The chain of animation frames started by [validateInBatches];
    [frames] bounds the number of frames followed. *)
Fixpoint runFrames (frames : nat) (fields : list FieldData.t)
    (currentBatch : nat) (o : t) : option (t * list UiEvent) :=
  match frames with
  | O => None
  | S frames' =>
      match validateBatch fields currentBatch o with
      | (inr o', evs) => Some (o', evs)
      | (inl (o', next), evs) =>
          match runFrames frames' fields next o' with
          | Some (o'', evs') => Some (o'', evs ++ evs')
          | None => None
          end
      end
  end.

Definition validateInBatches (fields : list FieldData.t) (o : t)
  : option (t * list UiEvent) :=
  runFrames (S (length fields)) fields 0 o.

(** [runFullValidation()] *)
Definition runFullValidation (o : t) : option (t * list UiEvent) :=
  let fields := (FieldManager.getAllFields (fieldManager o)).*2 in
  if (length fields =? 0)%nat
  then Some (o, [Toast "No fields found to validate" "warning" 3000])
  else
    let st :=
      StatsManager.setTotal (Z.of_nat (length fields)) StatsManager.reset in
    validateInBatches fields (mk (fieldManager o) st).

(** The number of fields of a list whose validation passes, and the
    number of those whose validation fails. *)
Definition passed (fields : list FieldData.t) : Z :=
  Z.of_nat (length (List.filter
    (fun fd => isValid (validateElement (FieldData.element fd))) fields)).

Definition failed (fields : list FieldData.t) : Z :=
  Z.of_nat (length (List.filter
    (fun fd => negb (isValid (validateElement (FieldData.element fd))))
    fields)).

(** The aggregate of the recorded per-field outcomes. *)
Definition recordedValid (o : t) : Z :=
  Z.of_nat (length (List.filter
    (fun fd => bool_decide (FieldData.isValid fd = Some true))
    (map_to_list (FieldManager.registeredFields (fieldManager o))).*2)).

Definition recordedInvalid (o : t) : Z :=
  Z.of_nat (length (List.filter
    (fun fd => bool_decide (FieldData.isValid fd = Some false))
    (map_to_list (FieldManager.registeredFields (fieldManager o))).*2)).

End WithEngine.

End ValidationOrchestrator.

(** ** container-detector.ts *)

Record Div : Type := mkDiv {
  div_node : NodeRef;             (* the identity of the [div] *)
  div_children : nat;             (* [div.children.length] *)
  div_offsetHeight : Z;           (* [div.offsetHeight] *)
  div_descendants : list Element  (* the elements below it *)
}.

(** What [document.querySelector(SECTION_SELECTOR)] and then
    [section.querySelectorAll(":scope > div")] find at the time of a
    scan: no section, or the section's [div] children. *)
Definition Document : Type := option (list Div).

Inductive Notification : Type :=
| ContainerChanged (container : option NodeRef)  (* [onContainerChange] *)
| ContextChanged (isProcessDesigner : bool)      (* [onContextChange] *)
| RetryScheduled.                                (* [setTimeout(..., 1000)] *)

Module ContainerDetector.

Record t : Type := mk {
  activeContainer : option NodeRef;
  isProcessDesigner : bool;
  lastScanTime : Z;
  minScanInterval : Z;
  retryCount : Z;
  maxRetries : Z
}.

(** The detector as constructed. *)
Definition initial : t := mk None false 0 500 0 3.

Definition isInProcessDesigner (d : t) : bool := isProcessDesigner d.

(** [container.querySelectorAll(FIELD_SELECTOR).length] *)
Definition fieldCount (container : Div) : Z :=
  Z.of_nat (length (List.filter matchesFieldSelector
                                (div_descendants container))).

(** [setProcessDesignerState(state)] *)
Definition setProcessDesignerState (state : bool) (d : t)
  : t * list Notification :=
  if bool_decide (isProcessDesigner d = state) then (d, [])
  else (mk (activeContainer d) state (lastScanTime d) (minScanInterval d)
           (retryCount d) (maxRetries d),
        [ContextChanged state]).

(** [detectContext()]; [live] is the element [this.activeContainer]
    refers to, as it is in the document. *)
Definition detectContext (config : ValidatorConfig) (live : option Div)
    (d : t) : t * list Notification :=
  match live with
  | None => setProcessDesignerState false d
  | Some container =>
      let isPD := (minFieldsForProcess config <=? fieldCount container)%Z in
      if bool_decide (isPD = isProcessDesigner d) then (d, [])
      else setProcessDesignerState isPD d
  end.

(** [setActiveContainer(container)] *)
Definition setActiveContainer (config : ValidatorConfig)
    (container : option Div) (d : t) : t * list Notification :=
  let changed :=
    negb (bool_decide (activeContainer d = div_node <$> container)) in
  let d1 := mk (div_node <$> container) (isProcessDesigner d)
               (lastScanTime d) (minScanInterval d) (retryCount d)
               (maxRetries d) in
  if changed then
    let '(d2, evs) := detectContext config container d1 in
    (d2, evs ++ [ContainerChanged (div_node <$> container)])
  else (d1, []).

Definition setRetryCount (n : Z) (d : t) : t :=
  mk (activeContainer d) (isProcessDesigner d) (lastScanTime d)
     (minScanInterval d) n (maxRetries d).

(** The first [div] with children and a height. *)
Definition firstVisible (divs : list Div) : option Div :=
  List.find (fun div => (0 <? div_children div)%nat
                        && (0 <? div_offsetHeight div)%Z) divs.

(** [updateActiveContainer()] *)
Definition updateActiveContainer (config : ValidatorConfig) (now : Z)
    (doc : Document) (d : t) : t * list Notification :=
  if (now - lastScanTime d <? minScanInterval d)%Z then (d, [])
  else
    match doc with
    | None =>
        let '(d1, ev1) :=
          if (retryCount d <? maxRetries d)%Z
          then (setRetryCount (retryCount d + 1) d, [RetryScheduled])
          else (d, []) in
        let '(d2, ev2) := setActiveContainer config None d1 in
        (d2, ev1 ++ ev2)
    | Some divs =>
        match firstVisible divs with
        | Some div =>
            if bool_decide (activeContainer d = Some (div_node div))
            then (d, [])
            else setActiveContainer config (Some div) d
        | None => setActiveContainer config None (setRetryCount 0 d)
        end
    end.

(** [forceUpdate()] *)
Definition forceUpdate (config : ValidatorConfig) (now : Z)
    (doc : Document) (d : t) : t * list Notification :=
  updateActiveContainer config now doc
    (mk (activeContainer d) (isProcessDesigner d) 0 (minScanInterval d)
        (retryCount d) (maxRetries d)).

(** The container a scan of [doc] settles on. *)
Definition scanTarget (doc : Document) : option Div :=
  match doc with
  | None => None
  | Some divs => firstVisible divs
  end.

(** The classification of a container: its field count is at or above
    the threshold; no container is not the target view. *)
Definition classification (config : ValidatorConfig)
    (container : option Div) : bool :=
  match container with
  | None => false
  | Some div => (minFieldsForProcess config <=? fieldCount div)%Z
  end.

(** The scan returns at once, less than [minScanInterval] after
    [lastScanTime]. *)
Definition rateLimited (now : Z) (d : t) : bool :=
  (now - lastScanTime d <? minScanInterval d)%Z.

(** Each notified value is the negation of the one before it, the
    first of the flag [flag]. *)
Fixpoint alternating (flag : bool) (l : list bool) : Prop :=
  match l with
  | [] => True
  | b :: l' => b = negb flag /\ alternating b l'
  end.

(** The context-changed notifications among the events of a scan. *)
Definition contextNotifications (evs : list Notification) : list bool :=
  omap (fun e => match e with ContextChanged b => Some b | _ => None end) evs.

(** A sequence of scans, each at its own time and document. *)
Definition runScans (config : ValidatorConfig)
    (scans : list (Z * Document)) (d : t) : t * list Notification :=
  foldl (fun '(d, evs) '(now, doc) =>
           let '(d', ev) := updateActiveContainer config now doc d in
           (d', evs ++ ev))
        (d, []) scans.

End ContainerDetector.

(** ** Histories of the rule registry *)

(** The two operations that change a rule set after its construction. *)
Inductive RuleOp : Type :=
| OpAdd (rule : ValidationRule)
| OpRemove (n : string).

Definition applyOp (rules : list ValidationRule) (op : RuleOp)
  : list ValidationRule :=
  match op with
  | OpAdd rule => ValidationRules.add rule rules
  | OpRemove n => (ValidationRules.remove n rules).2
  end.

(** The rule set after the constructor and then [ops], in order. *)
Definition runOps (ops : list RuleOp) : list ValidationRule :=
  foldl applyOp ValidationRules.initializeDefaultRules ops.

(** The rules whose predicate returns false on [value], in the order of
    the rule set. *)
Definition failing (value : jsstring) (rules : list ValidationRule)
  : list ValidationRule :=
  List.filter (fun rule => negb (check rule value)) rules.

Definition priorityLe (a b : ValidationRule) : Prop :=
  (priorityOf a <= priorityOf b)%Z.

(** The registration clock: the default rules are registered at times
    0 to 8, in the order of the constructor's array, and the [k]-th
    operation of a history happens at time [9 + k]. *)
Fixpoint lastAdd (n : string) (ops : list RuleOp) (t : nat)
    (acc : option nat) : option nat :=
  match ops with
  | [] => acc
  | OpAdd rule :: ops' =>
      lastAdd n ops' (S t) (if bool_decide (name rule = n) then Some t else acc)
  | OpRemove _ :: ops' => lastAdd n ops' (S t) acc
  end.

(** The time at which the rule now called [n] was registered: the
    latest [add] of that name, or its place among the defaults. *)
Definition regTime (ops : list RuleOp) (n : string) : option nat :=
  lastAdd n ops (length ValidationRules.defaultRules)
          (ValidationRules.findIndex n ValidationRules.defaultRules).

(** The other reading of the registration time of a name: the time of
    the [add] that put the name into the set, later overwrites of the
    same name not counting. *)
Fixpoint firstAdd (n : string) (rules : list ValidationRule)
    (ops : list RuleOp) (t : nat) (acc : option nat) : option nat :=
  match ops with
  | [] => acc
  | op :: ops' =>
      firstAdd n (applyOp rules op) ops' (S t)
        match op with
        | OpAdd rule =>
            if bool_decide (name rule = n)
               && negb (ValidationRules.includes (name <$> rules) n)
            then Some t else acc
        | OpRemove _ => acc
        end
  end.

Definition insertTime (ops : list RuleOp) (n : string) : option nat :=
  firstAdd n ValidationRules.initializeDefaultRules ops
           (length ValidationRules.defaultRules)
           (ValidationRules.findIndex n ValidationRules.defaultRules).

(** [a] stands before [b] in [l]. *)
Definition before {A : Type} (a b : A) (l : list A) : Prop :=
  exists l1 l2 l3, l = l1 ++ a :: l2 ++ b :: l3.

Definition optLt (a b : option nat) : Prop :=
  match a, b with
  | Some x, Some y => x < y
  | _, _ => False
  end.

(** No [add] of the history overwrites a rule that is in the set. *)
Fixpoint noOverwriteFrom (rules : list ValidationRule) (ops : list RuleOp)
  : bool :=
  match ops with
  | [] => true
  | op :: ops' =>
      match op with
      | OpAdd rule =>
          negb (ValidationRules.includes (name <$> rules) (name rule))
      | OpRemove _ => true
      end
      && noOverwriteFrom (applyOp rules op) ops'
  end.

Definition noOverwrite (ops : list RuleOp) : bool :=
  noOverwriteFrom ValidationRules.initializeDefaultRules ops.

(** Rules of equal priority stand in [l] in the order of their
    registration times, read off [clock]. *)
Definition tiesByRegistration (clock : list RuleOp -> string -> option nat)
    (ops : list RuleOp) (l : list ValidationRule) : Prop :=
  forall i j a b,
    i < j -> l !! i = Some a -> l !! j = Some b ->
    priorityOf a = priorityOf b ->
    optLt (clock ops (name a)) (clock ops (name b)).

(** ** Sample inputs *)

(** [value.startsWith(p)] *)
Fixpoint startsWith (p value : jsstring) : bool :=
  match p, value with
  | [], _ => true
  | c :: p', d :: value' => (c =? d)%N && startsWith p' value'
  | _ :: _, [] => false
  end.

(** The custom rule of the README, at a given priority. *)
Definition customPrefix (p : Z) : ValidationRule :=
  mkRule "custom-prefix" (fun value => startsWith (js "CUSTOM_") value)
         "Field must start with CUSTOM_" (Some p) neverThrows.

Definition shortName : ValidationRule :=
  mkRule "short-name" (fun value => (length value <=? 30)%nat)
         "Keep it under 30 characters" (Some 5%Z) neverThrows.

(** A rule that takes the place of the default rule "not-empty" and
    whose predicate throws on every value. *)
Definition throwingNotEmpty : ValidationRule :=
  mkRule "not-empty" (fun _ => true) "Field cannot be empty" (Some 1%Z)
         (fun _ => true).

(** A rule added in front and then overwritten with the priority of
    the first default rule. *)
Definition overwritingHistory : list RuleOp :=
  [OpAdd (customPrefix 0); OpAdd (customPrefix 1)].

(** Adds of new names and a removal. *)
Definition freshHistory : list RuleOp :=
  [OpAdd (customPrefix 5); OpRemove "no-spaces"; OpAdd shortName].

(** [DEFAULT_CONFIG] of [config-defaults.ts]: the threshold is 5
    fields. *)
Definition DEFAULT_CONFIG : ValidatorConfig := mkConfig 2000 5 true true 3 300.

Definition sampleField (id : string) (value : string) : Element :=
  mkElement TagInput true id (js value) false.

(** One container, the [div] numbered 7, first with two fields and
    then with six. *)
Definition divBelow : Div :=
  mkDiv 7 2 120
    [sampleField "ae_sf_a" "Alpha"; sampleField "ae_sf_b" "Beta"].

Definition divAbove : Div :=
  mkDiv 7 6 360
    [sampleField "ae_sf_a" "Alpha"; sampleField "ae_sf_b" "Beta";
     sampleField "ae_sf_c" "Gamma"; sampleField "ae_sf_d" "Delta";
     sampleField "ae_sf_e" "Epsilon"; sampleField "ae_sf_f" "Zeta"].

(** Two elements of a page, and a registry that tracks the first. *)
Definition samplePage : Dom :=
  fun n =>
    match n with
    | 0 => sampleField "ae_sf_account" "Account_ID_123"
    | 1 => sampleField "ae_sf_count" "123Field"
    | _ => mkElement TagOther false "" [] false
    end.

Definition sampleRegistry : FieldManager.t :=
  FieldManager.mk {[ "ae_sf_account" := FieldData.mk 0 None [] 0 ]}
                  {[ "ae_sf_account" := js "Account" ]} ∅ true
                  {[ "ae_sf_account" := 0 ]} 1.

Definition sampleOrchestrator : ValidationOrchestrator.t :=
  ValidationOrchestrator.mk sampleRegistry (mkStats 0 0 0 None).

(** ** validator-engine: batches *)

Module EngineBatch.

(** [validateBatch(fields)]: a [Map] from [field.id] to the result of
    [validate(field)], filled in the order of [fields]. *)
Definition validateBatch (config : ValidatorEngineConfig)
    (rules : list ValidationRule) (now : Z) (page : Dom)
    (fields : list NodeRef) : gmap string ValidationResult :=
  foldl (fun results field =>
           <[el_id (page field) :=
               ValidatorEngine.validate config rules now
                                        (el_value (page field))]> results)
        ∅ fields.

End EngineBatch.

(** ** validation-orchestrator: automatic validation *)

Module AutoValidation.

Section WithEngine.
Variable engineConfig : ValidatorEngineConfig.
Variable rules : list ValidationRule.
Variable now : Z.
Variable page : Dom.

(** The body of the loop of [autoValidateFields]. *)
Definition autoValidateOne
    (acc : ValidationOrchestrator.t * list UiEvent)
    (fieldData : FieldData.t) : ValidationOrchestrator.t * list UiEvent :=
  let '(o, evs) := acc in
  let field := FieldData.element fieldData in
  let id := el_id (page field) in
  let '(fm1, changed) :=
    FieldManager.hasFieldChanged page id
      (ValidationOrchestrator.fieldManager o) in
  let o1 := ValidationOrchestrator.mk fm1 (ValidationOrchestrator.stats o) in
  if changed then
    let '(o2, ev, _) :=
      ValidationOrchestrator.validateSingleField engineConfig rules now page
                                                 field true o1 in
    (ValidationOrchestrator.mk
       (FieldManager.updateFieldData id
          (FieldData.mkUpdates None None (Some now))
          (ValidationOrchestrator.fieldManager o2))
       (ValidationOrchestrator.stats o2),
     evs ++ ev)
  else (o1, evs).

(** [autoValidateFields()] *)
Definition autoValidateFields (o : ValidationOrchestrator.t)
  : ValidationOrchestrator.t * list UiEvent :=
  foldl autoValidateOne (o, [])
        (FieldManager.getFieldsNeedingValidation now page 2000
           (ValidationOrchestrator.fieldManager o)).

End WithEngine.

End AutoValidation.

(** ** debouncer.ts *)

Module Debouncer.

Section WithCallbacks.
(** What a callback stands for. *)
Variable C : Type.

(** [timers] is the map of the class; [pending] is what the window
    holds for it: the timers set and neither cleared nor run, each with
    its key, its callback and the time it is due; [nextTimer] is the
    identifier the next [setTimeout] returns. *)
Record t : Type := mk {
  timers : gmap string nat;
  pending : gmap nat (string * C * Z);
  nextTimer : nat
}.

(** A new debouncer in a window whose timer identifiers start at 1. *)
Definition initial : t := mk ∅ ∅ 1.

(** [window.clearTimeout(timer)] after the test [if (timer)]. *)
Definition clearIfSet (timer : option nat) (p : gmap nat (string * C * Z))
  : gmap nat (string * C * Z) :=
  match timer with
  | Some (S n) => delete (S n) p
  | _ => p
  end.

(** [debounce(key, callback, delay)] *)
Definition debounce (now : Z) (key : string) (callback : C) (delay : Z)
    (d : t) : t :=
  let existingTimer := timers d !! key in
  let p := clearIfSet existingTimer (pending d) in
  let timer := nextTimer d in
  mk (<[key := timer]> (timers d))
     (<[timer := (key, callback, (now + delay)%Z)]> p)
     (S timer).

(** [cancel(key)] *)
Definition cancel (key : string) (d : t) : t :=
  match timers d !! key with
  | Some (S n) =>
      mk (delete key (timers d)) (delete (S n) (pending d)) (nextTimer d)
  | _ => d
  end.

(** [cancelAll()] *)
Definition cancelAll (d : t) : t :=
  mk ∅
     (foldr (fun timer p => delete timer p) (pending d)
            (map_to_list (timers d)).*2)
     (nextTimer d).

Definition isPending (key : string) (d : t) : bool :=
  bool_decide (is_Some (timers d !! key)).

Definition getPendingCount (d : t) : nat := size (timers d).

(** A call of a method of the debouncer. *)
Inductive Call : Type :=
| Debounce (now : Z) (key : string) (callback : C) (delay : Z)
| Cancel (key : string)
| CancelAll.

Definition call (d : t) (c : Call) : t :=
  match c with
  | Debounce now key callback delay => debounce now key callback delay d
  | Cancel key => cancel key d
  | CancelAll => cancelAll d
  end.

(** The window runs the timer [timer], which from then on it holds no
    longer: the function given to [setTimeout] calls the callback and
    then, when the callback has returned, deletes the key.  [during] is
    the calls that the callback makes on this debouncer while it runs,
    and [returned] tells whether it returns or throws; no other timer
    runs meanwhile. *)
Definition fire (timer : nat) (during : list Call) (returned : bool) (d : t)
  : t * list C :=
  match pending d !! timer with
  | Some (key, callback, _) =>
      let d1 := mk (timers d) (delete timer (pending d)) (nextTimer d) in
      let d2 := foldl call d1 during in
      (if returned
       then mk (delete key (timers d2)) (pending d2) (nextTimer d2)
       else d2,
       [callback])
  | None => (d, [])
  end.

(** What happens to a debouncer: a call from outside a callback, or the
    window running one of the timers. *)
Inductive Op : Type :=
| Called (c : Call)
| Fired (timer : nat) (during : list Call) (returned : bool).

Definition step (acc : t * list C) (op : Op) : t * list C :=
  let '(d, called) := acc in
  match op with
  | Called c => (call d c, called)
  | Fired timer during returned =>
      let '(d', cs) := fire timer during returned d in (d', called ++ cs)
  end.

(** The debouncer and the callbacks called after [ops], from a new
    debouncer. *)
Definition run (ops : list Op) : t * list C := foldl step (initial, []) ops.

(** The call debounces [key]. *)
Definition debounces (key : string) (c : Call) : bool :=
  match c with
  | Debounce _ key' _ _ => bool_decide (key' = key)
  | _ => false
  end.

(** The callback that [op] runs, if any, returns and does not debounce
    the key it was debounced for. *)
Definition wellBehaved (d : t) (op : Op) : bool :=
  match op with
  | Called _ => true
  | Fired timer during returned =>
      match pending d !! timer with
      | Some (key, _, _) => returned && negb (existsb (debounces key) during)
      | None => true
      end
  end.

(** Every callback run in [ops], from the debouncer [d], is well
    behaved. *)
Fixpoint allWellBehaved (d : t) (ops : list Op) : bool :=
  match ops with
  | [] => true
  | op :: ops' =>
      wellBehaved d op && allWellBehaved (step (d, []) op).1 ops'
  end.

(** Every callback run in [ops] returned. *)
Definition allReturned (ops : list Op) : bool :=
  forallb (fun op => match op with
                     | Called _ => true
                     | Fired _ _ returned => returned
                     end) ops.

(** The map of the class and the timers of the window agree. *)
Definition consistent (d : t) : Prop :=
  (forall key timer,
      timers d !! key = Some timer <->
      exists callback due, pending d !! timer = Some (key, callback, due))
  /\ (forall timer entry,
        pending d !! timer = Some entry -> 0 < timer < nextTimer d)
  /\ 0 < nextTimer d.

(** Every timer of the map of the class is one that the window holds,
    set for the key it stands under. *)
Definition tracked (d : t) : Prop :=
  (forall key timer,
      timers d !! key = Some timer ->
      exists callback due, pending d !! timer = Some (key, callback, due))
  /\ (forall timer entry,
        pending d !! timer = Some entry -> 0 < timer < nextTimer d)
  /\ 0 < nextTimer d.

End WithCallbacks.

End Debouncer.

(** ** performance monitor *)

Module PerformanceMonitor.

Section WithDurations.
(** The type of a measured duration. *)
Variable D : Type.

Definition maxSamples : nat := 10.

(** [record(operation, duration)] *)
Definition record (operation : string) (duration : D)
    (metrics : gmap string (list D)) : gmap string (list D) :=
  let samples := default [] (metrics !! operation) ++ [duration] in
  <[operation := if (maxSamples <? length samples)%nat
                 then tail samples else samples]> metrics.

(** The measurements of a run, recorded in order from no metrics. *)
Definition recordAll (measurements : list (string * D))
  : gmap string (list D) :=
  foldl (fun metrics '(operation, duration) =>
           record operation duration metrics)
        ∅ measurements.

(** The [samples] entry of [getStats()] for one operation. *)
Definition sampleCount (operation : string) (metrics : gmap string (list D))
  : option nat :=
  length <$> metrics !! operation.

(** The durations measured for [operation], in order. *)
Definition durationsOf (operation : string) (measurements : list (string * D))
  : list D :=
  (List.filter (fun m => bool_decide (m.1 = operation)) measurements).*2.

End WithDurations.

End PerformanceMonitor.

(** The last [n] elements of a list. *)
Definition lastN {A : Type} (n : nat) (l : list A) : list A :=
  drop (length l - n) l.

(** ** Observations on events and records *)

(** The container-changed notifications among the events of a scan. *)
Definition containerNotifications (evs : list Notification)
  : list (option NodeRef) :=
  omap (fun e => match e with ContainerChanged c => Some c | _ => None end)
       evs.

(** The number of retries scheduled among the events of a scan. *)
Definition retriesScheduled (evs : list Notification) : nat :=
  length (List.filter
            (fun e => match e with RetryScheduled => true | _ => false end)
            evs).

(** The updates of all the animation frames among the events, in order. *)
Definition highlighted (evs : list UiEvent)
  : list (NodeRef * bool * list string) :=
  concat (omap (fun e => match e with Highlights u => Some u | _ => None end)
               evs).

(** Every record of the registry sits under the id of its element. *)
Definition keyedByElementId (page : Dom) (fm : FieldManager.t) : Prop :=
  forall id fieldData,
    FieldManager.registeredFields fm !! id = Some fieldData ->
    el_id (page (FieldData.element fieldData)) = id.

(** The bookkeeping of the order of the registry is sound: the keys
    that have a time of insertion are the registered ones, no two of
    them have the same, and all the times are in the past. *)
Definition wellFormed (fm : FieldManager.t) : Prop :=
  dom (FieldManager.insertedAt fm) = dom (FieldManager.registeredFields fm)
  /\ (forall id time,
        FieldManager.insertedAt fm !! id = Some time ->
        time < FieldManager.insertions fm)
  /\ (forall id id' time,
        FieldManager.insertedAt fm !! id = Some time ->
        FieldManager.insertedAt fm !! id' = Some time -> id = id').

(** The ids of [ids] that are not among [known], each once, at the
    place of its first occurrence. *)
Fixpoint freshIds (known : gset string) (ids : list string) : list string :=
  match ids with
  | [] => []
  | id :: ids' =>
      if bool_decide (id ∈ known) then freshIds known ids'
      else id :: freshIds ({[id]} ∪ known) ids'
  end.

(** The record that [registerField] creates for an element. *)
Definition freshRecord (field : NodeRef) : FieldData.t :=
  FieldData.mk field None [] 0.

(** A page with one more field, of the id of the first one, and the
    container of its three form elements. *)
Definition sampleContainer : list NodeRef := [0; 1; 2].

(** The highlight update that a validation of the record's element
    asks for. *)
Definition highlightOf (engineConfig : ValidatorEngineConfig)
    (rules : list ValidationRule) (now : Z) (page : Dom)
    (fieldData : FieldData.t) : NodeRef * bool * list string :=
  let field := FieldData.element fieldData in
  let result :=
    ValidationOrchestrator.validateElement engineConfig rules now page field in
  (field, isValid result, errors result).

(** The record after the outcome of a validation of its element has
    been merged into it. *)
Definition validatedRecord (engineConfig : ValidatorEngineConfig)
    (rules : list ValidationRule) (now : Z) (page : Dom)
    (fieldData : FieldData.t) : FieldData.t :=
  FieldData.assign fieldData
    (ValidationOrchestrator.outcome now
       (ValidationOrchestrator.validateElement engineConfig rules now page
          (FieldData.element fieldData))).

(** An animation frame of at most [n] highlight updates. *)
Definition frameAtMost (n : nat) (e : UiEvent) : Prop :=
  match e with
  | Highlights updates => length updates <= n
  | _ => True
  end.

(** Three polls of a page that has no section yet. *)
Definition noSectionScans : list (Z * Document) :=
  [(1000%Z, None); (3000%Z, None); (5000%Z, None)].

(** A field edited three times within the debounce delay, and a
    rescan asked for in between. *)
Definition sampleDebounces : list (Debouncer.Op string) :=
  [Debouncer.Called string
     (Debouncer.Debounce string 0 "validate-ae_sf_account" "first" 300);
   Debouncer.Called string
     (Debouncer.Debounce string 100 "validate-ae_sf_account" "second" 300);
   Debouncer.Called string
     (Debouncer.Debounce string 150 "mutation-scan" "scan" 300);
   Debouncer.Called string
     (Debouncer.Debounce string 200 "validate-ae_sf_account" "third" 300)].

(** The same, and then the timer of the rescan runs: its callback
    cancels the validation of a field that has left the page, for
    which no timer is set, and returns. *)
Definition sampleFirings : list (Debouncer.Op string) :=
  sampleDebounces
  ++ [Debouncer.Fired string 3
        [Debouncer.Cancel string "validate-ae_sf_count"] true].

(** * Properties *)

Import ValidationRules RuleExecutor.

(** ** Trimming *)

Section Trim.

Lemma trimStart_clean s : startsClean (trimStart s).
Proof.
  induction s as [|c s IH]; simpl; [exact I|].
  destruct (isWhiteSpace c) eqn:E; [exact IH | exact E].
Qed.

Lemma clean_trimStart s : startsClean s -> trimStart s = s.
Proof. destruct s as [|c s]; simpl; [reflexivity|]. now intros ->. Qed.

Lemma trimStart_snoc_clean s c :
  isWhiteSpace c = false -> trimStart (s ++ [c]) = trimStart s ++ [c].
Proof.
  intros Hc. induction s as [|d s IH]; simpl.
  - now rewrite Hc.
  - destruct (isWhiteSpace d); [exact IH | reflexivity].
Qed.

Lemma trimStart_spaces pre s :
  forallb isWhiteSpace pre = true -> trimStart (pre ++ s) = trimStart s.
Proof.
  induction pre as [|c pre IH]; simpl; [reflexivity|].
  intros [-> H]%andb_true_iff. auto.
Qed.

Lemma trimEnd_clean s : startsClean s -> startsClean (trimEnd s).
Proof.
  destruct s as [|c s]; [intros _; exact I|]. simpl. intros Hc.
  unfold trimEnd. simpl. rewrite trimStart_snoc_clean by exact Hc.
  rewrite rev_app_distr. simpl. exact Hc.
Qed.

Lemma trimEnd_idem s : trimEnd (trimEnd s) = trimEnd s.
Proof.
  unfold trimEnd. rewrite rev_involutive.
  now rewrite (clean_trimStart _ (trimStart_clean _)).
Qed.

Lemma trim_idem s : trim (trim s) = trim s.
Proof.
  unfold trim.
  rewrite (clean_trimStart (trimEnd (trimStart s))).
  - apply trimEnd_idem.
  - apply trimEnd_clean, trimStart_clean.
Qed.

Lemma trimStart_no_space s : hasWhiteSpace s = false -> trimStart s = s.
Proof.
  intros H. apply clean_trimStart. destruct s as [|c s]; [exact I|].
  simpl in *. now apply orb_false_iff in H as [H _].
Qed.

Lemma hasWhiteSpace_rev s : hasWhiteSpace (rev s) = hasWhiteSpace s.
Proof.
  unfold hasWhiteSpace. induction s as [|c s IH]; simpl; [reflexivity|].
  rewrite existsb_app, IH. simpl. rewrite orb_false_r. apply orb_comm.
Qed.

Lemma forallb_rev (f : N -> bool) s : forallb f (rev s) = forallb f s.
Proof.
  induction s as [|c s IH]; simpl; [reflexivity|].
  rewrite forallb_app, IH. simpl. rewrite andb_true_r. apply andb_comm.
Qed.

(** Whitespace around a value without whitespace is what [trim] removes. *)
Lemma trim_sandwich pre core post :
  forallb isWhiteSpace pre = true ->
  forallb isWhiteSpace post = true ->
  hasWhiteSpace core = false ->
  trim (pre ++ core ++ post) = core.
Proof.
  intros Hpre Hpost Hcore. unfold trim.
  rewrite trimStart_spaces by exact Hpre.
  destruct core as [|c core].
  - simpl. replace post with (post ++ []) by apply app_nil_r.
    rewrite trimStart_spaces by exact Hpost. reflexivity.
  - rewrite (clean_trimStart ((c :: core) ++ post)).
    + unfold trimEnd. rewrite rev_app_distr.
      rewrite trimStart_spaces by (now rewrite forallb_rev).
      rewrite trimStart_no_space by (now rewrite hasWhiteSpace_rev).
      apply rev_involutive.
    + simpl in *. now apply orb_false_iff in Hcore as [H _].
Qed.

Lemma trim_spaces v : forallb isWhiteSpace v = true -> trim v = [].
Proof.
  intros H. replace v with (v ++ [] ++ []) by (simpl; apply app_nil_r).
  now apply trim_sandwich.
Qed.

End Trim.
(** ** The executor and the engine *)

Section Executor.

Lemma executeRules_acc value rules acc :
  foldl (fun errors rule =>
           if check rule value then errors else errors ++ [message rule])
        acc rules
  = acc ++ List.map message (failing value rules).
Proof.
  revert acc. induction rules as [|r rules IH]; intros acc; simpl.
  - now rewrite app_nil_r.
  - rewrite IH. destruct (check r value); simpl; [reflexivity|].
    now rewrite <- app_assoc.
Qed.

(** [executeRules] returns the messages of the failing rules, in the
    order of the rule set. *)
Lemma executeRules_failing value rules :
  executeRules value rules = List.map message (failing value rules).
Proof. unfold executeRules. now rewrite executeRules_acc. Qed.

Lemma initializeDefaultRules_eq : initializeDefaultRules = defaultRules.
Proof. reflexivity. Qed.

Lemma validate_empty config rules now v :
  trim v = [] ->
  enableEmptyFieldOptimization config = true ->
  ValidatorEngine.validate config rules now v
  = mkResult false ["Field cannot be empty"] now.
Proof.
  intros Hv Hc. unfold ValidatorEngine.validate. now rewrite Hv, Hc.
Qed.

Lemma default_message_no_spaces r :
  List.In r defaultRules -> message r = "No spaces allowed" ->
  forall value, check r value = negb (hasWhiteSpace value).
Proof.
  unfold defaultRules. simpl.
  intros H; repeat (destruct H as [<-|H]); try contradiction;
    simpl; intros Hm; try discriminate Hm; reflexivity.
Qed.

(** The default predicates return on every value. *)
Lemma defaults_never_throw value names :
  throwsOn value (getExcluding names initializeDefaultRules) = false.
Proof.
  unfold throwsOn. apply not_true_is_false. intros H.
  apply existsb_exists in H as (r & Hr & Ht).
  unfold getExcluding in Hr. apply filter_In in Hr as [Hr _].
  unfold initializeDefaultRules in Hr. simpl in Hr.
  repeat (destruct Hr as [<-|Hr]); try contradiction; discriminate Ht.
Qed.

(** No message is pushed exactly when every predicate returns true. *)
Lemma no_error_iff_all_pass value rules :
  (length (List.map message (failing value rules)) =? 0)%nat
  = forallb (fun rule => check rule value) rules.
Proof.
  induction rules as [|r rules IH]; [reflexivity|].
  unfold failing in *. cbn [List.filter forallb].
  destruct (check r value); simpl; [exact IH|reflexivity].
Qed.

(** The rules that [validate] hands to the executor. *)
Lemma validate_cases config rules now v :
  let value := trim v in
  let executed :=
    if enableEmptyFieldOptimization config
    then getExcluding ["not-empty"] rules else getAll rules in
  ValidatorEngine.validate config rules now v
  = if (length value =? 0)%nat && enableEmptyFieldOptimization config
    then mkResult false ["Field cannot be empty"] now
    else if throwsOn value executed
         then mkResult false ["Validation error occurred"] now
         else mkResult (forallb (fun rule => check rule value) executed)
                       (List.map message (failing value executed)) now.
Proof.
  cbv zeta. unfold ValidatorEngine.validate, ValidatorEngine.createResult.
  now rewrite executeRules_failing, no_error_iff_all_pass.
Qed.

(** The result of the engine under its default configuration and the
    default rules. *)
Lemma validate_defaults now v :
  ValidatorEngine.validate ValidatorEngine.defaultConfig
    initializeDefaultRules now v
  = if (length (trim v) =? 0)%nat
    then mkResult false ["Field cannot be empty"] now
    else mkResult
           (forallb (fun rule => check rule (trim v))
                    (getExcluding ["not-empty"] initializeDefaultRules))
           (List.map message
              (failing (trim v)
                 (getExcluding ["not-empty"] initializeDefaultRules))) now.
Proof.
  rewrite validate_cases. cbv zeta.
  cbn [ValidatorEngine.defaultConfig enableEmptyFieldOptimization].
  rewrite andb_true_r, defaults_never_throw. reflexivity.
Qed.

End Executor.

(** C2 (as stated, refuted): on ["123Field"] the default rule set does
    not yield the single message "Cannot start with number", and not
    every other default predicate returns true. *)
Lemma default_rules_123Field_not_single_failure :
  ~ (executeRules (js "123Field") initializeDefaultRules
       = ["Cannot start with number"]
     /\ forall r, List.In r initializeDefaultRules ->
                  name r <> "no-leading-number" ->
                  check r (js "123Field") = true).
Proof. intros [H _]. vm_compute in H. discriminate H. Qed.

(** C2 (amended): evaluating ["123Field"] against the default rule set
    yields exactly two failure messages, "Must start with capital
    letter" and then "Cannot start with number"; the predicates of the
    seven other default rules return true; the engine under its default
    configuration reports the same two messages and an invalid field. *)
Theorem default_rules_123Field_two_failures :
  executeRules (js "123Field") initializeDefaultRules
    = ["Must start with capital letter"; "Cannot start with number"]
  /\ List.map name (failing (js "123Field") initializeDefaultRules)
     = ["starts-with-capital"; "no-leading-number"]
  /\ List.map name
       (List.filter (fun r => check r (js "123Field")) initializeDefaultRules)
     = ["not-empty"; "no-spaces"; "alphanumeric-underscore"; "min-length";
        "max-length"; "no-trailing-underscore"; "no-consecutive-underscores"]
  /\ forall now,
       ValidatorEngine.validate ValidatorEngine.defaultConfig
         initializeDefaultRules now (js "123Field")
       = mkResult false
           ["Must start with capital letter"; "Cannot start with number"] now.
Proof. repeat split. Qed.

(** C3 (as stated, refuted): for the empty string the result with the
    empty-field optimization differs from the result without it. *)
Lemma empty_string_optimization_not_identical :
  ~ (let on := ValidatorEngine.validate (mkEngineConfig true false 10)
                 initializeDefaultRules 0 [] in
     let off := ValidatorEngine.validate (mkEngineConfig false false 10)
                  initializeDefaultRules 0 [] in
     isValid on = isValid off /\ errors on = errors off).
Proof. intros [_ H]. vm_compute in H. discriminate H. Qed.

(** C3 (amended): for the empty string, validation with the empty-field
    optimization and validation without it agree on the validity flag
    (invalid) but not on the error list: with the optimization the list
    is the single message "Field cannot be empty"; without it the list
    has four messages, of which that message is the first. *)
Theorem empty_string_optimization_same_flag_shorter_list :
  forall (stop : bool) (maxErrors now : Z),
    let on := ValidatorEngine.validate (mkEngineConfig true stop maxErrors)
                initializeDefaultRules now [] in
    let off := ValidatorEngine.validate (mkEngineConfig false stop maxErrors)
                 initializeDefaultRules now [] in
    isValid on = false
    /\ isValid off = false
    /\ errors on = ["Field cannot be empty"]
    /\ errors off = ["Field cannot be empty";
                     "Must start with capital letter";
                     "Only letters, numbers, and underscore allowed";
                     "Must be at least 3 characters"].
Proof. intros stop maxErrors now. repeat split. Qed.

(** C10: validation is performed on the trimmed value.  For every
    configuration, rule set and value, [validate] gives the same result
    on [v] and on [trim v]; under the default configuration a value of
    whitespace only yields the single failure "Field cannot be empty";
    under the default configuration and rules, whitespace before and
    after a value that contains none does not produce the message of the
    no-spaces rule.  The result is the one of the rules on the trimmed
    value: unless the trimmed value is empty and the optimization is on,
    the result is the one of the [catch] branch when a predicate that is
    run throws on the trimmed value, and otherwise the errors are the
    messages of the rules that are run and whose predicate returns
    false on the trimmed value, in their order, and the result is valid
    exactly when there is none.  Under the default configuration and
    rules the message of the no-spaces rule is reported exactly when
    whitespace is left in the trimmed value, and the result is valid
    exactly when every default predicate returns true on the trimmed
    value. *)
Theorem validate_uses_trimmed_value :
  (forall config rules now v,
      ValidatorEngine.validate config rules now v
      = ValidatorEngine.validate config rules now (trim v))
  /\ (forall rules now v,
        forallb isWhiteSpace v = true ->
        ValidatorEngine.validate ValidatorEngine.defaultConfig rules now v
        = mkResult false ["Field cannot be empty"] now)
  /\ (forall now pre core post,
        forallb isWhiteSpace pre = true ->
        forallb isWhiteSpace post = true ->
        hasWhiteSpace core = false ->
        ~ List.In "No spaces allowed"
            (errors (ValidatorEngine.validate ValidatorEngine.defaultConfig
                       initializeDefaultRules now (pre ++ core ++ post))))
  /\ (forall config rules now v,
        let executed :=
          if enableEmptyFieldOptimization config
          then getExcluding ["not-empty"] rules else getAll rules in
        ~ (trim v = [] /\ enableEmptyFieldOptimization config = true) ->
        (throwsOn (trim v) executed = true ->
         ValidatorEngine.validate config rules now v
         = mkResult false ["Validation error occurred"] now)
        /\ (throwsOn (trim v) executed = false ->
            ValidatorEngine.validate config rules now v
            = mkResult (forallb (fun rule => check rule (trim v)) executed)
                       (List.map message (failing (trim v) executed)) now))
  /\ (forall now v,
        List.In "No spaces allowed"
          (errors (ValidatorEngine.validate ValidatorEngine.defaultConfig
                     initializeDefaultRules now v))
        <-> hasWhiteSpace (trim v) = true)
  /\ (forall now v,
        isValid (ValidatorEngine.validate ValidatorEngine.defaultConfig
                   initializeDefaultRules now v) = true
        <-> forall rule, List.In rule initializeDefaultRules ->
                         check rule (trim v) = true).
Proof.
  split; [|split; [|split; [|split; [|split]]]].
  - intros config rules now v. unfold ValidatorEngine.validate.
    now rewrite trim_idem.
  - intros rules now v Hv. apply validate_empty; [|reflexivity].
    now apply trim_spaces.
  - intros now pre core post Hpre Hpost Hcore.
    rewrite validate_defaults.
    rewrite (trim_sandwich pre core post Hpre Hpost Hcore).
    destruct core as [|c core]; simpl length; cbn [Nat.eqb].
    + simpl. intros [H|[]]. discriminate H.
    + cbn [errors]. intros Hin.
      apply in_map_iff in Hin as (r & Hm & Hr).
      unfold failing, getExcluding in Hr.
      apply filter_In in Hr as [Hr Hfail].
      apply filter_In in Hr as [Hr _].
      rewrite (default_message_no_spaces r Hr Hm) in Hfail.
      rewrite Hcore in Hfail. discriminate Hfail.
  - intros config rules now v executed Hshort.
    pose proof (validate_cases config rules now v) as H. cbv zeta in H.
    fold executed in H.
    assert (Hb : (length (trim v) =? 0)%nat
                 && enableEmptyFieldOptimization config = false).
    { apply not_true_is_false. intros Hb. apply Hshort.
      apply andb_true_iff in Hb as [Hl Hc]. split; [|exact Hc].
      apply Nat.eqb_eq in Hl. now destruct (trim v). }
    rewrite Hb in H. split; intros Ht; now rewrite Ht in H.
  - intros now v. rewrite validate_defaults.
    destruct (trim v) as [|c value] eqn:Ev; simpl length; cbn [Nat.eqb].
    + simpl. split; [intros [H|[]]; discriminate H|discriminate].
    + cbn [errors]. split.
      * intros Hin. apply in_map_iff in Hin as (r & Hm & Hr).
        unfold failing, getExcluding in Hr.
        apply filter_In in Hr as [Hr Hfail].
        apply filter_In in Hr as [Hr _].
        rewrite (default_message_no_spaces r Hr Hm) in Hfail.
        now apply negb_true_iff, negb_false_iff in Hfail.
      * intros Hw. apply in_map_iff.
        exists (mkRule "no-spaces"
                  (fun value => negb (hasWhiteSpace value))
                  "No spaces allowed" (Some 3%Z) neverThrows).
        split; [reflexivity|]. unfold failing. apply filter_In. split.
        -- simpl. auto.
        -- cbn [check]. now rewrite Hw.
  - intros now v. rewrite validate_defaults.
    destruct (trim v) as [|c value] eqn:Ev; simpl length; cbn [Nat.eqb].
    + cbn [isValid]. split; [discriminate|]. intros H.
      specialize (H (mkRule "not-empty"
                       (fun value => (0 <? length value)%nat)
                       "Field cannot be empty" (Some 1%Z) neverThrows)).
      simpl in H. apply H. now left.
    + cbn [isValid]. rewrite forallb_forall. split.
      * intros H rule Hr. unfold initializeDefaultRules in Hr.
        simpl in Hr. destruct Hr as [<-|Hr]; [reflexivity|].
        apply H. simpl. exact Hr.
      * intros H rule Hr. apply H. unfold getExcluding in Hr.
        now apply filter_In in Hr as [Hr _].
Qed.

Lemma validate_uses_trimmed_value_witness :
  ValidatorEngine.validate ValidatorEngine.defaultConfig
    initializeDefaultRules 7 (js "   ")
  = mkResult false ["Field cannot be empty"] 7
  /\ ~ List.In "No spaces allowed"
         (errors (ValidatorEngine.validate ValidatorEngine.defaultConfig
                    initializeDefaultRules 7
                    (js "  " ++ js "field_name" ++ js " ")))
  /\ ValidatorEngine.validate ValidatorEngine.defaultConfig
       initializeDefaultRules 7 (js " My Field ")
     = mkResult false
         ["No spaces allowed";
          "Only letters, numbers, and underscore allowed"] 7.
Proof.
  destruct validate_uses_trimmed_value as (_ & Hblank & Hpad & Hrun & _).
  split; [|split].
  - apply Hblank. reflexivity.
  - apply Hpad; reflexivity.
  - destruct (Hrun ValidatorEngine.defaultConfig initializeDefaultRules 7%Z
                   (js " My Field ")) as [_ H].
    + intros [H _]. vm_compute in H. discriminate H.
    + exact (H eq_refl).
Defined.

(** ** Order of a list *)

Section Before.
Context {A : Type}.
Implicit Types (a b x : A) (l k : list A).

Lemma before_cons_inv a b x l :
  before a b (x :: l) -> (a = x /\ b ∈ l) \/ before a b l.
Proof.
  intros (l1 & l2 & l3 & E). destruct l1 as [|y l1]; simpl in E.
  - injection E as <- ->. left. split; [reflexivity|].
    apply elem_of_app. right. apply elem_of_cons. now left.
  - injection E as <- ->. right. now exists l1, l2, l3.
Qed.

Lemma before_cons a b x l : before a b l -> before a b (x :: l).
Proof. intros (l1 & l2 & l3 & ->). now exists (x :: l1), l2, l3. Qed.

Lemma before_head x b l : b ∈ l -> before x b (x :: l).
Proof.
  intros (l2 & l3 & ->)%list_elem_of_split. now exists [], l2, l3.
Qed.

Lemma before_nil a b : ~ before a b (@nil A).
Proof. intros (l1 & l2 & l3 & E). now destruct l1. Qed.

Lemma before_sublist a b l k :
  l `sublist_of` k -> before a b l -> before a b k.
Proof.
  induction 1 as [|x l k Hs IH|x l k Hs IH]; intros Hb.
  - exact Hb.
  - apply before_cons_inv in Hb as [[-> Hin]|Hb].
    + apply before_head. now apply (elem_of_sublist l k).
    + now apply before_cons, IH.
  - now apply before_cons, IH.
Qed.

Lemma before_snoc_inv a b x l :
  before a b (l ++ [x]) -> before a b l \/ (a ∈ l /\ b = x).
Proof.
  induction l as [|y l IH]; simpl; intros Hb.
  - apply before_cons_inv in Hb as [[_ Hin]|Hb].
    + now apply elem_of_nil in Hin.
    + now apply before_nil in Hb.
  - apply before_cons_inv in Hb as [[-> Hin]|Hb].
    + apply elem_of_app in Hin as [Hin|Hin].
      * left. now apply before_head.
      * right. apply list_elem_of_singleton in Hin as ->.
        split; [apply elem_of_cons; now left | reflexivity].
    + destruct (IH Hb) as [Hb'|[Hin ->]].
      * left. now apply before_cons.
      * right. split; [apply elem_of_cons; now right | reflexivity].
Qed.

Lemma lookup_before a b l i j :
  i < j -> l !! i = Some a -> l !! j = Some b -> before a b l.
Proof.
  revert i j. induction l as [|x l IH]; intros i j Hij Hi Hj.
  - discriminate Hi.
  - destruct j as [|j]; [lia|]. destruct i as [|i]; simpl in *.
    + injection Hi as ->. apply before_head.
      now apply list_elem_of_lookup_2 in Hj.
    + apply before_cons, (IH i j); [lia|assumption..].
Qed.

Lemma before_StronglySorted (R : A -> A -> Prop) a b l :
  StronglySorted R l -> before a b l -> R a b.
Proof.
  induction 1 as [|x l Hs IH Hall]; intros Hb.
  - now apply before_nil in Hb.
  - apply before_cons_inv in Hb as [[-> Hin]|Hb]; [|now apply IH].
    rewrite Forall_forall in Hall. now apply Hall.
Qed.

Lemma filter_sublist (f : A -> bool) l : List.filter f l `sublist_of` l.
Proof.
  induction l as [|x l IH]; simpl; [constructor|].
  destruct (f x); now constructor.
Qed.

Lemma StronglySorted_sublist (R : A -> A -> Prop) l k :
  l `sublist_of` k -> StronglySorted R k -> StronglySorted R l.
Proof.
  induction 1 as [|x l k Hs IH|x l k Hs IH]; intros Hk.
  - constructor.
  - apply StronglySorted_inv in Hk as [Hk Hall]. constructor; [now apply IH|].
    rewrite Forall_forall in Hall. apply Forall_forall. intros y Hy.
    apply Hall. now apply (elem_of_sublist l k).
  - apply StronglySorted_inv in Hk as [Hk _]. now apply IH.
Qed.

End Before.

(** ** The stable sort of the rule set *)

Section Sorting.
Implicit Types (r x a b : ValidationRule) (l : list ValidationRule).

Lemma insertByPriority_perm r l : insertByPriority r l ≡ₚ r :: l.
Proof.
  induction l as [|x l IH]; simpl; [reflexivity|].
  destruct (priorityOf r <=? priorityOf x)%Z; [reflexivity|].
  rewrite IH. apply Permutation_swap.
Qed.

Lemma sortByPriority_perm l : sortByPriority l ≡ₚ l.
Proof.
  induction l as [|x l IH]; simpl; [reflexivity|].
  now rewrite insertByPriority_perm, IH.
Qed.

Lemma insertByPriority_sorted r l :
  StronglySorted priorityLe l -> StronglySorted priorityLe (insertByPriority r l).
Proof.
  induction 1 as [|x l Hs IH Hall]; simpl.
  - repeat constructor.
  - destruct (priorityOf r <=? priorityOf x)%Z eqn:E.
    + apply Z.leb_le in E. constructor; [now constructor|].
      constructor; [exact E|].
      eapply Forall_impl; [exact Hall|]. unfold priorityLe. simpl. lia.
    + apply Z.leb_gt in E. constructor; [exact IH|].
      rewrite insertByPriority_perm. constructor; [|exact Hall].
      unfold priorityLe. lia.
Qed.

Lemma sortByPriority_sorted l : StronglySorted priorityLe (sortByPriority l).
Proof.
  induction l as [|x l IH]; simpl; [constructor|].
  now apply insertByPriority_sorted.
Qed.

Lemma before_insertByPriority a b x l :
  before a b (insertByPriority x l) ->
  before a b l \/ (a = x /\ b ∈ l)
  \/ (b = x /\ a ∈ l /\ (priorityOf a < priorityOf x)%Z).
Proof.
  induction l as [|y l IH]; simpl; intros Hb.
  - apply before_cons_inv in Hb as [[_ Hin]|Hb].
    + now apply elem_of_nil in Hin.
    + now apply before_nil in Hb.
  - destruct (priorityOf x <=? priorityOf y)%Z eqn:E.
    + apply before_cons_inv in Hb as [[-> Hin]|Hb]; auto.
    + apply Z.leb_gt in E.
      apply before_cons_inv in Hb as [[-> Hin]|Hb].
      * rewrite insertByPriority_perm in Hin.
        apply elem_of_cons in Hin as [->|Hin].
        -- right; right. split; [reflexivity|]. split; [|lia].
           apply elem_of_cons. now left.
        -- left. now apply before_head.
      * destruct (IH Hb) as [H|[[-> H]|(-> & H & Hlt)]].
        -- left. now apply before_cons.
        -- right; left. split; [reflexivity|]. apply elem_of_cons. now right.
        -- right; right. split; [reflexivity|]. split; [|exact Hlt].
           apply elem_of_cons. now right.
Qed.

(** The sort keeps rules of equal priority in the order they had. *)
Lemma sortByPriority_stable a b l :
  before a b (sortByPriority l) -> priorityOf a = priorityOf b -> before a b l.
Proof.
  revert a b. induction l as [|x l IH]; intros a b Hb Heq; simpl in Hb.
  - now apply before_nil in Hb.
  - apply before_insertByPriority in Hb as [H|[[-> H]|(-> & H & Hlt)]].
    + now apply before_cons, IH.
    + apply before_head. now rewrite sortByPriority_perm in H.
    + lia.
Qed.

End Sorting.

(** ** Invariants of the rule registry *)

Section Registry.
Implicit Types (rules : list ValidationRule) (ops : list RuleOp).

Lemma findIndex_Some n rules i :
  findIndex n rules = Some i ->
  exists x, rules !! i = Some x /\ name x = n.
Proof.
  unfold findIndex. destruct (list_find _ rules) as [[j x]|] eqn:E; [|done].
  simpl. intros [= <-]. apply list_find_Some in E as (Hl & Hn & _). eauto.
Qed.

Lemma findIndex_None n rules :
  findIndex n rules = None -> n ∉ name <$> rules.
Proof.
  unfold findIndex. destruct (list_find _ rules) as [[j x]|] eqn:E; [done|].
  intros _. apply list_find_None in E. rewrite Forall_forall in E.
  intros (r & -> & Hr)%list_elem_of_fmap. now apply (E r).
Qed.

Lemma findIndex_not_included n rules :
  includes (name <$> rules) n = false -> findIndex n rules = None.
Proof.
  unfold includes. intros H%bool_decide_eq_false.
  destruct (findIndex n rules) as [i|] eqn:E; [|reflexivity].
  apply findIndex_Some in E as (x & Hx & <-). exfalso. apply H.
  apply list_elem_of_fmap. exists x. split; [reflexivity|].
  now apply list_elem_of_lookup_2 in Hx.
Qed.

Lemma remove_sublist n rules : (remove n rules).2 `sublist_of` rules.
Proof.
  unfold remove. destruct (findIndex n rules); simpl.
  - apply sublist_delete.
  - reflexivity.
Qed.

Lemma add_names_NoDup rule rules :
  NoDup (name <$> rules) -> NoDup (name <$> add rule rules).
Proof.
  intros Hnd. unfold add. rewrite sortByPriority_perm.
  destruct (findIndex (name rule) rules) as [i|] eqn:E.
  - apply findIndex_Some in E as (x & Hx & Hn).
    rewrite list_fmap_insert, list_insert_id; [exact Hnd|].
    now rewrite list_lookup_fmap, Hx, <- Hn.
  - apply findIndex_None in E. rewrite fmap_app. simpl.
    apply NoDup_app. split; [exact Hnd|]. split.
    + intros y Hy ->%list_elem_of_singleton. contradiction.
    + apply NoDup_singleton.
Qed.

Lemma applyOp_names_NoDup rules op :
  NoDup (name <$> rules) -> NoDup (name <$> applyOp rules op).
Proof.
  destruct op as [rule|n]; simpl.
  - apply add_names_NoDup.
  - intros H. apply (sublist_NoDup _ (name <$> rules)); [exact H|].
    apply fmap_sublist, remove_sublist.
Qed.

Lemma applyOp_sorted rules op :
  StronglySorted priorityLe rules ->
  StronglySorted priorityLe (applyOp rules op).
Proof.
  destruct op as [rule|n]; simpl; intros H.
  - apply sortByPriority_sorted.
  - eapply StronglySorted_sublist; [apply remove_sublist | exact H].
Qed.

Lemma runOps_snoc ops op : runOps (ops ++ [op]) = applyOp (runOps ops) op.
Proof. unfold runOps. apply foldl_snoc. Qed.

Lemma defaultRules_names_NoDup : NoDup (name <$> initializeDefaultRules).
Proof. refine (bool_decide_unpack _ _). vm_compute. exact I. Qed.

Lemma runOps_names_NoDup ops : NoDup (name <$> runOps ops).
Proof.
  induction ops as [|op ops IH] using rev_ind.
  - apply defaultRules_names_NoDup.
  - rewrite runOps_snoc. now apply applyOp_names_NoDup.
Qed.

Lemma runOps_sorted ops : StronglySorted priorityLe (runOps ops).
Proof.
  induction ops as [|op ops IH] using rev_ind.
  - apply sortByPriority_sorted.
  - rewrite runOps_snoc. now apply applyOp_sorted.
Qed.

End Registry.

(** C8: starting from the default rule set, after any sequence of [add]
    and [remove] operations no two rules of the set share a name. *)
Theorem rule_names_unique :
  forall ops : list RuleOp, NoDup (name <$> runOps ops).
Proof. exact runOps_names_NoDup. Qed.

(** ** Registration order *)

Section Registration.
Implicit Types (rules : list ValidationRule) (ops : list RuleOp).

Lemma lastAdd_snoc n ops op t acc :
  lastAdd n (ops ++ [op]) t acc
  = match op with
    | OpAdd rule =>
        if bool_decide (name rule = n) then Some (t + length ops)
        else lastAdd n ops t acc
    | OpRemove _ => lastAdd n ops t acc
    end.
Proof.
  revert t acc. induction ops as [|o ops IH]; intros t acc; simpl.
  - destruct op as [rule|m]; simpl; [|reflexivity].
    rewrite Nat.add_0_r. now destruct (bool_decide _).
  - replace (t + S (length ops)) with (S t + length ops) by lia.
    destruct o as [rule'|m']; apply IH.
Qed.

Lemma regTime_snoc_add ops rule n :
  regTime (ops ++ [OpAdd rule]) n
  = if bool_decide (name rule = n)
    then Some (length defaultRules + length ops)
    else regTime ops n.
Proof. unfold regTime. now rewrite lastAdd_snoc. Qed.

Lemma regTime_snoc_remove ops m n :
  regTime (ops ++ [OpRemove m]) n = regTime ops n.
Proof. unfold regTime. now rewrite lastAdd_snoc. Qed.

Lemma noOverwriteFrom_snoc rules ops op :
  noOverwriteFrom rules (ops ++ [op])
  = noOverwriteFrom rules ops
    && match op with
       | OpAdd rule =>
           negb (includes (name <$> foldl applyOp rules ops) (name rule))
       | OpRemove _ => true
       end.
Proof.
  revert rules. induction ops as [|o ops IH]; intros rules; simpl.
  - now rewrite andb_true_r.
  - now rewrite IH, andb_assoc.
Qed.

Lemma defaults_strictly_ascending :
  StronglySorted (fun a b => (priorityOf a < priorityOf b)%Z)
                 initializeDefaultRules.
Proof.
  rewrite initializeDefaultRules_eq. unfold defaultRules.
  repeat (constructor; [|repeat (constructor; [reflexivity|]); constructor]).
  constructor.
Qed.

Lemma defaults_registered r :
  r ∈ initializeDefaultRules ->
  exists t, regTime [] (name r) = Some t /\ t < length defaultRules.
Proof.
  rewrite initializeDefaultRules_eq. intros H%list_elem_of_In.
  unfold defaultRules in H. simpl in H.
  repeat (destruct H as [<-|H]); try contradiction;
    (eexists; split; [reflexivity | simpl; lia]).
Qed.

(** While no [add] overwrites, every rule of the set has a registration
    time in the past, and rules of equal priority stand in the order of
    their registration. *)
Lemma registration_invariant ops :
  noOverwrite ops = true ->
  (forall r, r ∈ runOps ops ->
     exists t, regTime ops (name r) = Some t
               /\ t < length defaultRules + length ops)
  /\ (forall a b, before a b (runOps ops) -> priorityOf a = priorityOf b ->
        optLt (regTime ops (name a)) (regTime ops (name b))).
Proof.
  induction ops as [|op ops IH] using rev_ind; intros Hno.
  - split.
    + intros r Hr. destruct (defaults_registered r Hr) as (t & Ht & Hlt).
      exists t. split; [exact Ht|].
      change (length (@nil RuleOp)) with 0. lia.
    + intros a b Hb Heq. exfalso.
      pose proof (before_StronglySorted _ a b _ defaults_strictly_ascending Hb)
        as Hlt.
      cbv beta in Hlt. lia.
  - unfold noOverwrite in Hno. rewrite noOverwriteFrom_snoc in Hno.
    apply andb_true_iff in Hno as [Hno Hfresh].
    destruct (IH Hno) as [I1 I2]. clear IH.
    rewrite runOps_snoc, length_app. change (length [op]) with 1.
    destruct op as [rule|m]; simpl applyOp.
    + apply negb_true_iff in Hfresh. fold (runOps ops) in Hfresh.
      pose proof (findIndex_not_included _ _ Hfresh) as Hidx.
      assert (Hnew : forall r, r ∈ runOps ops -> name rule <> name r).
      { intros r Hr E. apply findIndex_None in Hidx. apply Hidx.
        rewrite E. now apply list_elem_of_fmap_2. }
      unfold add. rewrite Hidx. split.
      * intros r Hr. rewrite sortByPriority_perm in Hr.
        rewrite regTime_snoc_add.
        apply elem_of_app in Hr as [Hr|Hr%list_elem_of_singleton].
        -- rewrite bool_decide_eq_false_2 by now apply Hnew.
           destruct (I1 r Hr) as (t & Ht & Hlt). exists t. split; [done|lia].
        -- subst r. rewrite bool_decide_eq_true_2 by reflexivity.
           eexists. split; [reflexivity|lia].
      * intros a b Hb Heq. apply sortByPriority_stable in Hb; [|exact Heq].
        rewrite !regTime_snoc_add.
        apply before_snoc_inv in Hb as [Hb|[Ha ->]].
        -- assert (Ha : a ∈ runOps ops).
           { destruct Hb as (l1 & l2 & l3 & ->). set_solver. }
           assert (Hb' : b ∈ runOps ops).
           { destruct Hb as (l1 & l2 & l3 & ->). set_solver. }
           rewrite !bool_decide_eq_false_2 by now apply Hnew.
           now apply I2.
        -- rewrite bool_decide_eq_false_2 by now apply Hnew.
           rewrite bool_decide_eq_true_2 by reflexivity.
           destruct (I1 a Ha) as (t & -> & Hlt). unfold optLt. lia.
    + pose proof (remove_sublist m (runOps ops)) as Hsub. split.
      * intros r Hr. rewrite regTime_snoc_remove.
        destruct (I1 r (elem_of_sublist _ _ _ Hr Hsub)) as (t & Ht & Hlt).
        exists t. split; [done|lia].
      * intros a b Hb Heq. rewrite !regTime_snoc_remove.
        apply I2; [|exact Heq]. now apply (before_sublist a b _ _ Hsub).
Qed.

End Registration.

(** C5 (as stated, refuted): after an [add] that overwrites a rule, the
    failing rules of equal priority are not reported in registration
    order, whether a rule's registration is taken to be the latest [add]
    of its name or the [add] that first put the name into the set.  On
    the empty string the message of the overwritten custom rule comes
    before the message of the not-empty rule, which has the same
    priority and was registered before it. *)
Lemma overwrite_breaks_registration_order :
  executeRules [] (runOps overwritingHistory)
    = ["Field must start with CUSTOM_"; "Field cannot be empty";
       "Must start with capital letter";
       "Only letters, numbers, and underscore allowed";
       "Must be at least 3 characters"]
  /\ ~ tiesByRegistration regTime overwritingHistory
         (failing [] (runOps overwritingHistory))
  /\ ~ tiesByRegistration insertTime overwritingHistory
         (failing [] (runOps overwritingHistory)).
Proof.
  split; [reflexivity|]. split; intros H.
  - specialize (H 0 1 _ _ (Nat.lt_0_1) eq_refl eq_refl eq_refl).
    vm_compute in H. lia.
  - specialize (H 0 1 _ _ (Nat.lt_0_1) eq_refl eq_refl eq_refl).
    vm_compute in H. lia.
Qed.

(** C5 (amended): for every rule set reached from the defaults by [add]
    and [remove] operations and every value, [executeRules] returns
    exactly the messages of the rules whose predicate returns false, in
    the order of the rule set; these rules are in ascending priority
    order and no rule is reported twice (their names are distinct, also
    among rules of equal priority); and as long as no [add] of the
    history has overwritten a rule of the set, rules of equal priority
    are reported in registration order. *)
Theorem evaluate_failing_rules_in_priority_order :
  forall (ops : list RuleOp) (v : jsstring),
    executeRules v (runOps ops) = List.map message (failing v (runOps ops))
    /\ (forall r, r ∈ failing v (runOps ops)
                  <-> r ∈ runOps ops /\ check r v = false)
    /\ StronglySorted priorityLe (failing v (runOps ops))
    /\ NoDup (name <$> failing v (runOps ops))
    /\ (noOverwrite ops = true ->
        tiesByRegistration regTime ops (failing v (runOps ops))).
Proof.
  intros ops v. split; [apply executeRules_failing|].
  pose proof (filter_sublist (fun rule => negb (check rule v)) (runOps ops))
    as Hsub. fold (failing v (runOps ops)) in Hsub.
  split; [|split; [|split]].
  - intros r. unfold failing. rewrite !list_elem_of_In, filter_In.
    now rewrite negb_true_iff.
  - eapply StronglySorted_sublist; [exact Hsub | apply runOps_sorted].
  - apply (sublist_NoDup _ (name <$> runOps ops));
      [apply runOps_names_NoDup | now apply fmap_sublist].
  - intros Hno i j a b Hij Hi Hj Heq.
    apply (registration_invariant ops Hno); [|exact Heq].
    apply (before_sublist a b _ _ Hsub). now apply (lookup_before a b _ i j).
Qed.

Lemma evaluate_failing_rules_in_priority_order_witness :
  optLt (regTime freshHistory "min-length")
        (regTime freshHistory "custom-prefix").
Proof.
  destruct (evaluate_failing_rules_in_priority_order freshHistory (js "ab"))
    as (_ & _ & _ & _ & Hties).
  exact (Hties eq_refl 1 2 _ _ (Nat.lt_succ_diag_r 1) eq_refl eq_refl eq_refl).
Defined.

(** ** The field registry *)

Section InsertionOrder.
Implicit Types (fm : FieldManager.t).

Lemma insertByTime_perm fm e l : FieldManager.insertByTime fm e l ≡ₚ e :: l.
Proof.
  induction l as [|x l IH]; simpl; [reflexivity|].
  destruct (_ <=? _)%nat; [reflexivity|].
  rewrite IH. apply perm_swap.
Qed.

(** The entries visited are those of the map, each once. *)
Lemma entries_perm fm :
  FieldManager.entries fm ≡ₚ map_to_list (FieldManager.registeredFields fm).
Proof.
  unfold FieldManager.entries.
  induction (map_to_list (FieldManager.registeredFields fm)) as [|e l IH];
    simpl; [reflexivity|].
  now rewrite insertByTime_perm, IH.
Qed.

Lemma keys_perm fm :
  FieldManager.keys fm ≡ₚ (map_to_list (FieldManager.registeredFields fm)).*1.
Proof. unfold FieldManager.keys. now rewrite entries_perm. Qed.

Lemma values_perm fm :
  FieldManager.values fm
  ≡ₚ (map_to_list (FieldManager.registeredFields fm)).*2.
Proof. unfold FieldManager.values. now rewrite entries_perm. Qed.

Lemma entries_lookup fm id fieldData :
  (id, fieldData) ∈ FieldManager.entries fm
  <-> FieldManager.registeredFields fm !! id = Some fieldData.
Proof. rewrite entries_perm. apply elem_of_map_to_list. Qed.

End InsertionOrder.

Section FieldRegistry.
Variable config : ValidatorConfig.
Variable page : Dom.
Implicit Types (fm : FieldManager.t) (fs : list NodeRef) (ids : list string).

Local Abbreviation idsOf := (FieldManager.idsOf page).
Local Abbreviation registered fm := (dom (FieldManager.registeredFields fm)).

Lemma hasField_dom id fm :
  FieldManager.hasField id fm = true <-> id ∈ registered fm.
Proof.
  unfold FieldManager.hasField. rewrite bool_decide_eq_true.
  symmetry. apply elem_of_dom.
Qed.

Lemma idsOf_cons f fs : idsOf (f :: fs) = {[el_id (page f)]} ∪ idsOf fs.
Proof. reflexivity. Qed.

Lemma registerField_registered f fm :
  FieldManager.registeredFields (FieldManager.registerField config page f fm).1
  = <[el_id (page f) := FieldData.mk f None [] 0]>
      (FieldManager.registeredFields fm).
Proof.
  unfold FieldManager.registerField. now destruct (autoValidate config).
Qed.

(** One step of the scan adds the element's id to the ids seen and to
    the registered ids. *)
Lemma scanField_dom fm cur evs f :
  let r := FieldManager.scanField config page (fm, cur, evs) f in
  r.1.2 = {[el_id (page f)]} ∪ cur
  /\ registered r.1.1 = {[el_id (page f)]} ∪ registered fm.
Proof.
  unfold FieldManager.scanField.
  destruct (FieldManager.hasField _ fm) eqn:E; simpl.
  - apply hasField_dom in E. split; [reflexivity|].
    apply set_eq. intros x. rewrite elem_of_union, elem_of_singleton.
    split; [tauto|]. intros [->|H]; assumption.
  - pose proof (registerField_registered f fm) as Hreg.
    destruct (FieldManager.registerField config page f fm) as [fm1 ev1].
    simpl in *. rewrite Hreg. split; [reflexivity|]. apply dom_insert_L.
Qed.

Lemma scan_dom fs fm cur evs :
  let r := foldl (FieldManager.scanField config page) (fm, cur, evs) fs in
  r.1.2 = idsOf fs ∪ cur /\ registered r.1.1 = idsOf fs ∪ registered fm.
Proof.
  revert fm cur evs. induction fs as [|f fs IH]; intros fm cur evs.
  - simpl. unfold FieldManager.idsOf. simpl.
    now rewrite !(left_id_L ∅ (∪)).
  - cbn [foldl]. pose proof (scanField_dom fm cur evs f) as H1.
    destruct (FieldManager.scanField config page (fm, cur, evs) f)
      as [[fm1 cur1] evs1].
    cbn [fst snd] in H1. destruct H1 as [-> Hd1].
    destruct (IH fm1 ({[el_id (page f)]} ∪ cur) evs1) as [Hc2 Hd2].
    cbv zeta. rewrite Hc2, Hd2, Hd1, idsOf_cons.
    split; apply set_eq; intros x; rewrite !elem_of_union; tauto.
Qed.

(** A scan over elements that are all registered changes nothing. *)
Lemma scan_registered_noop fs fm cur evs :
  idsOf fs ⊆ registered fm ->
  foldl (FieldManager.scanField config page) (fm, cur, evs) fs
  = (fm, idsOf fs ∪ cur, evs).
Proof.
  revert cur. induction fs as [|f fs IH]; intros cur Hsub.
  - simpl. unfold FieldManager.idsOf. simpl. now rewrite (left_id_L ∅ (∪)).
  - rewrite idsOf_cons in *. cbn [foldl].
    assert (E : FieldManager.hasField (el_id (page f)) fm = true).
    { apply hasField_dom, Hsub, elem_of_union. left.
      now apply elem_of_singleton. }
    unfold FieldManager.scanField at 2. rewrite E. rewrite IH.
    + f_equal. f_equal. apply set_eq. intros x.
      rewrite !elem_of_union. tauto.
    + intros x Hx. apply Hsub, elem_of_union. now right.
Qed.

Lemma unregisterField_registered id fm :
  FieldManager.registeredFields (FieldManager.unregisterField id fm).1
  = delete id (FieldManager.registeredFields fm).
Proof.
  unfold FieldManager.unregisterField.
  destruct (FieldManager.registeredFields fm !! id) eqn:E; simpl.
  - now destruct (bool_decide _).
  - symmetry. now apply delete_id.
Qed.

Lemma unregisterAll_dom ids fm evs :
  registered
    (foldl (fun '(fm, evs) id =>
              let '(fm', ev) := FieldManager.unregisterField id fm in
              (fm', evs ++ ev))
           (fm, evs) ids).1
  = registered fm ∖ list_to_set ids.
Proof.
  revert fm evs. induction ids as [|id ids IH]; intros fm evs.
  - simpl. apply set_eq. intros x.
    rewrite elem_of_difference, elem_of_empty. tauto.
  - cbn [foldl]. pose proof (unregisterField_registered id fm) as Hreg.
    destruct (FieldManager.unregisterField id fm) as [fm1 ev1]. simpl in Hreg.
    rewrite IH, Hreg, dom_delete_L. apply set_eq. intros x.
    cbn [list_to_set foldr].
    rewrite !elem_of_difference, elem_of_union, elem_of_singleton. tauto.
Qed.

Lemma keys_dom fm id : id ∈ FieldManager.keys fm <-> id ∈ registered fm.
Proof.
  unfold FieldManager.keys. rewrite elem_of_dom, list_elem_of_fmap. split.
  - intros ([k x] & -> & Hx). apply entries_lookup in Hx. eauto.
  - intros [x Hx]. exists (id, x). split; [reflexivity|].
    now apply entries_lookup.
Qed.

Lemma filter_nil {A : Type} (f : A -> bool) (l : list A) :
  (forall x, x ∈ l -> f x = false) -> List.filter f l = [].
Proof.
  induction l as [|x l IH]; intros H; simpl; [reflexivity|].
  rewrite (H x) by (apply elem_of_cons; now left).
  apply IH. intros y Hy. apply H, elem_of_cons. now right.
Qed.

(** After a scan the registered ids are the ids the scan has seen. *)
Lemma scanAndRegister_dom container fm :
  registered (FieldManager.scanAndRegister config page container fm).1
  = idsOf (FieldManager.scannedFields page container).
Proof.
  unfold FieldManager.scanAndRegister.
  set (fs := FieldManager.scannedFields page container).
  pose proof (scan_dom fs fm ∅ []) as H. cbv zeta in H.
  destruct (foldl _ _ fs) as [[fm1 cur1] evs1]. cbn [fst snd] in H.
  destruct H as [-> Hd].
  set (toRemove := List.filter _ (FieldManager.keys fm1)).
  pose proof (unregisterAll_dom toRemove fm1 []) as Hu.
  unfold FieldManager.unregisterAll.
  destruct (foldl _ (fm1, []) toRemove) as [fm2 evs2]. cbn [fst] in *.
  rewrite Hu, Hd. apply set_eq. intros x. unfold toRemove.
  rewrite elem_of_difference, elem_of_list_to_set, list_elem_of_In, filter_In.
  rewrite <- list_elem_of_In, keys_dom, Hd, bool_decide_eq_true.
  rewrite !elem_of_union, elem_of_empty.
  destruct (decide (x ∈ idsOf fs)); tauto.
Qed.

(** A second scan of the same container in the same DOM does nothing:
    it returns the state it was given and no event. *)
Lemma scanAndRegister_twice container fm :
  let fm1 := (FieldManager.scanAndRegister config page container fm).1 in
  FieldManager.scanAndRegister config page container fm1 = (fm1, []).
Proof.
  intros fm1. pose proof (scanAndRegister_dom container fm) as Hd.
  fold fm1 in Hd. unfold FieldManager.scanAndRegister at 1.
  rewrite scan_registered_noop by (rewrite Hd; reflexivity).
  rewrite filter_nil.
  - reflexivity.
  - intros id Hid. apply keys_dom in Hid. rewrite Hd in Hid.
    apply bool_decide_eq_false. intros Hn. apply Hn.
    apply elem_of_union. now left.
Qed.

End FieldRegistry.

(** C6: reconciliation is idempotent.  For every registry state,
    configuration, DOM and container, a second [scanAndRegister] on the
    same container with the DOM unchanged performs no registration and
    no unregistration, and leaves the tracked fields (and the rest of
    the registry state) as the first call left them. *)
Theorem scanAndRegister_idempotent :
  forall (config : ValidatorConfig) (page : Dom) (container : list NodeRef)
         (fm : FieldManager.t),
    let first := FieldManager.scanAndRegister config page container fm in
    let second := FieldManager.scanAndRegister config page container first.1 in
    FieldManager.registrations second.2 = 0
    /\ FieldManager.unregistrations second.2 = 0
    /\ FieldManager.registeredFields second.1
       = FieldManager.registeredFields first.1
    /\ second.1 = first.1.
Proof.
  intros config page container fm first second. unfold second, first.
  rewrite scanAndRegister_twice. repeat split.
Qed.

(** C7: after a call of [hasFieldChanged] that returns true, a second
    call with the element's value unchanged returns false, because the
    first call has stored the value it has seen as the snapshot of that
    id. *)
Theorem hasFieldChanged_true_once :
  forall (page : Dom) (fieldId : string) (fm fm' : FieldManager.t),
    FieldManager.hasFieldChanged page fieldId fm = (fm', true) ->
    FieldManager.hasFieldChanged page fieldId fm' = (fm', false)
    /\ exists fieldData,
         FieldManager.registeredFields fm !! fieldId = Some fieldData
         /\ FieldManager.lastValues fm' !! fieldId
            = Some (el_value (page (FieldData.element fieldData))).
Proof.
  intros page fieldId fm fm'. unfold FieldManager.hasFieldChanged.
  destruct (FieldManager.registeredFields fm !! fieldId) as [fd|] eqn:E;
    [|discriminate].
  destruct (bool_decide _) eqn:B; [discriminate|].
  intros [= <-]. simpl. rewrite E, lookup_insert_eq. simpl.
  rewrite bool_decide_eq_true_2 by reflexivity.
  split; [reflexivity|]. exists fd. split; [reflexivity|].
  apply lookup_insert_eq.
Qed.

(** C9: [updateFieldData] on an id that is not registered returns the
    registry as it was: no error is raised and every field record is
    unchanged. *)
Theorem updateFieldData_unknown_id :
  forall (fieldId : string) (u : FieldData.updates) (fm : FieldManager.t),
    FieldManager.registeredFields fm !! fieldId = None ->
    FieldManager.updateFieldData fieldId u fm = fm
    /\ forall id,
         FieldManager.registeredFields
           (FieldManager.updateFieldData fieldId u fm) !! id
         = FieldManager.registeredFields fm !! id.
Proof.
  intros fieldId u fm H. unfold FieldManager.updateFieldData. now rewrite H.
Qed.

Lemma hasFieldChanged_true_once_witness :
  FieldManager.hasFieldChanged samplePage "ae_sf_account"
    (FieldManager.hasFieldChanged samplePage "ae_sf_account" sampleRegistry).1
  = ((FieldManager.hasFieldChanged samplePage "ae_sf_account"
        sampleRegistry).1, false).
Proof.
  apply (hasFieldChanged_true_once samplePage "ae_sf_account" sampleRegistry).
  reflexivity.
Defined.

Lemma updateFieldData_unknown_id_witness :
  FieldManager.updateFieldData "ae_sf_ghost"
    (FieldData.mkUpdates (Some (Some true)) (Some []) (Some 1000%Z))
    sampleRegistry
  = sampleRegistry.
Proof.
  apply (updateFieldData_unknown_id "ae_sf_ghost"). reflexivity.
Defined.

(** ** The container detector *)

Section Detector.
Variable config : ValidatorConfig.
Implicit Types (d : ContainerDetector.t) (doc : Document).

Import ContainerDetector.

Lemma setProcessDesignerState_spec state d :
  contextNotifications (setProcessDesignerState state d).2
  = (if bool_decide (isProcessDesigner d = state) then [] else [state])
  /\ isProcessDesigner (setProcessDesignerState state d).1 = state
  /\ activeContainer (setProcessDesignerState state d).1 = activeContainer d.
Proof.
  unfold setProcessDesignerState. case_bool_decide; simpl; auto.
Qed.

Lemma detectContext_spec live d :
  contextNotifications (detectContext config live d).2
  = (if bool_decide (classification config live = isProcessDesigner d)
     then [] else [classification config live])
  /\ isProcessDesigner (detectContext config live d).1
     = classification config live
  /\ activeContainer (detectContext config live d).1 = activeContainer d.
Proof.
  unfold detectContext. destruct live as [container|]; simpl.
  - case_bool_decide as E.
    + simpl. auto.
    + destruct (setProcessDesignerState_spec
                  (minFieldsForProcess config <=? fieldCount container)%Z d)
        as (-> & -> & ->).
      rewrite bool_decide_eq_false_2 by congruence. auto.
  - destruct (setProcessDesignerState_spec false d) as (-> & -> & ->).
    repeat case_bool_decide; try congruence; auto.
Qed.

Lemma contextNotifications_app evs evs' :
  contextNotifications (evs ++ evs')
  = contextNotifications evs ++ contextNotifications evs'.
Proof. apply omap_app. Qed.

Lemma setActiveContainer_spec container d :
  contextNotifications (setActiveContainer config container d).2
  = (if bool_decide (activeContainer d = div_node <$> container) then []
     else if bool_decide (classification config container
                          = isProcessDesigner d)
          then [] else [classification config container])
  /\ isProcessDesigner (setActiveContainer config container d).1
     = (if bool_decide (activeContainer d = div_node <$> container)
        then isProcessDesigner d else classification config container)
  /\ activeContainer (setActiveContainer config container d).1
     = div_node <$> container.
Proof.
  unfold setActiveContainer. case_bool_decide as E; simpl; [auto|].
  set (d1 := mk _ _ _ _ _ _).
  destruct (detectContext_spec container d1) as (H1 & H2 & H3).
  destruct (detectContext config container d1) as [d2 evs]. simpl in *.
  rewrite contextNotifications_app, H1, H2, H3. simpl.
  now rewrite app_nil_r.
Qed.

(** What one scan notifies about the context, and the flag it leaves. *)
Lemma updateActiveContainer_spec now doc d :
  let r := updateActiveContainer config now doc d in
  let target := scanTarget doc in
  let fresh :=
    negb (rateLimited now d)
    && negb (bool_decide (activeContainer d = div_node <$> target)) in
  contextNotifications r.2
  = (if fresh && negb (bool_decide (classification config target
                                    = isProcessDesigner d))
     then [classification config target] else [])
  /\ isProcessDesigner r.1
     = (if fresh then classification config target else isProcessDesigner d).
Proof.
  unfold updateActiveContainer, rateLimited.
  destruct (now - lastScanTime d <? minScanInterval d)%Z; simpl; [auto|].
  destruct doc as [divs|]; simpl.
  - destruct (firstVisible divs) as [div|] eqn:F; simpl.
    + case_bool_decide as E; simpl; [auto|].
      destruct (setActiveContainer_spec (Some div) d) as (H1 & H2 & _).
      rewrite H1, H2. clear H1 H2. simpl.
      rewrite !bool_decide_eq_false_2 by exact E.
      simpl. destruct (bool_decide _); simpl; auto.
    + destruct (setActiveContainer_spec None (setRetryCount 0 d))
        as (H1 & H2 & _).
      rewrite H1, H2. clear H1 H2. simpl.
      repeat (destruct (bool_decide _); simpl; auto).
  - set (d1 := if (retryCount d <? maxRetries d)%Z then _ else _).
    assert (Hd1 : activeContainer d1.1 = activeContainer d
                  /\ isProcessDesigner d1.1 = isProcessDesigner d
                  /\ contextNotifications d1.2 = []).
    { unfold d1. now destruct (retryCount d <? maxRetries d)%Z. }
    destruct d1 as [d1 ev1]. simpl in Hd1. destruct Hd1 as (Ha & Hp & He).
    destruct (setActiveContainer_spec None d1) as (H1 & H2 & _).
    destruct (setActiveContainer config None d1) as [d2 ev2]. simpl in *.
    rewrite contextNotifications_app, He, H1, H2, Ha, Hp. clear H1 H2. simpl.
    repeat (destruct (bool_decide _); simpl; auto).
Qed.

Lemma runScans_acc scans d evs :
  foldl (fun '(d, evs) '(now, doc) =>
           let '(d', ev) := updateActiveContainer config now doc d in
           (d', evs ++ ev))
        (d, evs) scans
  = ((runScans config scans d).1, evs ++ (runScans config scans d).2).
Proof.
  unfold runScans. revert d evs.
  induction scans as [|[now doc] scans IH]; intros d evs; simpl.
  - now rewrite app_nil_r.
  - destruct (updateActiveContainer config now doc d) as [d' ev].
    rewrite (IH d' (evs ++ ev)), (IH d' ev). simpl.
    now rewrite app_assoc.
Qed.

Lemma runScans_cons now doc scans d :
  runScans config ((now, doc) :: scans) d
  = let r := updateActiveContainer config now doc d in
    ((runScans config scans r.1).1, r.2 ++ (runScans config scans r.1).2).
Proof.
  unfold runScans at 1. simpl.
  destruct (updateActiveContainer config now doc d) as [d' ev].
  apply runScans_acc.
Qed.

Lemma alternating_scans scans d :
  alternating (isProcessDesigner d)
              (contextNotifications (runScans config scans d).2).
Proof.
  revert d. induction scans as [|[now doc] scans IH]; intros d.
  - exact I.
  - rewrite runScans_cons. cbv zeta. cbn [snd].
    rewrite contextNotifications_app.
    destruct (updateActiveContainer_spec now doc d) as [H1 H2].
    cbv zeta in H1, H2. rewrite H1. specialize (IH (updateActiveContainer config now doc d).1).
    rewrite H2 in IH.
    destruct (negb (rateLimited now d) && _); simpl in *; [|exact IH].
    case_bool_decide as E; simpl; [now rewrite <- E|].
    split; [|exact IH].
    destruct (classification config (scanTarget doc)),
             (isProcessDesigner d); simpl; congruence.
Qed.

End Detector.

(** C4 (as stated, refuted): the active container is first scanned with
    two fields, below the threshold of five, and then, in a later scan
    that is not rate-limited, with six; the crossing is not notified:
    the two scans emit no context-changed notification and the flag
    stays false. *)
Lemma crossing_in_place_not_notified :
  let first :=
    ContainerDetector.updateActiveContainer DEFAULT_CONFIG 1000
      (Some [divBelow]) ContainerDetector.initial in
  let second :=
    ContainerDetector.updateActiveContainer DEFAULT_CONFIG 3000
      (Some [divAbove]) first.1 in
  ContainerDetector.activeContainer first.1 = Some 7
  /\ (ContainerDetector.fieldCount divBelow
      < minFieldsForProcess DEFAULT_CONFIG)%Z
  /\ ContainerDetector.activeContainer second.1 = Some 7
  /\ (minFieldsForProcess DEFAULT_CONFIG
      <= ContainerDetector.fieldCount divAbove)%Z
  /\ ContainerDetector.rateLimited 3000 first.1 = false
  /\ ContainerDetector.contextNotifications (first.2 ++ second.2) <> [true]
  /\ ContainerDetector.contextNotifications second.2 = []
  /\ ContainerDetector.isProcessDesigner second.1 = false.
Proof. vm_compute. repeat split; congruence. Qed.

(** C4 (amended): a scan notifies a context change only when it changes
    the active container.  A scan that is not rate-limited and settles
    on a container other than the active one (by identity, no container
    counting as one) emits exactly one context-changed notification,
    carrying the new classification, when the classification of the new
    container (field count at or above the threshold; false for no
    container) differs from the stored flag, and none when it is the
    same; a scan that is rate-limited or finds the active container
    again emits none and keeps the flag, whatever the field count has
    become.  Over any sequence of scans the notified values alternate,
    starting with the negation of the initial flag. *)
Theorem context_change_notified_on_container_change :
  forall (config : ValidatorConfig) (now : Z) (doc : Document)
         (d : ContainerDetector.t),
    let r := ContainerDetector.updateActiveContainer config now doc d in
    let target := ContainerDetector.scanTarget doc in
    let fresh :=
      negb (ContainerDetector.rateLimited now d)
      && negb (bool_decide (ContainerDetector.activeContainer d
                            = div_node <$> target)) in
    ContainerDetector.contextNotifications r.2
    = (if fresh
          && negb (bool_decide
                     (ContainerDetector.classification config target
                      = ContainerDetector.isProcessDesigner d))
       then [ContainerDetector.classification config target] else [])
    /\ ContainerDetector.isProcessDesigner r.1
       = (if fresh then ContainerDetector.classification config target
          else ContainerDetector.isProcessDesigner d)
    /\ forall scans,
         ContainerDetector.alternating (ContainerDetector.isProcessDesigner d)
           (ContainerDetector.contextNotifications
              (ContainerDetector.runScans config scans d).2).
Proof.
  intros config now doc d.
  destruct (updateActiveContainer_spec config now doc d) as [H1 H2].
  split; [exact H1|]. split; [exact H2|].
  intros scans. apply alternating_scans.
Qed.

(** ** The batch run *)

Section Batches.
Variable engineConfig : ValidatorEngineConfig.
Variable rules : list ValidationRule.
Variable now : Z.
Variable page : Dom.
Implicit Types (o : ValidationOrchestrator.t) (fields : list FieldData.t).

Import ValidationOrchestrator.

Local Abbreviation validateAt := (validateAt engineConfig rules now page).
Local Abbreviation validateBatch := (validateBatch engineConfig rules now page).
Local Abbreviation runFrames := (runFrames engineConfig rules now page).
Local Abbreviation passed := (passed engineConfig rules now page).
Local Abbreviation failed := (failed engineConfig rules now page).

Lemma passed_app fields fields' :
  passed (fields ++ fields') = (passed fields + passed fields')%Z.
Proof.
  unfold ValidationOrchestrator.passed.
  rewrite List.filter_app, length_app. lia.
Qed.

Lemma failed_app fields fields' :
  failed (fields ++ fields') = (failed fields + failed fields')%Z.
Proof.
  unfold ValidationOrchestrator.failed.
  rewrite List.filter_app, length_app. lia.
Qed.

(** The counters after the loop of one batch: the failures are added to
    [validFields] and the passes to [invalidFields]. *)
Lemma validateAt_range fields o updates start len :
  start + len <= length fields ->
  let r := foldl (validateAt fields) (o, updates) (seq start len) in
  totalFields (stats r.1) = totalFields (stats o)
  /\ validFields (stats r.1)
     = (validFields (stats o) + failed (take len (drop start fields)))%Z
  /\ invalidFields (stats r.1)
     = (invalidFields (stats o) + passed (take len (drop start fields)))%Z
  /\ lastValidated (stats r.1) = lastValidated (stats o).
Proof.
  induction len as [|len IH]; intros Hlen.
  - simpl. unfold ValidationOrchestrator.failed, ValidationOrchestrator.passed.
    simpl. repeat split; first [lia | reflexivity].
  - rewrite seq_S, foldl_app. cbn [foldl]. cbv zeta.
    destruct IH as (Ht & Hv & Hi & Hl); [lia|].
    destruct (foldl (validateAt fields) (o, updates) (seq start len))
      as [o1 updates1]. cbn [fst] in *.
    destruct (lookup_lt_is_Some_2 fields (start + len)) as [fd Hfd]; [lia|].
    assert (Htake : take (S len) (drop start fields)
                    = take len (drop start fields) ++ [fd]).
    { apply take_S_r. now rewrite lookup_drop. }
    rewrite Htake, failed_app, passed_app.
    unfold ValidationOrchestrator.validateAt. rewrite Hfd.
    unfold ValidationOrchestrator.failed, ValidationOrchestrator.passed in *.
    cbn [List.filter].
    destruct (isValid (validateElement engineConfig rules now page
                         (FieldData.element fd)));
      cbn [negb fst stats StatsManager.incrementValid
           StatsManager.incrementInvalid totalFields validFields
           invalidFields lastValidated length];
      repeat split; first [lia | exact Hl].
Qed.

(** The chain of frames ends, and at its end the counters are those of
    all the fields from the first index of the batch it started at. *)
Lemma runFrames_counters frames fields k o :
  k * batchSize <= length fields ->
  length fields - k * batchSize < frames * batchSize ->
  exists o' evs,
    runFrames frames fields k o = Some (o', evs)
    /\ totalFields (stats o') = totalFields (stats o)
    /\ validFields (stats o')
       = (validFields (stats o) + failed (drop (k * batchSize) fields))%Z
    /\ invalidFields (stats o')
       = (invalidFields (stats o) + passed (drop (k * batchSize) fields))%Z
    /\ lastValidated (stats o') = Some now.
Proof.
  revert k o. induction frames as [|frames IH]; intros k o Hk Hfuel.
  - simpl in Hfuel. lia.
  - cbn [ValidationOrchestrator.runFrames].
    unfold ValidationOrchestrator.validateBatch.
    set (start := k * batchSize) in *.
    set (end_ := Nat.min (start + batchSize) (length fields)).
    assert (Hend : start + (end_ - start) <= length fields)
      by (unfold end_; lia).
    pose proof (validateAt_range fields o [] start (end_ - start) Hend) as H.
    cbv zeta in H.
    destruct (foldl (validateAt fields) (o, []) (seq start (end_ - start)))
      as [o1 updates]. cbn [fst] in H. destruct H as (Ht & Hv & Hi & Hl).
    destruct (end_ <? length fields)%nat eqn:E.
    + apply Nat.ltb_lt in E.
      assert (Hfull : end_ - start = batchSize) by (unfold end_ in *; lia).
      destruct (IH (S k) o1) as (o' & evs & Hrun & Ht' & Hv' & Hi' & Hl').
      * unfold end_ in E. change (S k * batchSize) with (batchSize + start).
        lia.
      * change (S k * batchSize) with (batchSize + start).
        change (S frames * batchSize) with (batchSize + frames * batchSize)
          in Hfuel. unfold end_ in E. lia.
      * rewrite Hrun. eexists _, _. split; [reflexivity|].
        rewrite Ht', Hv', Hi', Ht, Hv, Hi, Hfull.
        change (S k * batchSize) with (batchSize + start).
        assert (Hsplit : drop start fields
                         = take batchSize (drop start fields)
                           ++ drop (batchSize + start) fields).
        { rewrite <- (take_drop batchSize (drop start fields)) at 1.
          rewrite drop_drop. do 2 f_equal. lia. }
        pose proof (failed_app (take batchSize (drop start fields))
                               (drop (batchSize + start) fields)) as Hf.
        pose proof (passed_app (take batchSize (drop start fields))
                               (drop (batchSize + start) fields)) as Hp.
        rewrite <- Hsplit in Hf, Hp.
        repeat split; [lia | lia | exact Hl'].
    + apply Nat.ltb_ge in E.
      assert (Hall : take (end_ - start) (drop start fields)
                     = drop start fields).
      { apply take_ge. rewrite length_drop. unfold end_ in *. lia. }
      rewrite Hall in Hv, Hi.
      eexists _, _. split; [reflexivity|]. simpl. auto.
Qed.

(** [runFullValidation] always returns; with tracked fields, it leaves
    the number of fields in [totalFields], the number of fields that
    failed in [validFields] and the number that passed in
    [invalidFields]. *)
Lemma runFullValidation_counters o :
  let fields := FieldManager.values (fieldManager o) in
  fields <> [] ->
  exists o' evs,
    runFullValidation engineConfig rules now page o = Some (o', evs)
    /\ totalFields (stats o') = Z.of_nat (length fields)
    /\ validFields (stats o') = failed fields
    /\ invalidFields (stats o') = passed fields.
Proof.
  intros fields Hne. unfold runFullValidation.
  change ((FieldManager.getAllFields (fieldManager o)).*2) with fields.
  destruct fields as [|fd fields'] eqn:Ef; [contradiction|].
  rewrite <- Ef. replace (length fields =? 0)%nat with false
    by (rewrite Ef; reflexivity).
  unfold validateInBatches.
  destruct (runFrames_counters (S (length fields)) fields 0
              (mk (fieldManager o)
                  (StatsManager.setTotal (Z.of_nat (length fields))
                                         StatsManager.reset)))
    as (o' & evs & Hrun & Ht & Hv & Hi & _).
  - simpl. lia.
  - unfold batchSize. lia.
  - exists o', evs. split; [exact Hrun|]. simpl in *. rewrite Ht, Hv, Hi.
    repeat split; lia.
Qed.

End Batches.

(** C1 (defect of the code): with one tracked field whose value,
    ["Account_ID_123"], passes validation, [runFullValidation] completes
    and records the field as valid, so that one recorded outcome is a
    pass and none is a failure; but the statistics it leaves say no
    valid field and one invalid field.  [validateSingleField], on the
    same field, counts it as valid. *)
Theorem runFullValidation_counts_pass_as_invalid :
  exists o' evs,
    ValidationOrchestrator.runFullValidation ValidatorEngine.defaultConfig
      initializeDefaultRules 1000 samplePage sampleOrchestrator
    = Some (o', evs)
    /\ FieldData.isValid
         <$> FieldManager.registeredFields
               (ValidationOrchestrator.fieldManager o') !! "ae_sf_account"
       = Some (Some true)
    /\ ValidationOrchestrator.recordedValid o' = 1%Z
    /\ ValidationOrchestrator.recordedInvalid o' = 0%Z
    /\ totalFields (ValidationOrchestrator.stats o') = 1%Z
    /\ validFields (ValidationOrchestrator.stats o') = 0%Z
    /\ invalidFields (ValidationOrchestrator.stats o') = 1%Z
    /\ validFields
         (ValidationOrchestrator.stats
            (ValidationOrchestrator.validateSingleField
               ValidatorEngine.defaultConfig initializeDefaultRules 1000
               samplePage 0 false sampleOrchestrator).1.1) = 1%Z.
Proof. eexists _, _. split; [vm_compute; reflexivity|]. vm_compute. auto 10. Qed.

(** ** Sample runs *)

Example account_id_passes :
  executeRules (js "Account_ID_123") initializeDefaultRules = [].
Proof. reflexivity. Qed.

Example trim_keeps_inner_space : trim (js "  My Field ") = js "My Field".
Proof. reflexivity. Qed.

Example inner_space_is_reported :
  errors (ValidatorEngine.validate ValidatorEngine.defaultConfig
            initializeDefaultRules 0 (js " My Field "))
  = ["No spaces allowed"; "Only letters, numbers, and underscore allowed"].
Proof. reflexivity. Qed.

Example custom_rule_goes_last :
  List.map name (runOps [OpAdd (customPrefix 10)])
  = ["not-empty"; "starts-with-capital"; "no-spaces";
     "alphanumeric-underscore"; "min-length"; "max-length";
     "no-trailing-underscore"; "no-consecutive-underscores";
     "no-leading-number"; "custom-prefix"].
Proof. reflexivity. Qed.

Example remove_reports_found :
  (remove "min-length" initializeDefaultRules).1 = true
  /\ (remove "min-width" initializeDefaultRules).1 = false.
Proof. split; reflexivity. Qed.

(** A scan of a container holding both sample elements registers the
    one that is not tracked yet; a scan of a container that holds only
    the second one also unregisters the first. *)
Example scan_registers_and_unregisters :
  let both := FieldManager.scanAndRegister DEFAULT_CONFIG samplePage [0; 1; 2]
                                           sampleRegistry in
  let second := FieldManager.scanAndRegister DEFAULT_CONFIG samplePage [1; 2]
                                             sampleRegistry in
  FieldManager.registrations both.2 = 1
  /\ FieldManager.unregistrations both.2 = 0
  /\ FieldManager.getFieldCount both.1 = 2
  /\ FieldManager.registrations second.2 = 1
  /\ FieldManager.unregistrations second.2 = 1
  /\ FieldManager.keys second.1 = ["ae_sf_count"].
Proof. vm_compute. repeat split. Qed.

(** Fields are visited in the order in which they were registered,
    here the second sample element before the first. *)
Example fields_are_visited_in_registration_order :
  let fm := (FieldManager.scanAndRegister DEFAULT_CONFIG samplePage [1; 0]
                                          (FieldManager.initial true)).1 in
  FieldManager.keys fm = ["ae_sf_count"; "ae_sf_account"]
  /\ FieldData.element <$> FieldManager.values fm = [1; 0].
Proof. vm_compute. split; reflexivity. Qed.

Example value_change_seen_once :
  let first := FieldManager.hasFieldChanged samplePage "ae_sf_account"
                                            sampleRegistry in
  let second := FieldManager.hasFieldChanged samplePage "ae_sf_account"
                                             first.1 in
  first.2 = true /\ second.2 = false.
Proof. vm_compute. split; reflexivity. Qed.

(** With no tracked field the run only shows the notice and leaves the
    statistics alone. *)
Example nothing_to_validate :
  let o := ValidationOrchestrator.mk (FieldManager.initial true)
                                     (mkStats 4 3 1 (Some 50%Z)) in
  ValidationOrchestrator.runFullValidation ValidatorEngine.defaultConfig
    initializeDefaultRules 1000 samplePage o
  = Some (o, [Toast "No fields found to validate" "warning" 3000]).
Proof. reflexivity. Qed.

(** A first scan that finds a container with six fields notifies the
    context and then the container; a scan without a section schedules
    a retry and notifies both changes back. *)
Example detector_enters_and_leaves :
  let entered :=
    ContainerDetector.updateActiveContainer DEFAULT_CONFIG 1000
      (Some [divAbove]) ContainerDetector.initial in
  let left :=
    ContainerDetector.updateActiveContainer DEFAULT_CONFIG 3000 None
      entered.1 in
  entered.2 = [ContextChanged true; ContainerChanged (Some 7)]
  /\ left.2 = [RetryScheduled; ContextChanged false; ContainerChanged None].
Proof. vm_compute. split; reflexivity. Qed.

(** * Further properties *)

(** ** Lookup, insertion and removal of rules *)

Section RegistryLookup.
Implicit Types (r x : ValidationRule) (l rules : list ValidationRule)
               (n : string).

(** The rules whose name is not [n]. *)
Local Abbreviation without n l :=
  (List.filter (fun x => negb (bool_decide (name x = n))) l).

Lemma filter_all {A : Type} (f : A -> bool) (k : list A) :
  (forall a, a ∈ k -> f a = true) -> List.filter f k = k.
Proof.
  induction k as [|a k IH]; intros H; simpl; [reflexivity|].
  rewrite (H a) by (apply elem_of_cons; now left).
  f_equal. apply IH. intros b Hb. apply H, elem_of_cons. now right.
Qed.

Lemma without_absent n l : n ∉ name <$> l -> without n l = l.
Proof.
  intros H. apply filter_all. intros x Hx. apply negb_true_iff.
  apply bool_decide_eq_false. intros <-. apply H.
  now apply list_elem_of_fmap_2.
Qed.

Lemma name_inj_NoDup l x r :
  NoDup (name <$> l) -> x ∈ l -> r ∈ l -> name x = name r -> x = r.
Proof.
  intros Hnd (i & Hi)%list_elem_of_lookup_1 (j & Hj)%list_elem_of_lookup_1 E.
  assert (i = j) as ->.
  { apply (NoDup_lookup (name <$> l) i j (name x)); [exact Hnd| |].
    - now rewrite list_lookup_fmap, Hi.
    - now rewrite list_lookup_fmap, Hj, E. }
  congruence.
Qed.

(** With distinct names, [get] finds a rule of the set by its name. *)
Lemma get_member l r :
  NoDup (name <$> l) -> r ∈ l -> get (name r) l = Some r.
Proof.
  intros Hnd Hr. unfold get.
  destruct (list_find _ l) as [[i x]|] eqn:E; simpl.
  - apply list_find_Some in E as (Hi & Hn & _). f_equal.
    apply (name_inj_NoDup l); [exact Hnd| |exact Hr|exact Hn].
    now apply list_elem_of_lookup_2 in Hi.
  - apply list_find_None in E. rewrite Forall_forall in E.
    now destruct (E r Hr).
Qed.

Lemma get_absent l n : n ∉ name <$> l -> get n l = None.
Proof.
  intros H. unfold get.
  destruct (list_find _ l) as [[i x]|] eqn:E; simpl; [|reflexivity].
  apply list_find_Some in E as (Hi & Hn & _). exfalso. apply H.
  rewrite <- Hn. apply list_elem_of_fmap_2.
  now apply list_elem_of_lookup_2 in Hi.
Qed.

Lemma insert_without l i x r :
  NoDup (name <$> l) -> l !! i = Some x ->
  <[i := r]> l ≡ₚ r :: without (name x) l.
Proof.
  revert i. induction l as [|y l IH]; intros i Hnd Hi; [discriminate|].
  rewrite fmap_cons in Hnd. apply NoDup_cons in Hnd as [Hy Hnd].
  destruct i as [|i]; simpl in *.
  - injection Hi as ->. rewrite bool_decide_eq_true_2 by reflexivity. simpl.
    now rewrite without_absent.
  - assert (name y <> name x).
    { intros E. apply Hy. rewrite E. apply list_elem_of_fmap_2.
      now apply list_elem_of_lookup_2 in Hi. }
    rewrite bool_decide_eq_false_2 by assumption. simpl.
    rewrite (IH i Hnd Hi). apply Permutation_swap.
Qed.

Lemma delete_without l i x :
  NoDup (name <$> l) -> l !! i = Some x -> delete i l = without (name x) l.
Proof.
  revert i. induction l as [|y l IH]; intros i Hnd Hi; [discriminate|].
  rewrite fmap_cons in Hnd. apply NoDup_cons in Hnd as [Hy Hnd].
  destruct i as [|i]; simpl in *.
  - injection Hi as ->. rewrite bool_decide_eq_true_2 by reflexivity. simpl.
    now rewrite without_absent.
  - assert (name y <> name x).
    { intros E. apply Hy. rewrite E. apply list_elem_of_fmap_2.
      now apply list_elem_of_lookup_2 in Hi. }
    rewrite bool_decide_eq_false_2 by assumption. simpl.
    f_equal. now apply IH.
Qed.

Lemma includes_names l n :
  includes (name <$> l) n = true <-> n ∈ name <$> l.
Proof. unfold includes. apply bool_decide_eq_true. Qed.

Lemma add_perm rule l :
  NoDup (name <$> l) -> add rule l ≡ₚ rule :: without (name rule) l.
Proof.
  intros Hnd. unfold add. rewrite sortByPriority_perm.
  destruct (findIndex (name rule) l) as [i|] eqn:E.
  - apply findIndex_Some in E as (x & Hx & <-). now apply insert_without.
  - apply findIndex_None in E. rewrite without_absent by exact E.
    now rewrite Permutation_app_comm.
Qed.

Lemma remove_without n l :
  NoDup (name <$> l) ->
  remove n l = (includes (name <$> l) n, without n l).
Proof.
  intros Hnd. unfold remove.
  destruct (findIndex n l) as [i|] eqn:E.
  - apply findIndex_Some in E as (x & Hx & <-).
    rewrite (delete_without l i x Hnd Hx). f_equal. symmetry.
    apply includes_names, list_elem_of_fmap_2.
    now apply list_elem_of_lookup_2 in Hx.
  - apply findIndex_None in E. rewrite without_absent by exact E.
    f_equal. symmetry. unfold includes. now apply bool_decide_eq_false.
Qed.

Lemma without_names n l : n ∉ name <$> without n l.
Proof.
  intros (x & -> & Hx)%list_elem_of_fmap.
  apply list_elem_of_In, filter_In in Hx as [_ Hx].
  apply negb_true_iff, bool_decide_eq_false in Hx. now apply Hx.
Qed.

Lemma without_length n l : length (without n l) <= length l.
Proof. apply sublist_length, filter_sublist. Qed.

End RegistryLookup.

(** X1: in a rule set reached from the defaults, [get] returns the rule
    that [add] has just put in, under the name of that rule. *)
Theorem get_after_add :
  forall (ops : list RuleOp) (rule : ValidationRule),
    get (name rule) (runOps (ops ++ [OpAdd rule])) = Some rule.
Proof.
  intros ops rule. apply get_member; [apply runOps_names_NoDup|].
  rewrite runOps_snoc. simpl.
  rewrite (add_perm rule (runOps ops) (runOps_names_NoDup ops)).
  apply elem_of_cons. now left.
Qed.

(** X2: [add] inserts or overwrites: the new rule set holds the added
    rule and the former rules of other names, and nothing else; its
    length is the former one when the name was in the set and one more
    when it was not. *)
Theorem add_inserts_or_overwrites :
  forall (ops : list RuleOp) (rule : ValidationRule),
    let rules := runOps ops in
    add rule rules
    ≡ₚ rule :: List.filter
                 (fun x => negb (bool_decide (name x = name rule))) rules
    /\ length (add rule rules)
       = (if includes (name <$> rules) (name rule)
          then length rules else S (length rules)).
Proof.
  intros ops rule rules. split.
  - apply add_perm, runOps_names_NoDup.
  - unfold add. rewrite (Permutation_length (sortByPriority_perm _)).
    destruct (findIndex (name rule) rules) as [i|] eqn:E.
    + apply findIndex_Some in E as (x & Hx & Hn).
      rewrite length_insert.
      replace (includes (name <$> rules) (name rule)) with true; [done|].
      symmetry. apply includes_names. rewrite <- Hn.
      apply list_elem_of_fmap_2. now apply list_elem_of_lookup_2 in Hx.
    + apply findIndex_None in E. rewrite length_app. simpl.
      replace (includes (name <$> rules) (name rule)) with false; [lia|].
      symmetry. unfold includes. now apply bool_decide_eq_false.
Qed.

(** X3: [remove] on a rule set reached from the defaults returns
    whether a rule of that name was in the set, and leaves the other
    rules, in their order; afterwards [get] finds no rule of that
    name. *)
Theorem remove_deletes_by_name :
  forall (ops : list RuleOp) (n : string),
    let rules := runOps ops in
    remove n rules
    = (includes (name <$> rules) n,
       List.filter (fun x => negb (bool_decide (name x = n))) rules)
    /\ get n (runOps (ops ++ [OpRemove n])) = None.
Proof.
  intros ops n rules.
  pose proof (remove_without n rules (runOps_names_NoDup ops)) as H.
  split; [exact H|]. rewrite runOps_snoc. simpl. fold rules. rewrite H.
  apply get_absent, without_names.
Qed.

(** X4: after any history of [add] and [remove], [getAll] is in
    ascending priority order, and so is [getExcluding], which holds
    exactly the rules of the set whose name is not excluded. *)
Theorem rules_in_priority_order :
  forall (ops : list RuleOp) (excludedNames : list string),
    StronglySorted priorityLe (getAll (runOps ops))
    /\ StronglySorted priorityLe (getExcluding excludedNames (runOps ops))
    /\ forall rule,
         rule ∈ getExcluding excludedNames (runOps ops)
         <-> rule ∈ runOps ops /\ name rule ∉ excludedNames.
Proof.
  intros ops excludedNames. split; [apply runOps_sorted|]. split.
  - eapply StronglySorted_sublist; [apply filter_sublist|apply runOps_sorted].
  - intros rule. unfold getExcluding, includes.
    rewrite list_elem_of_In, filter_In, negb_true_iff, bool_decide_eq_false.
    now rewrite <- list_elem_of_In.
Qed.

(** ** The engine on one field and on a batch *)

Section EngineMore.

Lemma filter_filter_implied {A : Type} (f g : A -> bool) (k : list A) :
  (forall a, a ∈ k -> f a = true -> g a = true) ->
  List.filter f (List.filter g k) = List.filter f k.
Proof.
  induction k as [|a k IH]; intros H; simpl; [reflexivity|].
  assert (IH' : List.filter f (List.filter g k) = List.filter f k).
  { apply IH. intros b Hb. apply H, elem_of_cons. now right. }
  destruct (g a) eqn:G; simpl.
  - destruct (f a); now rewrite IH'.
  - destruct (f a) eqn:F; [|exact IH'].
    rewrite (H a) in G; [discriminate| |exact F].
    apply elem_of_cons. now left.
Qed.

Lemma failing_member value rules r :
  r ∈ failing value rules <-> r ∈ rules /\ check r value = false.
Proof.
  unfold failing. rewrite list_elem_of_In, filter_In, negb_true_iff.
  now rewrite <- list_elem_of_In.
Qed.

Lemma length_eqb_nil {A : Type} (k : list A) :
  (length k =? 0)%nat = true <-> k = [].
Proof.
  destruct k; simpl; split; intros H; try reflexivity; discriminate.
Qed.

(** Leaving out rules that do not throw does not change whether the
    loop throws. *)
Lemma throwsOn_getExcluding value names rules :
  (forall rule, rule ∈ rules -> includes names (name rule) = true ->
                throws rule value = false) ->
  throwsOn value (getExcluding names rules) = throwsOn value rules.
Proof.
  unfold throwsOn, getExcluding.
  induction rules as [|r rules IH]; intros H; [reflexivity|].
  assert (IH' : existsb (fun rule => throws rule value)
                  (List.filter
                     (fun rule => negb (includes names (name rule))) rules)
                = existsb (fun rule => throws rule value) rules).
  { apply IH. intros rule Hr. apply H, elem_of_cons. now right. }
  cbn [List.filter existsb].
  destruct (includes names (name r)) eqn:E; simpl.
  - rewrite (H r) by (try apply elem_of_cons; auto). exact IH'.
  - now rewrite IH'.
Qed.

Lemma throwsOn_true value rules :
  throwsOn value rules = true
  <-> exists rule, rule ∈ rules /\ throws rule value = true.
Proof.
  unfold throwsOn. rewrite existsb_exists.
  split; intros (r & Hr & Ht); exists r; split; auto;
    now apply list_elem_of_In.
Qed.

Lemma throwsOn_false value rules :
  throwsOn value rules = false
  <-> forall rule, rule ∈ rules -> throws rule value = false.
Proof.
  rewrite <- not_true_iff_false, throwsOn_true. split.
  - intros H rule Hr. apply not_true_is_false. intros Ht. apply H. eauto.
  - intros H (rule & Hr & Ht). rewrite (H rule Hr) in Ht. discriminate Ht.
Qed.

End EngineMore.

(** X5: what a result of [validate] says.  For every configuration,
    rule set and value, the result is valid exactly when it carries no
    error; it is valid exactly when the short-circuit for an empty
    value does not apply and every rule that is run returns true,
    without throwing, on the trimmed value; and every error it carries
    is "Field cannot be empty" for an empty trimmed value, "Validation
    error occurred" when a predicate that is run throws on the trimmed
    value, or the message of a rule that is run and whose predicate
    returns false on the trimmed value. *)
Theorem validate_valid_iff_no_error :
  forall (config : ValidatorEngineConfig) (rules : list ValidationRule)
         (now : Z) (v : jsstring),
    let result := ValidatorEngine.validate config rules now v in
    let executed :=
      if enableEmptyFieldOptimization config
      then getExcluding ["not-empty"] rules else getAll rules in
    (isValid result = true <-> errors result = [])
    /\ (isValid result = true
        <-> ~ (trim v = [] /\ enableEmptyFieldOptimization config = true)
            /\ forall rule, rule ∈ executed ->
                  throws rule (trim v) = false
                  /\ check rule (trim v) = true)
    /\ forall e, e ∈ errors result ->
         (e = "Field cannot be empty" /\ trim v = [])
         \/ (e = "Validation error occurred"
             /\ exists rule, rule ∈ executed
                             /\ throws rule (trim v) = true)
         \/ exists rule, rule ∈ executed /\ check rule (trim v) = false
                         /\ message rule = e.
Proof.
  intros config rules now v result executed. unfold result.
  pose proof (validate_cases config rules now v) as H. cbv zeta in H.
  fold executed in H. rewrite H. clear H result.
  destruct ((length (trim v) =? 0)%nat && _) eqn:Eshort.
  - apply andb_true_iff in Eshort as [El Ec].
    apply Nat.eqb_eq, length_zero_iff_nil in El.
    cbn [isValid errors]. split; [split; discriminate|]. split.
    + split; [discriminate|]. intros [Hn _]. exfalso. now apply Hn.
    + intros e He. left. now apply list_elem_of_singleton in He.
  - assert (Hshort : ~ (trim v = []
                        /\ enableEmptyFieldOptimization config = true)).
    { intros [Hl Hc]. rewrite Hl, Hc in Eshort. discriminate Eshort. }
    destruct (throwsOn (trim v) executed) eqn:Et; cbn [isValid errors].
    + split; [split; discriminate|]. split.
      * split; [discriminate|]. intros [_ Hall]. exfalso.
        apply throwsOn_true in Et as (rule & Hr & Ht).
        destruct (Hall rule Hr) as [Hf _]. rewrite Hf in Ht. discriminate Ht.
      * intros e He. right. left. apply list_elem_of_singleton in He.
        split; [exact He|]. now apply throwsOn_true.
    + split; [|split].
      * rewrite <- no_error_iff_all_pass. apply length_eqb_nil.
      * rewrite forallb_forall. split.
        -- intros Hall. split; [exact Hshort|]. intros rule Hr. split.
           ++ now apply (proj1 (throwsOn_false _ _) Et).
           ++ now apply Hall, list_elem_of_In.
        -- intros [_ Hall] rule Hr. now apply Hall, list_elem_of_In.
      * intros e He. right. right.
        change (List.map message (failing (trim v) executed))
          with (message <$> failing (trim v) executed) in He.
        apply list_elem_of_fmap in He as (rule & -> & Hr).
        apply failing_member in Hr as [Hr Hc]. exists rule. auto.
Qed.

Lemma validate_valid_iff_no_error_witness :
  isValid (ValidatorEngine.validate ValidatorEngine.defaultConfig
             initializeDefaultRules 0 (js "Account_ID_123")) = true.
Proof.
  destruct (validate_valid_iff_no_error ValidatorEngine.defaultConfig
              initializeDefaultRules 0 (js "Account_ID_123")) as [H _].
  apply H. reflexivity.
Defined.

(** X6: the empty-field optimization cannot be observed on a value
    that is not blank, as long as every rule called "not-empty" passes
    on the trimmed value, that is, returns true without throwing:
    [validate] gives the same result with the optimization and without
    it.  With the default rules this holds of every value that is not
    blank. *)
Theorem optimization_unobservable_on_nonblank :
  (forall (stop : bool) (maxErrors : Z) (rules : list ValidationRule)
          (now : Z) (v : jsstring),
      trim v <> [] ->
      (forall rule, rule ∈ rules -> name rule = "not-empty" ->
                    throws rule (trim v) = false
                    /\ check rule (trim v) = true) ->
      ValidatorEngine.validate (mkEngineConfig true stop maxErrors)
                               rules now v
      = ValidatorEngine.validate (mkEngineConfig false stop maxErrors)
                                 rules now v)
  /\ (forall (stop : bool) (maxErrors now : Z) (v : jsstring),
        trim v <> [] ->
        ValidatorEngine.validate (mkEngineConfig true stop maxErrors)
                                 initializeDefaultRules now v
        = ValidatorEngine.validate (mkEngineConfig false stop maxErrors)
                                   initializeDefaultRules now v).
Proof.
  assert (General : forall stop maxErrors rules now v,
    trim v <> [] ->
    (forall rule, rule ∈ rules -> name rule = "not-empty" ->
                  throws rule (trim v) = false
                  /\ check rule (trim v) = true) ->
    ValidatorEngine.validate (mkEngineConfig true stop maxErrors) rules now v
    = ValidatorEngine.validate (mkEngineConfig false stop maxErrors)
                               rules now v).
  { intros stop maxErrors rules now v Hv Hne.
    unfold ValidatorEngine.validate. simpl.
    destruct (trim v) as [|c value] eqn:E; [contradiction|]. simpl.
    unfold getAll. rewrite throwsOn_getExcluding.
    - destruct (throwsOn (c :: value) rules); [reflexivity|].
      rewrite !executeRules_failing. unfold failing, getExcluding.
      rewrite filter_filter_implied; [reflexivity|].
      intros r Hr Hfail. apply negb_true_iff. unfold includes.
      apply bool_decide_eq_false. intros Hin.
      apply list_elem_of_singleton in Hin.
      destruct (Hne r Hr Hin) as [_ Hc].
      rewrite Hc in Hfail. discriminate Hfail.
    - intros rule Hr Hin. unfold includes in Hin.
      apply bool_decide_eq_true, list_elem_of_singleton in Hin.
      now destruct (Hne rule Hr Hin). }
  split; [exact General|].
  intros stop maxErrors now v Hv. apply General; [exact Hv|].
  intros rule Hr Hn. rewrite initializeDefaultRules_eq in Hr.
  apply list_elem_of_In in Hr. unfold defaultRules in Hr. simpl in Hr.
  repeat (destruct Hr as [<-|Hr]); try contradiction; try discriminate Hn.
  simpl. destruct (trim v); [contradiction|split; reflexivity].
Qed.

Lemma optimization_unobservable_on_nonblank_witness :
  ValidatorEngine.validate (mkEngineConfig true false 10)
    initializeDefaultRules 0 (js " my field ")
  = ValidatorEngine.validate (mkEngineConfig false false 10)
      initializeDefaultRules 0 (js " my field ").
Proof.
  destruct optimization_unobservable_on_nonblank as [_ H].
  apply H. discriminate.
Defined.

(** The condition that the rules called "not-empty" do not throw is
    needed: a predicate of that name that throws is called without the
    optimization only. *)
Lemma throwing_not_empty_rule_is_observed :
  ValidatorEngine.validate (mkEngineConfig true false 10)
    (add throwingNotEmpty initializeDefaultRules) 0 (js "Abc")
  = mkResult true [] 0
  /\ ValidatorEngine.validate (mkEngineConfig false false 10)
       (add throwingNotEmpty initializeDefaultRules) 0 (js "Abc")
     = mkResult false ["Validation error occurred"] 0.
Proof. split; reflexivity. Qed.

(** X7: [validateBatch] maps every id to the result of [validate] on
    the last field of the batch that has this id, and has no entry for
    an id that no field of the batch has. *)
Theorem validateBatch_by_id :
  forall (config : ValidatorEngineConfig) (rules : list ValidationRule)
         (now : Z) (page : Dom) (fields : list NodeRef) (id : string),
    EngineBatch.validateBatch config rules now page fields !! id
    = (fun field =>
         ValidatorEngine.validate config rules now (el_value (page field)))
      <$> last (List.filter (fun field => bool_decide (el_id (page field) = id))
                            fields).
Proof.
  intros config rules now page fields id. unfold EngineBatch.validateBatch.
  induction fields as [|field fields IH] using rev_ind; [reflexivity|].
  rewrite foldl_snoc, List.filter_app. simpl.
  case_bool_decide as E.
  - rewrite E, lookup_insert_eq. now rewrite last_snoc.
  - rewrite lookup_insert_ne by exact E. now rewrite app_nil_r.
Qed.

(** ** The statistics of a registry *)

Section Aggregate.

Lemma updateFromFields_fold (l : list FieldData.t) (s : ValidationStats) :
  let r := foldl (fun s fieldData =>
                    match FieldData.isValid fieldData with
                    | Some true => StatsManager.incrementValid s
                    | Some false => StatsManager.incrementInvalid s
                    | None => s
                    end) s l in
  totalFields r = totalFields s
  /\ validFields r
     = (validFields s
        + Z.of_nat (length (List.filter
            (fun fd => bool_decide (FieldData.isValid fd = Some true)) l)))%Z
  /\ invalidFields r
     = (invalidFields s
        + Z.of_nat (length (List.filter
            (fun fd => bool_decide (FieldData.isValid fd = Some false)) l)))%Z
  /\ lastValidated r = lastValidated s.
Proof.
  revert s. induction l as [|fd l IH]; intros s.
  - simpl. repeat split; lia.
  - cbn [foldl List.filter]. cbv zeta.
    destruct (FieldData.isValid fd) as [[|]|];
      [destruct (IH (StatsManager.incrementValid s)) as (Ht & Hv & Hi & Hl)
      |destruct (IH (StatsManager.incrementInvalid s)) as (Ht & Hv & Hi & Hl)
      |destruct (IH s) as (Ht & Hv & Hi & Hl)];
      cbv zeta in Ht, Hv, Hi, Hl; rewrite Ht, Hv, Hi, Hl; simpl;
      repeat split; lia.
Qed.

Lemma outcomes_bounded (l : list FieldData.t) :
  length (List.filter
            (fun fd => bool_decide (FieldData.isValid fd = Some true)) l)
  + length (List.filter
              (fun fd => bool_decide (FieldData.isValid fd = Some false)) l)
  <= length l.
Proof.
  induction l as [|fd l IH]; simpl; [lia|].
  destruct (FieldData.isValid fd) as [[|]|]; simpl; lia.
Qed.

Lemma filter_length_perm {A : Type} (f : A -> bool) (l l' : list A) :
  l ≡ₚ l' -> length (List.filter f l) = length (List.filter f l').
Proof.
  induction 1 as [|x l l' _ IH|x y l|l l' l'' _ IH1 _ IH2]; simpl.
  - reflexivity.
  - destruct (f x); simpl; now rewrite IH.
  - destruct (f x), (f y); reflexivity.
  - now rewrite IH1.
Qed.

End Aggregate.

(** X8: [updateFromFields] aggregates the recorded outcomes: the total
    is the number of records, [validFields] the number of records
    marked valid, [invalidFields] the number marked invalid (a record
    never validated counts in neither), so their sum never exceeds the
    total, and the timestamp is set. *)
Theorem updateFromFields_aggregates :
  forall (now : Z) (fm : FieldManager.t) (s : ValidationStats),
    let stats :=
      StatsManager.updateFromFields now (FieldManager.getAllFields fm) in
    let o := ValidationOrchestrator.mk fm s in
    totalFields stats = Z.of_nat (FieldManager.getFieldCount fm)
    /\ validFields stats = ValidationOrchestrator.recordedValid o
    /\ invalidFields stats = ValidationOrchestrator.recordedInvalid o
    /\ (validFields stats + invalidFields stats <= totalFields stats)%Z
    /\ lastValidated stats = Some now.
Proof.
  intros now fm s. unfold StatsManager.updateFromFields,
    FieldManager.getAllFields, FieldManager.getFieldCount,
    ValidationOrchestrator.recordedValid,
    ValidationOrchestrator.recordedInvalid. cbv zeta. simpl.
  change ((FieldManager.entries fm).*2) with (FieldManager.values fm).
  set (l := FieldManager.values fm).
  pose proof (values_perm fm) as Hperm. fold l in Hperm.
  rewrite <- !(filter_length_perm _ _ _ Hperm).
  destruct (updateFromFields_fold l
              (StatsManager.setTotal
                 (Z.of_nat (length (FieldManager.entries fm)))
                 StatsManager.reset)) as (Ht & Hv & Hi & _).
  cbv zeta in Ht, Hv, Hi. rewrite Ht, Hv, Hi. simpl.
  pose proof (outcomes_bounded l) as Hb.
  assert (length l = size (FieldManager.registeredFields fm)) as Hlen.
  { rewrite (Permutation_length Hperm).
    now rewrite length_fmap, length_map_to_list. }
  assert (length (FieldManager.entries fm)
          = size (FieldManager.registeredFields fm)) as Hlen'.
  { rewrite <- Hlen. unfold l, FieldManager.values.
    now rewrite length_fmap. }
  repeat split; lia.
Qed.

(** ** What a scan does to the records *)

Section ScanRecords.
Variable config : ValidatorConfig.
Variable page : Dom.
Implicit Types (fm : FieldManager.t) (fs : list NodeRef) (ids : list string)
               (evs : list FieldEvent).

Local Abbreviation idsOf := (FieldManager.idsOf page).
Local Abbreviation regs fm := (FieldManager.registeredFields fm).
Local Abbreviation scanField := (FieldManager.scanField config page).

Lemma hasField_false id fm :
  FieldManager.hasField id fm = false <-> regs fm !! id = None.
Proof.
  unfold FieldManager.hasField. rewrite bool_decide_eq_false.
  now rewrite eq_None_not_Some.
Qed.

Lemma registerField_state f fm :
  let r := FieldManager.registerField config page f fm in
  regs r.1 = <[el_id (page f) := freshRecord f]> (regs fm)
  /\ FieldManager.lastValues r.1 = FieldManager.lastValues fm
  /\ FieldManager.observing r.1 = FieldManager.observing fm
  /\ FieldManager.registrations r.2 = 1
  /\ FieldManager.unregistrations r.2 = 0.
Proof.
  unfold FieldManager.registerField. now destruct (autoValidate config).
Qed.

(** One step of the scan leaves a registered id alone and registers an
    id that is not. *)
Lemma scanField_state fm cur evs f :
  let r := scanField (fm, cur, evs) f in
  (regs fm !! el_id (page f) <> None -> r.1.1 = fm /\ r.2 = evs)
  /\ (regs fm !! el_id (page f) = None ->
      regs r.1.1 = <[el_id (page f) := freshRecord f]> (regs fm)
      /\ FieldManager.lastValues r.1.1
         = <[el_id (page f) := el_value (page f)]> (FieldManager.lastValues fm)
      /\ FieldManager.registrations r.2 = FieldManager.registrations evs + 1
      /\ FieldManager.unregistrations r.2 = FieldManager.unregistrations evs).
Proof.
  unfold FieldManager.scanField.
  destruct (FieldManager.hasField _ fm) eqn:E; simpl.
  - split; [auto|]. intros H. apply hasField_false in H. congruence.
  - split; [intros H; now apply hasField_false in E|]. intros _.
    destruct (registerField_state f fm) as (Hr & Hl & Ho & Hn & Hu).
    destruct (FieldManager.registerField config page f fm) as [fm1 ev1].
    simpl in *. rewrite Hr, Hl.
    unfold FieldManager.registrations, FieldManager.unregistrations in *.
    rewrite !List.filter_app, !length_app, Hn, Hu.
    destruct (_ && _); simpl; repeat split; lia.
Qed.

Lemma idsOf_cons' f fs : idsOf (f :: fs) = {[el_id (page f)]} ∪ idsOf fs.
Proof. reflexivity. Qed.

Lemma idsOf_member id fs :
  id ∈ idsOf fs <-> exists f, f ∈ fs /\ el_id (page f) = id.
Proof.
  unfold FieldManager.idsOf. rewrite elem_of_list_to_set, list_elem_of_fmap.
  split; intros (f & H1 & H2); exists f; auto.
Qed.

(** A record that is registered goes through a scan untouched. *)
Lemma scan_keeps fs fm cur evs id fd :
  regs fm !! id = Some fd ->
  let r := foldl scanField (fm, cur, evs) fs in
  regs r.1.1 !! id = Some fd
  /\ FieldManager.lastValues r.1.1 !! id = FieldManager.lastValues fm !! id.
Proof.
  revert fm cur evs. induction fs as [|f fs IH]; intros fm cur evs Hid.
  - simpl. auto.
  - cbn [foldl]. destruct (scanField_state fm cur evs f) as [Hreg Hnew].
    destruct (scanField (fm, cur, evs) f) as [[fm1 cur1] evs1] eqn:E.
    cbn [fst snd] in *.
    destruct (regs fm !! el_id (page f)) as [fd'|] eqn:Ef.
    + destruct Hreg as [-> _]; [discriminate|]. now apply IH.
    + destruct (Hnew eq_refl) as (Hr & Hl & _).
      assert (el_id (page f) <> id) by congruence.
      destruct (IH fm1 cur1 evs1) as [H1 H2].
      * rewrite Hr, lookup_insert_ne by assumption. exact Hid.
      * split; [exact H1|]. cbv zeta in H2. rewrite H2, Hl.
        now rewrite lookup_insert_ne.
Qed.

(** An id that is not registered and that the scan meets gets the new
    record of the first element met with it, and its value as
    snapshot. *)
Lemma scan_creates fs fm cur evs id :
  regs fm !! id = None -> id ∈ idsOf fs ->
  let r := foldl scanField (fm, cur, evs) fs in
  exists f, f ∈ fs /\ el_id (page f) = id
            /\ regs r.1.1 !! id = Some (freshRecord f)
            /\ FieldManager.lastValues r.1.1 !! id = Some (el_value (page f)).
Proof.
  revert fm cur evs. induction fs as [|f fs IH]; intros fm cur evs Hid Hin.
  - unfold FieldManager.idsOf in Hin. simpl in Hin.
    now apply elem_of_empty in Hin.
  - cbn [foldl]. destruct (scanField_state fm cur evs f) as [Hreg Hnew].
    destruct (scanField (fm, cur, evs) f) as [[fm1 cur1] evs1] eqn:E.
    cbn [fst snd] in *.
    destruct (decide (el_id (page f) = id)) as [Heq|Hne].
    + rewrite Heq in Hnew. destruct (Hnew Hid) as (Hr & Hl & _).
      destruct (scan_keeps fs fm1 cur1 evs1 id (freshRecord f)) as [H1 H2].
      { rewrite Hr. apply lookup_insert_eq. }
      exists f. split; [apply elem_of_cons; now left|].
      split; [exact Heq|]. split; [exact H1|].
      cbv zeta in H2. rewrite H2, Hl. apply lookup_insert_eq.
    + assert (Hin' : id ∈ idsOf fs).
      { rewrite idsOf_cons' in Hin. apply elem_of_union in Hin as [Hin|Hin];
          [|exact Hin]. apply elem_of_singleton in Hin. congruence. }
      assert (Hid1 : regs fm1 !! id = None).
      { destruct (regs fm !! el_id (page f)) as [fd'|] eqn:Ef.
        - destruct Hreg as [-> _]; [discriminate|exact Hid].
        - destruct (Hnew eq_refl) as (Hr & _).
          rewrite Hr, lookup_insert_ne by exact Hne. exact Hid. }
      destruct (IH fm1 cur1 evs1 Hid1 Hin') as (f' & Hf' & H').
      exists f'. split; [apply elem_of_cons; now right | exact H'].
Qed.

(** The events of the scanning loop count the registrations. *)
Lemma scan_counts fs fm cur evs :
  let r := foldl scanField (fm, cur, evs) fs in
  size (regs r.1.1) + FieldManager.registrations evs
  = size (regs fm) + FieldManager.registrations r.2
  /\ FieldManager.unregistrations r.2 = FieldManager.unregistrations evs.
Proof.
  revert fm cur evs. induction fs as [|f fs IH]; intros fm cur evs.
  - simpl. auto.
  - cbn [foldl]. destruct (scanField_state fm cur evs f) as [Hreg Hnew].
    destruct (scanField (fm, cur, evs) f) as [[fm1 cur1] evs1] eqn:E.
    cbn [fst snd] in *. destruct (IH fm1 cur1 evs1) as [H1 H2].
    cbv zeta in H1, H2.
    destruct (regs fm !! el_id (page f)) as [fd'|] eqn:Ef.
    + destruct Hreg as [-> ->]; [discriminate|]. auto.
    + destruct (Hnew eq_refl) as (Hr & _ & Hn & Hu).
      rewrite Hr, map_size_insert_None in H1 by exact Ef.
      split; [lia|congruence].
Qed.

Lemma unregisterField_state id fm :
  let r := FieldManager.unregisterField id fm in
  regs r.1 = delete id (regs fm)
  /\ FieldManager.lastValues r.1 = FieldManager.lastValues fm
  /\ FieldManager.registrations r.2 = 0
  /\ FieldManager.unregistrations r.2
     = (if bool_decide (is_Some (regs fm !! id)) then 1 else 0).
Proof.
  unfold FieldManager.unregisterField.
  destruct (regs fm !! id) as [fd|] eqn:E; simpl.
  - destruct (bool_decide _); simpl;
      destruct (FieldManager.observing fm); simpl; auto.
  - repeat split. symmetry. now apply delete_id.
Qed.

Lemma count_app evs evs' :
  FieldManager.registrations (evs ++ evs')
  = FieldManager.registrations evs + FieldManager.registrations evs'
  /\ FieldManager.unregistrations (evs ++ evs')
     = FieldManager.unregistrations evs + FieldManager.unregistrations evs'.
Proof.
  unfold FieldManager.registrations, FieldManager.unregistrations.
  now rewrite !List.filter_app, !length_app.
Qed.

(** Unregistering distinct registered ids: the snapshots stay, the
    other records stay, and each id gives one unregistration. *)
Lemma unregisterAll_state ids fm evs :
  let r := foldl (fun '(fm, evs) id =>
                    let '(fm', ev) := FieldManager.unregisterField id fm in
                    (fm', evs ++ ev))
                 (fm, evs) ids in
  FieldManager.lastValues r.1 = FieldManager.lastValues fm
  /\ (forall id, id ∉ ids -> regs r.1 !! id = regs fm !! id)
  /\ FieldManager.registrations r.2 = FieldManager.registrations evs
  /\ (NoDup ids -> (forall id, id ∈ ids -> is_Some (regs fm !! id)) ->
      FieldManager.unregistrations r.2
      = FieldManager.unregistrations evs + length ids
      /\ size (regs r.1) + length ids = size (regs fm)).
Proof.
  revert fm evs. induction ids as [|id ids IH]; intros fm evs.
  - simpl. repeat split; auto; lia.
  - cbn [foldl]. destruct (unregisterField_state id fm) as (Hr & Hl & Hn & Hu).
    destruct (FieldManager.unregisterField id fm) as [fm1 ev1].
    cbn [fst snd] in *.
    destruct (IH fm1 (evs ++ ev1)) as (H1 & H2 & H3 & H4). cbv zeta in *.
    destruct (count_app evs ev1) as [Ca Cb].
    split; [congruence|]. split; [|split; [rewrite H3, Ca; lia|]].
    + intros id' Hid'. apply not_elem_of_cons in Hid' as [Hne Hid'].
      rewrite (H2 id' Hid'), Hr. now apply lookup_delete_ne.
    + intros Hnd Hall. apply NoDup_cons in Hnd as [Hnotin Hnd].
      assert (Hsome : is_Some (regs fm !! id))
        by (apply Hall, elem_of_cons; now left).
      rewrite bool_decide_eq_true_2 in Hu by exact Hsome.
      destruct H4 as [H4 H5]; [exact Hnd| |].
      * intros id' Hid'. rewrite Hr, lookup_delete_ne.
        -- apply Hall, elem_of_cons. now right.
        -- intros ->. contradiction.
      * rewrite H4, Cb, Hu. simpl length. split; [lia|].
        rewrite Hr, (map_size_delete_Some id (regs fm) Hsome) in H5.
        pose proof (map_size_ne_0_lookup_2 (regs fm) id Hsome). lia.
Qed.

Lemma keys_NoDup fm : NoDup (FieldManager.keys fm).
Proof. rewrite keys_perm. apply NoDup_fst_map_to_list. Qed.

Lemma keys_length fm : length (FieldManager.keys fm) = size (regs fm).
Proof.
  rewrite (Permutation_length (keys_perm fm)).
  now rewrite length_fmap, length_map_to_list.
Qed.

End ScanRecords.

Section ScanResults.
Variable config : ValidatorConfig.
Variable page : Dom.
Implicit Types (fm : FieldManager.t) (container : list NodeRef).

Local Abbreviation regs fm := (FieldManager.registeredFields fm).
Local Abbreviation scanned container :=
  (FieldManager.scannedFields page container).
Local Abbreviation scanLoop fm container :=
  (foldl (FieldManager.scanField config page) (fm, ∅, []) (scanned container)).

(** The second part of a scan does not touch the snapshots nor the
    records of the ids the scan has met. *)
Lemma scanAndRegister_after_loop container fm :
  let fm' := (FieldManager.scanAndRegister config page container fm).1 in
  FieldManager.lastValues fm' = FieldManager.lastValues (scanLoop fm container).1.1
  /\ forall id, id ∈ FieldManager.idsOf page (scanned container) ->
                regs fm' !! id = regs (scanLoop fm container).1.1 !! id.
Proof.
  unfold FieldManager.scanAndRegister.
  pose proof (scan_dom config page (scanned container) fm ∅ []) as Hd.
  cbv zeta in Hd.
  destruct (scanLoop fm container) as [[fm1 cur1] evs1]. cbn [fst snd] in *.
  destruct Hd as [-> _].
  set (toRemove := List.filter _ (FieldManager.keys fm1)).
  destruct (unregisterAll_state toRemove fm1 []) as (Hl & Hk & _).
  cbv zeta in Hl, Hk. unfold FieldManager.unregisterAll.
  destruct (foldl _ (fm1, []) toRemove) as [fm2 evs2]. cbn [fst] in *.
  split; [exact Hl|]. intros id Hid. apply Hk. unfold toRemove.
  rewrite list_elem_of_In, filter_In, bool_decide_eq_true.
  intros [_ Hn]. apply Hn, elem_of_union. now left.
Qed.

Lemma scanAndRegister_counts container fm :
  let r := FieldManager.scanAndRegister config page container fm in
  FieldManager.getFieldCount r.1 + FieldManager.unregistrations r.2
  = FieldManager.getFieldCount fm + FieldManager.registrations r.2.
Proof.
  unfold FieldManager.scanAndRegister, FieldManager.getFieldCount.
  pose proof (scan_counts config page (scanned container) fm ∅ []) as Hc.
  cbv zeta in Hc.
  destruct (scanLoop fm container) as [[fm1 cur1] evs1]. cbn [fst snd] in *.
  destruct Hc as [Hc1 Hc2].
  set (toRemove := List.filter _ (FieldManager.keys fm1)).
  destruct (unregisterAll_state toRemove fm1 []) as (_ & _ & Hn & Hu).
  cbv zeta in Hn, Hu. unfold FieldManager.unregisterAll.
  destruct (foldl _ (fm1, []) toRemove) as [fm2 evs2]. cbn [fst snd] in *.
  destruct Hu as [Hu1 Hu2].
  - apply (sublist_NoDup _ (FieldManager.keys fm1));
      [apply keys_NoDup | apply filter_sublist].
  - intros id Hid. apply list_elem_of_In, filter_In in Hid as [Hid _].
    apply list_elem_of_In, keys_dom in Hid. now apply elem_of_dom.
  - destruct (count_app evs1 evs2) as [-> ->].
    change (FieldManager.registrations []) with 0 in *.
    change (FieldManager.unregistrations []) with 0 in *. lia.
Qed.

End ScanResults.

(** X9: after [scanAndRegister] the tracked ids are exactly the ids of
    the elements the scan has looked at: the matches of the primary
    selector in the container, or those of the fallback selector when
    the primary one matches nothing. *)
Theorem scan_tracks_scanned_ids :
  forall (config : ValidatorConfig) (page : Dom) (container : list NodeRef)
         (fm : FieldManager.t) (id : string),
    FieldManager.hasField id
      (FieldManager.scanAndRegister config page container fm).1 = true
    <-> exists field, field ∈ FieldManager.scannedFields page container
                      /\ el_id (page field) = id.
Proof.
  intros config page container fm id.
  rewrite hasField_dom, scanAndRegister_dom. apply idsOf_member.
Qed.

Lemma scan_tracks_scanned_ids_witness :
  FieldManager.hasField "ae_sf_count"
    (FieldManager.scanAndRegister DEFAULT_CONFIG samplePage sampleContainer
                                  sampleRegistry).1 = true.
Proof.
  apply scan_tracks_scanned_ids. exists 1. split; [|reflexivity].
  apply list_elem_of_In. simpl. right. now left.
Defined.

(** What a scan leaves under an id it has met. *)
Lemma scanAndRegister_records :
  forall (config : ValidatorConfig) (page : Dom) (container : list NodeRef)
         (fm : FieldManager.t) (id : string),
    let fm' := (FieldManager.scanAndRegister config page container fm).1 in
    id ∈ FieldManager.idsOf page (FieldManager.scannedFields page container) ->
    match FieldManager.registeredFields fm !! id with
    | Some fieldData =>
        FieldManager.registeredFields fm' !! id = Some fieldData
        /\ FieldManager.lastValues fm' !! id = FieldManager.lastValues fm !! id
    | None =>
        exists field,
          field ∈ FieldManager.scannedFields page container
          /\ el_id (page field) = id
          /\ FieldManager.registeredFields fm' !! id = Some (freshRecord field)
          /\ FieldManager.lastValues fm' !! id = Some (el_value (page field))
    end.
Proof.
  intros config page container fm id fm' Hid.
  destruct (scanAndRegister_after_loop config page container fm) as [Hl Hr].
  cbv zeta in Hl, Hr. fold fm' in Hl, Hr. rewrite Hl, (Hr id Hid).
  destruct (FieldManager.registeredFields fm !! id) as [fd|] eqn:E.
  - now apply scan_keeps.
  - now apply scan_creates.
Qed.


(** X10: a scan keeps what it knows of a field it finds again and
    starts afresh for a field it meets for the first time.  For an id
    among the elements scanned: when the id was tracked, its record
    (element, outcome, errors, time of validation) and its value
    snapshot are unchanged; when it was not, its record is a new one
    (never validated, no errors) for an element scanned with this id,
    and the snapshot is the value of that element. *)
Theorem scan_keeps_known_and_creates_new :
  forall (config : ValidatorConfig) (page : Dom) (container : list NodeRef)
         (fm : FieldManager.t) (id : string),
    let fm' := (FieldManager.scanAndRegister config page container fm).1 in
    id ∈ FieldManager.idsOf page (FieldManager.scannedFields page container) ->
    match FieldManager.registeredFields fm !! id with
    | Some fieldData =>
        FieldManager.registeredFields fm' !! id = Some fieldData
        /\ FieldManager.lastValues fm' !! id = FieldManager.lastValues fm !! id
    | None =>
        exists field,
          field ∈ FieldManager.scannedFields page container
          /\ el_id (page field) = id
          /\ FieldManager.registeredFields fm' !! id = Some (freshRecord field)
          /\ FieldManager.lastValues fm' !! id = Some (el_value (page field))
    end.
Proof. exact scanAndRegister_records. Qed.

Lemma scan_keeps_known_and_creates_new_witness :
  FieldManager.registeredFields
    (FieldManager.scanAndRegister DEFAULT_CONFIG samplePage sampleContainer
                                  sampleRegistry).1 !! "ae_sf_account"
  = Some (FieldData.mk 0 None [] 0).
Proof.
  assert (H : "ae_sf_account"
              ∈ FieldManager.idsOf samplePage
                  (FieldManager.scannedFields samplePage sampleContainer)).
  { apply idsOf_member. exists 0. split; [|reflexivity].
    apply list_elem_of_In. simpl. now left. }
  exact (proj1 (scan_keeps_known_and_creates_new DEFAULT_CONFIG samplePage
                  sampleContainer sampleRegistry "ae_sf_account" H)).
Defined.

(** X11: the value is snapshotted at registration: right after the
    scan that registers an id, [hasFieldChanged] on that id returns
    false and changes nothing. *)
Theorem no_change_right_after_registration :
  forall (config : ValidatorConfig) (page : Dom) (container : list NodeRef)
         (fm : FieldManager.t) (id : string),
    let fm' := (FieldManager.scanAndRegister config page container fm).1 in
    FieldManager.registeredFields fm !! id = None ->
    id ∈ FieldManager.idsOf page (FieldManager.scannedFields page container) ->
    FieldManager.hasFieldChanged page id fm' = (fm', false).
Proof.
  intros config page container fm id fm' Hnew Hid.
  pose proof (scanAndRegister_records config page container fm id Hid) as H. cbv zeta in H. fold fm' in H. rewrite Hnew in H.
  destruct H as (field & _ & _ & Hr & Hl).
  unfold FieldManager.hasFieldChanged. rewrite Hr.
  destruct (bool_decide _) eqn:B; [reflexivity|].
  apply bool_decide_eq_false in B. exfalso. apply B.
  unfold jsstring in *. now rewrite Hl.
Qed.

Lemma no_change_right_after_registration_witness :
  (FieldManager.hasFieldChanged samplePage "ae_sf_count"
     (FieldManager.scanAndRegister DEFAULT_CONFIG samplePage sampleContainer
                                   sampleRegistry).1).2 = false.
Proof.
  rewrite (no_change_right_after_registration DEFAULT_CONFIG samplePage
             sampleContainer sampleRegistry "ae_sf_count").
  - reflexivity.
  - reflexivity.
  - apply idsOf_member. exists 1. split; [|reflexivity].
    apply list_elem_of_In. simpl. right. now left.
Defined.

(** X12: [cleanup] unregisters every tracked field once: afterwards no
    field is tracked, the number of unregistrations is the number of
    fields that were tracked, nothing is registered, and the value
    snapshots are left as they were. *)
Theorem cleanup_unregisters_all :
  forall fm : FieldManager.t,
    let r := FieldManager.cleanup fm in
    FieldManager.registeredFields r.1 = ∅
    /\ FieldManager.unregistrations r.2 = FieldManager.getFieldCount fm
    /\ FieldManager.registrations r.2 = 0
    /\ FieldManager.lastValues r.1 = FieldManager.lastValues fm.
Proof.
  intros fm. unfold FieldManager.cleanup, FieldManager.getFieldCount.
  destruct (size (FieldManager.registeredFields fm) =? 0)%nat eqn:E.
  - apply Nat.eqb_eq in E. simpl. rewrite E.
    split; [now apply map_size_empty_inv | auto].
  - destruct (unregisterAll_state (FieldManager.keys fm) fm [])
      as (Hl & _ & Hn & Hu).
    cbv zeta in Hl, Hn, Hu. unfold FieldManager.unregisterAll. cbv zeta.
    destruct (foldl _ (fm, []) (FieldManager.keys fm)) as [fm2 evs2].
    cbn [fst snd] in *. destruct Hu as [Hu1 Hu2].
    + apply keys_NoDup.
    + intros id Hid. apply keys_dom in Hid. now apply elem_of_dom.
    + rewrite keys_length in Hu1, Hu2.
      split; [apply map_size_empty_inv; lia|]. split; [exact Hu1|].
      split; [exact Hn | exact Hl].
Qed.

(** X13: a scan accounts for every field: the number of tracked fields
    after [scanAndRegister], plus the unregistrations it has performed,
    is the number tracked before plus the registrations it has
    performed. *)
Theorem scan_balances_registrations :
  forall (config : ValidatorConfig) (page : Dom) (container : list NodeRef)
         (fm : FieldManager.t),
    let r := FieldManager.scanAndRegister config page container fm in
    FieldManager.getFieldCount r.1 + FieldManager.unregistrations r.2
    = FieldManager.getFieldCount fm + FieldManager.registrations r.2.
Proof. exact scanAndRegister_counts. Qed.

(** ** Full runs and automatic validation *)

Section Runs.
Variable engineConfig : ValidatorEngineConfig.
Variable rules : list ValidationRule.
Variable now : Z.
Variable page : Dom.
Implicit Types (o : ValidationOrchestrator.t) (fields : list FieldData.t)
               (fm : FieldManager.t).

Import ValidationOrchestrator.

Local Abbreviation validateAt := (validateAt engineConfig rules now page).
Local Abbreviation runFrames := (runFrames engineConfig rules now page).
Local Abbreviation highlightOf := (highlightOf engineConfig rules now page).
Local Abbreviation validatedRecord :=
  (validatedRecord engineConfig rules now page).
Local Abbreviation regs fm := (FieldManager.registeredFields fm).

(** The registry after the outcome of one record's validation is
    written back, under the id of the record's element. *)
Local Abbreviation recordOne fm fd :=
  (FieldManager.updateFieldData
     (el_id (page (FieldData.element fd)))
     (outcome now (validateElement engineConfig rules now page
                                   (FieldData.element fd)))
     fm).

Lemma highlighted_app evs evs' :
  highlighted (evs ++ evs') = highlighted evs ++ highlighted evs'.
Proof. unfold highlighted. now rewrite omap_app, concat_app. Qed.

(** The loop of one batch: the updates it collects and the registry it
    leaves. *)
Lemma validateAt_effects fields o updates start len :
  start + len <= length fields ->
  let r := foldl (validateAt fields) (o, updates) (seq start len) in
  r.2 = updates ++ (highlightOf <$> take len (drop start fields))
  /\ fieldManager r.1
     = foldl (fun fm fd => recordOne fm fd) (fieldManager o)
             (take len (drop start fields)).
Proof.
  induction len as [|len IH]; intros Hlen.
  - simpl. now rewrite app_nil_r.
  - rewrite seq_S, foldl_app. cbn [foldl]. cbv zeta.
    destruct IH as (Hu & Hf); [lia|].
    destruct (foldl (validateAt fields) (o, updates) (seq start len))
      as [o1 updates1]. cbn [fst snd] in *.
    destruct (lookup_lt_is_Some_2 fields (start + len)) as [fd Hfd]; [lia|].
    assert (Htake : take (S len) (drop start fields)
                    = take len (drop start fields) ++ [fd]).
    { apply take_S_r. now rewrite lookup_drop. }
    rewrite Htake, fmap_app, foldl_app.
    unfold ValidationOrchestrator.validateAt. rewrite Hfd. cbn [fst snd].
    rewrite Hu, <- Hf, <- app_assoc. split; reflexivity.
Qed.

Lemma runFrames_effects frames fields k o :
  k * batchSize <= length fields ->
  length fields - k * batchSize < frames * batchSize ->
  exists o' evs,
    runFrames frames fields k o = Some (o', evs)
    /\ highlighted evs = highlightOf <$> drop (k * batchSize) fields
    /\ Forall (frameAtMost batchSize) evs
    /\ fieldManager o'
       = foldl (fun fm fd => recordOne fm fd) (fieldManager o)
               (drop (k * batchSize) fields).
Proof.
  revert k o. induction frames as [|frames IH]; intros k o Hk Hfuel.
  - simpl in Hfuel. lia.
  - cbn [ValidationOrchestrator.runFrames].
    unfold ValidationOrchestrator.validateBatch.
    set (start := k * batchSize) in *.
    set (end_ := Nat.min (start + batchSize) (length fields)).
    assert (Hend : start + (end_ - start) <= length fields)
      by (unfold end_; lia).
    pose proof (validateAt_effects fields o [] start (end_ - start) Hend) as H.
    cbv zeta in H.
    destruct (foldl (validateAt fields) (o, []) (seq start (end_ - start)))
      as [o1 updates]. cbn [fst snd] in H. destruct H as (Hu & Hf).
    simpl app in Hu.
    assert (Hlen : length updates <= batchSize).
    { rewrite Hu, length_fmap, length_take. unfold end_. lia. }
    destruct (end_ <? length fields)%nat eqn:E.
    + apply Nat.ltb_lt in E.
      assert (Hfull : end_ - start = batchSize) by (unfold end_ in *; lia).
      destruct (IH (S k) o1) as (o' & evs & Hrun & Hh & Hb & Hr).
      * unfold end_ in E. change (S k * batchSize) with (batchSize + start).
        lia.
      * change (S k * batchSize) with (batchSize + start).
        change (S frames * batchSize) with (batchSize + frames * batchSize)
          in Hfuel. unfold end_ in E. lia.
      * rewrite Hrun. eexists _, _. split; [reflexivity|].
        change (S k * batchSize) with (batchSize + start) in Hh, Hr.
        assert (Hsplit : drop start fields
                         = take batchSize (drop start fields)
                           ++ drop (batchSize + start) fields).
        { rewrite <- (take_drop batchSize (drop start fields)) at 1.
          rewrite drop_drop. do 2 f_equal. lia. }
        rewrite Hfull in Hu, Hf. split; [|split].
        -- change ([Highlights updates] ++ evs)
             with (Highlights updates :: evs).
           unfold highlighted in *. cbn [omap list_omap concat].
           rewrite Hsplit, fmap_app, Hu. f_equal. exact Hh.
        -- constructor; [exact Hlen | exact Hb].
        -- rewrite Hr, Hf, <- foldl_app. now rewrite <- Hsplit.
    + apply Nat.ltb_ge in E.
      assert (Hall : take (end_ - start) (drop start fields)
                     = drop start fields).
      { apply take_ge. rewrite length_drop. unfold end_ in *. lia. }
      rewrite Hall in Hu, Hf.
      eexists _, _. split; [reflexivity|]. split; [|split].
      * unfold highlighted. cbn [omap list_omap concat].
        rewrite app_nil_r. exact Hu.
      * constructor; [exact Hlen | repeat constructor].
      * exact Hf.
Qed.

Lemma passed_failed_length fields :
  (passed engineConfig rules now page fields
   + failed engineConfig rules now page fields)%Z
  = Z.of_nat (length fields).
Proof.
  unfold passed, failed. induction fields as [|fd fields IH]; simpl; [lia|].
  destruct (isValid _); simpl; lia.
Qed.

(** Writing outcomes back into a registry whose records sit under the
    ids of their elements reaches each record once. *)
Lemma record_outcomes (kvs : list (string * FieldData.t)) fm :
  NoDup kvs.*1 ->
  (forall k fd, (k, fd) ∈ kvs ->
     regs fm !! k = Some fd /\ el_id (page (FieldData.element fd)) = k) ->
  let fm' := foldl (fun fm fd => recordOne fm fd) fm kvs.*2 in
  (forall k fd, (k, fd) ∈ kvs -> regs fm' !! k = Some (validatedRecord fd))
  /\ (forall k, k ∉ kvs.*1 -> regs fm' !! k = regs fm !! k)
  /\ FieldManager.lastValues fm' = FieldManager.lastValues fm.
Proof.
  revert fm. induction kvs as [|[k fd] kvs IH]; intros fm Hnd Hall.
  - simpl. split; [|auto]. intros k fd H. now apply elem_of_nil in H.
  - rewrite fmap_cons in Hnd. apply NoDup_cons in Hnd as [Hk Hnd].
    cbn [fmap list_fmap foldl snd]. cbv zeta.
    destruct (Hall k fd) as [Hfd Hid]; [apply elem_of_cons; now left|].
    set (fm1 := recordOne fm fd).
    assert (Hfm1 : regs fm1 = <[k := validatedRecord fd]> (regs fm)
                   /\ FieldManager.lastValues fm1 = FieldManager.lastValues fm).
    { unfold fm1, FieldManager.updateFieldData. rewrite Hid, Hfd. auto. }
    destruct Hfm1 as [Hr1 Hl1].
    destruct (IH fm1 Hnd) as (H1 & H2 & H3).
    { intros k' fd' Hin. destruct (Hall k' fd') as [Hfd' Hid'];
        [apply elem_of_cons; now right|].
      split; [|exact Hid']. rewrite Hr1, lookup_insert_ne; [exact Hfd'|].
      intros ->. apply Hk. apply list_elem_of_fmap. now exists (k', fd'). }
    cbv zeta in H1, H2, H3. split; [|split].
    + intros k' fd' Hin. apply elem_of_cons in Hin as [[= -> ->]|Hin].
      * rewrite (H2 k Hk), Hr1. apply lookup_insert_eq.
      * now apply H1.
    + intros k' Hk'. cbn [fmap list_fmap fst] in Hk'.
      apply not_elem_of_cons in Hk' as [Hne Hk'].
      rewrite (H2 k' Hk'), Hr1. now apply lookup_insert_ne.
    + congruence.
Qed.

Lemma hasFieldChanged_registered id fm :
  regs (FieldManager.hasFieldChanged page id fm).1 = regs fm.
Proof.
  unfold FieldManager.hasFieldChanged.
  destruct (regs fm !! id); [|reflexivity]. now destruct (bool_decide _).
Qed.

Lemma updateFieldData_dom id u fm :
  dom (regs (FieldManager.updateFieldData id u fm)) = dom (regs fm).
Proof.
  unfold FieldManager.updateFieldData.
  destruct (regs fm !! id) as [fd|] eqn:E; [|reflexivity]. simpl.
  rewrite dom_insert_L. apply elem_of_dom_2 in E.
  apply set_eq. intros x. rewrite elem_of_union, elem_of_singleton.
  split; [intros [->|H]; assumption | tauto].
Qed.

(** One step of the automatic validation. *)
Lemma autoValidateOne_effects o evs fd :
  let r := AutoValidation.autoValidateOne engineConfig rules now page
             (o, evs) fd in
  stats r.1 = stats o
  /\ dom (regs (fieldManager r.1)) = dom (regs (fieldManager o))
  /\ (highlighted r.2 = highlighted evs
      \/ highlighted r.2 = highlighted evs ++ [highlightOf fd]
         /\ (FieldManager.hasFieldChanged page
               (el_id (page (FieldData.element fd))) (fieldManager o)).2
            = true).
Proof.
  unfold AutoValidation.autoValidateOne.
  pose proof (hasFieldChanged_registered
                (el_id (page (FieldData.element fd))) (fieldManager o)) as Hr.
  destruct (FieldManager.hasFieldChanged page _ (fieldManager o))
    as [fm1 changed]. cbn [fst snd] in *.
  destruct changed; simpl.
  - rewrite !updateFieldData_dom. simpl. rewrite Hr.
    split; [reflexivity|]. split; [reflexivity|]. right.
    rewrite highlighted_app. split; reflexivity.
  - rewrite Hr. auto.
Qed.

Lemma autoValidate_effects (due : list FieldData.t) o evs :
  let r := foldl (AutoValidation.autoValidateOne engineConfig rules now page)
                 (o, evs) due in
  stats r.1 = stats o
  /\ dom (regs (fieldManager r.1)) = dom (regs (fieldManager o))
  /\ exists validated,
       validated `sublist_of` due
       /\ highlighted r.2 = highlighted evs ++ (highlightOf <$> validated).
Proof.
  revert o evs. induction due as [|fd due IH]; intros o evs.
  - simpl. split; [reflexivity|]. split; [reflexivity|]. exists [].
    split; [constructor|]. simpl. now rewrite app_nil_r.
  - cbn [foldl]. destruct (autoValidateOne_effects o evs fd) as (Hs & Hd & Hh).
    destruct (AutoValidation.autoValidateOne engineConfig rules now page
                (o, evs) fd) as [o1 evs1]. cbn [fst snd] in *.
    destruct (IH o1 evs1) as (Hs' & Hd' & validated & Hsub & Hh').
    cbv zeta in *. split; [congruence|]. split; [congruence|].
    destruct Hh as [Hh|[Hh _]].
    + exists validated. split; [now constructor|]. now rewrite Hh', Hh.
    + exists (fd :: validated). split; [now constructor|].
      rewrite Hh', Hh, <- app_assoc. reflexivity.
Qed.

End Runs.

(** X14: automatic validation is silent and selective: for every
    state, [autoValidateFields] leaves the statistics as they were,
    tracks the same ids afterwards, and asks for highlight updates only
    for records that were due for validation, in the order in which
    they were due. *)
Theorem autoValidate_is_silent :
  forall (engineConfig : ValidatorEngineConfig) (rules : list ValidationRule)
         (now : Z) (page : Dom) (o : ValidationOrchestrator.t),
    let r := AutoValidation.autoValidateFields engineConfig rules now page o in
    ValidationOrchestrator.stats r.1 = ValidationOrchestrator.stats o
    /\ dom (FieldManager.registeredFields
              (ValidationOrchestrator.fieldManager r.1))
       = dom (FieldManager.registeredFields
                (ValidationOrchestrator.fieldManager o))
    /\ exists validated,
         validated `sublist_of`
           FieldManager.getFieldsNeedingValidation now page 2000
             (ValidationOrchestrator.fieldManager o)
         /\ highlighted r.2
            = highlightOf engineConfig rules now page <$> validated.
Proof.
  intros engineConfig rules now page o.
  unfold AutoValidation.autoValidateFields.
  apply (autoValidate_effects engineConfig rules now page _ o []).
Qed.

(** X15: [runFullValidation] always completes.  It asks for one
    highlight update per tracked field, in the order in which the
    registry is visited (the order in which the ids were registered),
    in animation frames of at most 20 updates each; with no tracked
    field the state is left as it was; otherwise [totalFields] is the
    number of tracked fields, [validFields + invalidFields] equals it,
    and the time of validation is set. *)
Theorem runFullValidation_completes :
  forall (engineConfig : ValidatorEngineConfig) (rules : list ValidationRule)
         (now : Z) (page : Dom) (o : ValidationOrchestrator.t),
    let fields := FieldManager.values (ValidationOrchestrator.fieldManager o) in
    exists o' evs,
      ValidationOrchestrator.runFullValidation engineConfig rules now page o
      = Some (o', evs)
      /\ highlighted evs = highlightOf engineConfig rules now page <$> fields
      /\ Forall (frameAtMost ValidationOrchestrator.batchSize) evs
      /\ match fields with
         | [] => o' = o
         | _ :: _ =>
             totalFields (ValidationOrchestrator.stats o')
             = Z.of_nat (length fields)
             /\ (validFields (ValidationOrchestrator.stats o')
                 + invalidFields (ValidationOrchestrator.stats o'))%Z
                = totalFields (ValidationOrchestrator.stats o')
             /\ lastValidated (ValidationOrchestrator.stats o') = Some now
         end.
Proof.
  intros engineConfig rules now page o fields.
  unfold ValidationOrchestrator.runFullValidation.
  change ((FieldManager.getAllFields
             (ValidationOrchestrator.fieldManager o)).*2) with fields.
  destruct fields as [|fd fields'] eqn:Ef.
  - simpl. eexists _, _. split; [reflexivity|].
    split; [reflexivity|]. split; [|reflexivity]. repeat constructor.
  - rewrite <- Ef. replace (length fields =? 0)%nat with false
      by (rewrite Ef; reflexivity).
    unfold ValidationOrchestrator.validateInBatches.
    set (o0 := ValidationOrchestrator.mk _ _).
    destruct (runFrames_counters engineConfig rules now page
                (S (length fields)) fields 0 o0)
      as (o' & evs & Hrun & Ht & Hv & Hi & Hl);
      [simpl; lia | unfold ValidationOrchestrator.batchSize; lia |].
    destruct (runFrames_effects engineConfig rules now page
                (S (length fields)) fields 0 o0)
      as (o2 & evs2 & Hrun2 & Hh & Hb & _);
      [simpl; lia | unfold ValidationOrchestrator.batchSize; lia |].
    rewrite Hrun in Hrun2. injection Hrun2 as <- <-.
    exists o', evs. split; [exact Hrun|]. split; [exact Hh|].
    split; [exact Hb|]. rewrite Ht, Hv, Hi. simpl drop.
    pose proof (passed_failed_length engineConfig rules now page fields).
    simpl. rewrite !drop_0. split; [reflexivity|]. split; [lia | exact Hl].
Qed.

(** The registry a full run leaves. *)
Lemma runFullValidation_registry :
  forall (engineConfig : ValidatorEngineConfig) (rules : list ValidationRule)
         (now : Z) (page : Dom) (o : ValidationOrchestrator.t),
    keyedByElementId page (ValidationOrchestrator.fieldManager o) ->
    exists o' evs,
      ValidationOrchestrator.runFullValidation engineConfig rules now page o
      = Some (o', evs)
      /\ (forall id,
            FieldManager.registeredFields
              (ValidationOrchestrator.fieldManager o') !! id
            = validatedRecord engineConfig rules now page
              <$> FieldManager.registeredFields
                    (ValidationOrchestrator.fieldManager o) !! id)
      /\ FieldManager.lastValues (ValidationOrchestrator.fieldManager o')
         = FieldManager.lastValues (ValidationOrchestrator.fieldManager o).
Proof.
  intros engineConfig rules now page o Hkeyed.
  set (m := FieldManager.registeredFields
              (ValidationOrchestrator.fieldManager o)).
  set (es := FieldManager.entries (ValidationOrchestrator.fieldManager o)).
  unfold ValidationOrchestrator.runFullValidation,
    FieldManager.getAllFields. fold es.
  destruct (es.*2) as [|fd fields'] eqn:Ef.
  - simpl. eexists _, _. split; [reflexivity|]. split; [|reflexivity].
    intros id. fold m. apply fmap_nil_inv in Ef.
    destruct (m !! id) as [fd'|] eqn:E; [|reflexivity].
    apply entries_lookup in E. fold es in E. rewrite Ef in E.
    now apply elem_of_nil in E.
  - rewrite <- Ef. replace (length es.*2 =? 0)%nat with false
      by (rewrite Ef; reflexivity).
    unfold ValidationOrchestrator.validateInBatches.
    set (o0 := ValidationOrchestrator.mk _ _).
    destruct (runFrames_effects engineConfig rules now page
                (S (length es.*2)) es.*2 0 o0)
      as (o' & evs & Hrun & _ & _ & Hf);
      [simpl; lia | unfold ValidationOrchestrator.batchSize; lia |].
    exists o', evs. split; [exact Hrun|]. simpl drop in Hf.
    destruct (record_outcomes engineConfig rules now page es
                (ValidationOrchestrator.fieldManager o))
      as (H1 & H2 & H3).
    + apply keys_NoDup.
    + intros k fd' Hin. apply entries_lookup in Hin.
      split; [exact Hin | now apply Hkeyed].
    + cbv zeta in H1, H2, H3. subst o0. simpl in Hf. rewrite Hf.
      split; [|exact H3]. intros id. fold m.
      destruct (m !! id) as [fd'|] eqn:E; simpl.
      * apply H1. now apply entries_lookup.
      * rewrite H2; [exact E|].
        intros ([k fd'] & -> & Hin)%list_elem_of_fmap.
        apply entries_lookup in Hin. simpl in E. fold m in Hin. congruence.
Qed.


(** X16: when every record sits under the id of its element, a full
    run writes each field's own outcome into its record: afterwards the
    record of every tracked id holds the validity, the errors and the
    time of the validation of its element; no id is added or dropped
    and the value snapshots are untouched. *)
Theorem runFullValidation_records_outcomes :
  forall (engineConfig : ValidatorEngineConfig) (rules : list ValidationRule)
         (now : Z) (page : Dom) (o : ValidationOrchestrator.t),
    keyedByElementId page (ValidationOrchestrator.fieldManager o) ->
    exists o' evs,
      ValidationOrchestrator.runFullValidation engineConfig rules now page o
      = Some (o', evs)
      /\ (forall id,
            FieldManager.registeredFields
              (ValidationOrchestrator.fieldManager o') !! id
            = validatedRecord engineConfig rules now page
              <$> FieldManager.registeredFields
                    (ValidationOrchestrator.fieldManager o) !! id)
      /\ FieldManager.lastValues (ValidationOrchestrator.fieldManager o')
         = FieldManager.lastValues (ValidationOrchestrator.fieldManager o).
Proof. exact runFullValidation_registry. Qed.

Lemma runFullValidation_records_outcomes_witness :
  exists o' evs,
    ValidationOrchestrator.runFullValidation ValidatorEngine.defaultConfig
      initializeDefaultRules 1000 samplePage sampleOrchestrator
    = Some (o', evs)
    /\ FieldManager.registeredFields
         (ValidationOrchestrator.fieldManager o') !! "ae_sf_account"
       = Some (FieldData.mk 0 (Some true) [] 1000).
Proof.
  destruct (runFullValidation_records_outcomes ValidatorEngine.defaultConfig
              initializeDefaultRules 1000 samplePage sampleOrchestrator)
    as (o' & evs & Hrun & Hrec & _).
  - intros id fd. simpl. unfold sampleRegistry. simpl.
    intros [<- <-]%lookup_singleton_Some. reflexivity.
  - exists o', evs. split; [exact Hrun|].
    rewrite (Hrec "ae_sf_account"). reflexivity.
Defined.

(** ** More on the container detector *)

Section DetectorMore.
Variable config : ValidatorConfig.
Implicit Types (d : ContainerDetector.t) (doc : Document).

Import ContainerDetector.

(** The parts of the state that [setActiveContainer] leaves alone, and
    what it notifies about the container. *)
Lemma setActiveContainer_frame container d :
  let r := setActiveContainer config container d in
  lastScanTime r.1 = lastScanTime d
  /\ minScanInterval r.1 = minScanInterval d
  /\ maxRetries r.1 = maxRetries d
  /\ retryCount r.1 = retryCount d
  /\ retriesScheduled r.2 = 0
  /\ containerNotifications r.2
     = (if bool_decide (activeContainer d = div_node <$> container)
        then [] else [div_node <$> container])
  /\ activeContainer r.1 = div_node <$> container.
Proof.
  unfold setActiveContainer. case_bool_decide as E; simpl; [auto 10|].
  unfold detectContext, setProcessDesignerState.
  destruct container as [div|]; simpl;
    repeat (case_bool_decide; simpl); auto 10.
Qed.

(** One scan, part by part. *)
Lemma updateActiveContainer_frame now doc d :
  let r := updateActiveContainer config now doc d in
  let target := scanTarget doc in
  lastScanTime r.1 = lastScanTime d
  /\ minScanInterval r.1 = minScanInterval d
  /\ maxRetries r.1 = maxRetries d
  /\ retryCount r.1
     = (if rateLimited now d then retryCount d
        else match doc with
             | None => if (retryCount d <? maxRetries d)%Z
                       then (retryCount d + 1)%Z else retryCount d
             | Some _ => match target with
                         | Some _ => retryCount d
                         | None => 0%Z
                         end
             end)
  /\ retriesScheduled r.2
     = (if negb (rateLimited now d)
           && bool_decide (doc = None)
           && (retryCount d <? maxRetries d)%Z
        then 1 else 0)
  /\ containerNotifications r.2
     = (if negb (rateLimited now d)
           && negb (bool_decide (activeContainer d = div_node <$> target))
        then [div_node <$> target] else [])
  /\ activeContainer r.1
     = (if rateLimited now d then activeContainer d
        else div_node <$> target).
Proof.
  unfold updateActiveContainer, rateLimited.
  destruct (now - lastScanTime d <? minScanInterval d)%Z; simpl; [auto 10|].
  destruct doc as [divs|]; simpl.
  - destruct (firstVisible divs) as [div|] eqn:F; simpl.
    + case_bool_decide as E; simpl; [auto 10|].
      destruct (setActiveContainer_frame (Some div) d)
        as (H1 & H2 & H3 & H4 & H5 & H6 & H7).
      cbv zeta in *. rewrite H1, H2, H3, H4, H5, H6, H7. simpl.
      rewrite bool_decide_eq_false_2 by exact E. auto 10.
    + destruct (setActiveContainer_frame None (setRetryCount 0 d))
        as (H1 & H2 & H3 & H4 & H5 & H6 & H7).
      cbv zeta in *. rewrite H1, H2, H3, H4, H5, H6, H7. simpl.
      clear; destruct (bool_decide _); simpl; auto 10.
  - destruct (retryCount d <? maxRetries d)%Z; cbn beta iota zeta.
    + destruct (setActiveContainer_frame None
                  (setRetryCount (retryCount d + 1) d))
        as (H1 & H2 & H3 & H4 & H5 & H6 & H7).
      destruct (setActiveContainer config None _) as [d2 ev2].
      cbv zeta in *. cbn [fst snd] in *.
      change (retriesScheduled ([RetryScheduled] ++ ev2))
        with (S (retriesScheduled ev2)).
      change (containerNotifications ([RetryScheduled] ++ ev2))
        with (containerNotifications ev2).
      rewrite H1, H2, H3, H4, H5, H6, H7. simpl.
      clear; destruct (bool_decide _); simpl; auto 10.
    + destruct (setActiveContainer_frame None d)
        as (H1 & H2 & H3 & H4 & H5 & H6 & H7).
      destruct (setActiveContainer config None d) as [d2 ev2].
      cbv zeta in *. cbn [fst snd] in *.
      change ([] ++ ev2) with ev2.
      rewrite H1, H2, H3, H4, H5, H6, H7. simpl.
      clear; destruct (bool_decide _); simpl; auto 10.
Qed.

Lemma retriesScheduled_app evs evs' :
  retriesScheduled (evs ++ evs')
  = retriesScheduled evs + retriesScheduled evs'.
Proof.
  unfold retriesScheduled. now rewrite List.filter_app, length_app.
Qed.

(** Over a sequence of scans: the limiter's data and the retry bound. *)
Lemma runScans_frame scans d :
  let r := runScans config scans d in
  lastScanTime r.1 = lastScanTime d
  /\ minScanInterval r.1 = minScanInterval d
  /\ maxRetries r.1 = maxRetries d
  /\ ((0 <= retryCount d <= maxRetries d)%Z ->
      (0 <= retryCount r.1 <= maxRetries d)%Z)
  /\ (Forall (fun s => s.2 = None) scans ->
      (0 <= retryCount d <= maxRetries d)%Z ->
      retryCount r.1 = (retryCount d + Z.of_nat (retriesScheduled r.2))%Z).
Proof.
  revert d. induction scans as [|[now doc] scans IH]; intros d.
  - simpl. repeat split; auto; try lia.
    intros _ _. change (retriesScheduled []) with 0. lia.
  - rewrite runScans_cons. cbv zeta. cbn [fst snd].
    destruct (updateActiveContainer_frame now doc d)
      as (H1 & H2 & H3 & H4 & H5 & _).
    cbv zeta in *.
    set (d1 := (updateActiveContainer config now doc d).1) in *.
    set (ev1 := (updateActiveContainer config now doc d).2) in *.
    destruct (IH d1) as (I1 & I2 & I3 & I4 & I5). cbv zeta in *.
    assert (Hb : (0 <= retryCount d <= maxRetries d)%Z ->
                 (0 <= retryCount d1 <= maxRetries d1)%Z).
    { intros Hrc. rewrite H4, H3.
      destruct (rateLimited now d); [exact Hrc|].
      destruct doc as [divs|].
      - destruct (scanTarget (Some divs)); lia.
      - destruct (retryCount d <? maxRetries d)%Z eqn:E; [|exact Hrc].
        apply Z.ltb_lt in E. lia. }
    split; [congruence|]. split; [congruence|]. split; [congruence|].
    split.
    + intros Hrc. rewrite <- H3. apply I4, Hb, Hrc.
    + intros Hall Hrc. apply Forall_cons in Hall as [Hdoc Hall].
      simpl in Hdoc. subst doc.
      rewrite retriesScheduled_app, (I5 Hall (Hb Hrc)), H4, H5.
      rewrite bool_decide_eq_true_2 by reflexivity.
      destruct (rateLimited now d); simpl; [lia|].
      destruct (retryCount d <? maxRetries d)%Z; simpl; lia.
Qed.

End DetectorMore.

(** X17: a scan notifies a container change exactly when it changes
    the active container.  A scan that is not rate-limited ends with
    the first [div] of the section that has children and a height as
    active container (none when there is no section or no such [div]),
    and emits one container-changed notification, carrying it, when it
    is not the container that was active, and none when it is; a
    rate-limited scan keeps the active container and emits none. *)
Theorem container_change_notified_once :
  forall (config : ValidatorConfig) (now : Z) (doc : Document)
         (d : ContainerDetector.t),
    let r := ContainerDetector.updateActiveContainer config now doc d in
    let target := ContainerDetector.scanTarget doc in
    containerNotifications r.2
    = (if negb (ContainerDetector.rateLimited now d)
          && negb (bool_decide (ContainerDetector.activeContainer d
                                = div_node <$> target))
       then [div_node <$> target] else [])
    /\ ContainerDetector.activeContainer r.1
       = (if ContainerDetector.rateLimited now d
          then ContainerDetector.activeContainer d
          else div_node <$> target).
Proof.
  intros config now doc d.
  destruct (updateActiveContainer_frame config now doc d)
    as (_ & _ & _ & _ & _ & H6 & H7).
  split; [exact H6 | exact H7].
Qed.

(** X18: the retry budget.  Over any sequence of scans the bound
    [maxRetries] does not change and a retry count between 0 and the
    bound stays there; and while the page has no section, every retry
    scheduled is counted: the retry count grows by the number of
    retries scheduled, so no more than [maxRetries - retryCount] are
    scheduled. *)
Theorem retries_within_budget :
  forall (config : ValidatorConfig) (scans : list (Z * Document))
         (d : ContainerDetector.t),
    let r := ContainerDetector.runScans config scans d in
    (0 <= ContainerDetector.retryCount d <= ContainerDetector.maxRetries d)%Z ->
    ContainerDetector.maxRetries r.1 = ContainerDetector.maxRetries d
    /\ (0 <= ContainerDetector.retryCount r.1
        <= ContainerDetector.maxRetries d)%Z
    /\ (Forall (fun s => s.2 = None) scans ->
        ContainerDetector.retryCount r.1
        = (ContainerDetector.retryCount d
           + Z.of_nat (retriesScheduled r.2))%Z
        /\ (Z.of_nat (retriesScheduled r.2)
            <= ContainerDetector.maxRetries d
               - ContainerDetector.retryCount d)%Z).
Proof.
  intros config scans d r Hrc.
  destruct (runScans_frame config scans d) as (_ & _ & H3 & H4 & H5).
  cbv zeta in *. fold r in H3, H4, H5.
  split; [exact H3|]. split; [exact (H4 Hrc)|].
  intros Hall. pose proof (H5 Hall Hrc) as H. pose proof (H4 Hrc).
  split; [exact H | lia].
Qed.

Lemma retries_within_budget_witness :
  (Z.of_nat (retriesScheduled
               (ContainerDetector.runScans DEFAULT_CONFIG noSectionScans
                  ContainerDetector.initial).2) <= 3 - 0)%Z.
Proof.
  destruct (retries_within_budget DEFAULT_CONFIG noSectionScans
              ContainerDetector.initial) as (_ & _ & H).
  - simpl. lia.
  - apply H. repeat constructor.
Defined.

(** X19: scans never move [lastScanTime]: over any sequence of scans
    it and [minScanInterval] stay as they were, so a scan is
    rate-limited after the sequence exactly when it was before it; and
    [forceUpdate], at a time not below [minScanInterval], always ends
    with the container of the scan as active container. *)
Theorem scans_do_not_advance_limiter :
  forall (config : ValidatorConfig) (scans : list (Z * Document))
         (d : ContainerDetector.t),
    let r := ContainerDetector.runScans config scans d in
    ContainerDetector.lastScanTime r.1 = ContainerDetector.lastScanTime d
    /\ ContainerDetector.minScanInterval r.1
       = ContainerDetector.minScanInterval d
    /\ (forall now,
          ContainerDetector.rateLimited now r.1
          = ContainerDetector.rateLimited now d)
    /\ (forall now doc,
          (ContainerDetector.minScanInterval d <= now)%Z ->
          ContainerDetector.activeContainer
            (ContainerDetector.forceUpdate config now doc r.1).1
          = div_node <$> ContainerDetector.scanTarget doc).
Proof.
  intros config scans d r.
  destruct (runScans_frame config scans d) as (H1 & H2 & _).
  cbv zeta in *. fold r in H1, H2.
  split; [exact H1|]. split; [exact H2|]. split.
  - intros now. unfold ContainerDetector.rateLimited. now rewrite H1, H2.
  - intros now doc Hnow. unfold ContainerDetector.forceUpdate.
    set (d0 := ContainerDetector.mk _ _ 0 _ _ _).
    destruct (updateActiveContainer_frame config now doc d0)
      as (_ & _ & _ & _ & _ & _ & H7). cbv zeta in H7. rewrite H7.
    unfold ContainerDetector.rateLimited, d0. simpl. rewrite H2.
    replace (now - 0 <? ContainerDetector.minScanInterval d)%Z with false;
      [reflexivity|]. symmetry. apply Z.ltb_ge. lia.
Qed.

Lemma scans_do_not_advance_limiter_witness :
  ContainerDetector.activeContainer
    (ContainerDetector.forceUpdate DEFAULT_CONFIG 1000 (Some [divAbove])
       (ContainerDetector.runScans DEFAULT_CONFIG noSectionScans
          ContainerDetector.initial).1).1
  = Some 7.
Proof.
  destruct (scans_do_not_advance_limiter DEFAULT_CONFIG noSectionScans
              ContainerDetector.initial) as (_ & _ & _ & H).
  rewrite H; [reflexivity | simpl; lia].
Defined.
(** ** The debouncer *)

Section DebouncerProofs.
Context {C : Type}.
Implicit Types (d : Debouncer.t C) (key : string) (timer : nat).
Implicit Types (exc : option (string * nat)) (strict : bool).

Import Debouncer.

(** The state of a debouncer between two operations ([exc = None]), or
    while the callback of the timer [t] that was set for the key [k]
    runs ([exc = Some (k, t)]): every timer of the map of the class is
    held by the window, set for the key it stands under, but for the
    timer that is running.  With [strict], moreover, every timer of the
    window stands in the map under its key, and the key of the running
    callback stands for no other timer. *)
Local Abbreviation Inv strict exc d :=
  ((forall key timer,
       timers C d !! key = Some timer ->
       (exists callback due, pending C d !! timer = Some (key, callback, due))
       \/ exc = Some (key, timer))
   /\ (forall timer entry,
         pending C d !! timer = Some entry -> 0 < timer < nextTimer C d)
   /\ 0 < nextTimer C d
   /\ (forall key timer,
         exc = Some (key, timer) ->
         0 < timer < nextTimer C d /\ pending C d !! timer = None)
   /\ (strict = true ->
       (forall timer key callback due,
           pending C d !! timer = Some (key, callback, due) ->
           timers C d !! key = Some timer)
       /\ (forall key timer timer',
             exc = Some (key, timer) ->
             timers C d !! key = Some timer' -> timer' = timer))).

Lemma inv_initial strict : Inv strict None (initial C).
Proof.
  unfold initial. cbn [timers pending nextTimer].
  split; [|split; [|split; [lia|split]]].
  - intros key timer H. now rewrite lookup_empty in H.
  - intros timer entry H. now rewrite lookup_empty in H.
  - discriminate.
  - intros _. split; [|discriminate].
    intros timer key c due H. now rewrite lookup_empty in H.
Qed.

Lemma inv_consistent d : Inv true None d <-> consistent C d.
Proof.
  split.
  - intros (H1 & H2 & H3 & _ & H5). destruct (H5 eq_refl) as [H6 _].
    split; [|split; assumption]. intros key timer. split.
    + intros H. now destruct (H1 key timer H) as [H'|H'].
    + intros (c & due & H). now apply (H6 timer key c due).
  - intros (H1 & H2 & H3). split; [|split; [|split; [|split]]].
    + intros key timer H. left. now apply H1.
    + exact H2.
    + exact H3.
    + discriminate.
    + intros _. split; [|discriminate].
      intros timer key c due H. apply H1. eauto.
Qed.

Lemma inv_tracked d : Inv false None d <-> tracked C d.
Proof.
  split.
  - intros (H1 & H2 & H3 & _). split; [|split; assumption].
    intros key timer H. now destruct (H1 key timer H) as [H'|H'].
  - intros (H1 & H2 & H3). split; [|split; [|split; [|split]]].
    + intros key timer H. left. now apply H1.
    + exact H2.
    + exact H3.
    + discriminate.
    + discriminate.
Qed.

(** A timer of the map is not zero: the test [if (timer)] passes. *)
Lemma tracked_positive strict exc d key timer :
  Inv strict exc d -> timers C d !! key = Some timer -> 0 < timer.
Proof.
  intros (H1 & H2 & _ & H4 & _) H.
  destruct (H1 key timer H) as [(c & due & Hp)|He].
  - apply H2 in Hp. lia.
  - apply H4 in He. lia.
Qed.

(** A timer of the map stands under the key it was set for. *)
Lemma tracked_key strict exc d key key' timer c due :
  Inv strict exc d -> timers C d !! key = Some timer ->
  pending C d !! timer = Some (key', c, due) -> key' = key.
Proof.
  intros (H1 & _ & _ & H4 & _) Ht Hp.
  destruct (H1 key timer Ht) as [(c' & due' & Hp')|He]; [congruence|].
  apply H4 in He as [_ He]. congruence.
Qed.

Lemma clearIfSet_lookup strict exc d key t :
  Inv strict exc d ->
  clearIfSet C (timers C d !! key) (pending C d) !! t
  = match timers C d !! key with
    | Some timer => if decide (t = timer) then None else pending C d !! t
    | None => pending C d !! t
    end.
Proof.
  intros Hi. destruct (timers C d !! key) as [timer|] eqn:E; [|reflexivity].
  pose proof (tracked_positive strict exc d key timer Hi E) as Hpos.
  destruct timer as [|n]; [lia|]. cbn [clearIfSet].
  destruct (decide (t = S n)) as [->|Hne].
  - apply lookup_delete_eq.
  - now apply lookup_delete_ne.
Qed.

(** What the window holds after [debounce]. *)
Lemma debounce_lookup strict exc now key c delay d t :
  Inv strict exc d ->
  pending C (debounce C now key c delay d) !! t
  = if decide (t = nextTimer C d) then Some (key, c, (now + delay)%Z)
    else match timers C d !! key with
         | Some timer => if decide (t = timer) then None else pending C d !! t
         | None => pending C d !! t
         end.
Proof.
  intros Hi. unfold debounce. cbn [pending].
  destruct (decide (t = nextTimer C d)) as [->|Hne].
  - apply lookup_insert_eq.
  - rewrite lookup_insert_ne by congruence.
    now apply (clearIfSet_lookup strict exc).
Qed.

Lemma debounce_inv strict exc now key c delay d :
  Inv strict exc d ->
  (strict = true -> forall k t, exc = Some (k, t) -> k <> key) ->
  Inv strict exc (debounce C now key c delay d).
Proof.
  intros Hi Hkey. pose proof Hi as (H1 & H2 & H3 & H4 & H5).
  split; [|split; [|split; [|split]]].
  - intros key' timer H. unfold debounce in H. cbn [timers] in H.
    rewrite (debounce_lookup strict exc) by exact Hi.
    destruct (decide (key' = key)) as [->|Hne].
    + rewrite lookup_insert_eq in H. injection H as <-. left.
      exists c, (now + delay)%Z. now rewrite decide_True.
    + rewrite lookup_insert_ne in H by congruence.
      destruct (H1 key' timer H) as [(c' & due' & Hp)|He]; [|now right].
      left. exists c', due'.
      rewrite decide_False by (apply H2 in Hp; lia).
      destruct (timers C d !! key) as [t0|] eqn:E; [|exact Hp].
      rewrite decide_False; [exact Hp|]. intros ->.
      apply Hne. exact (tracked_key strict exc d key key' t0 c' due' Hi E Hp).
  - intros timer entry H.
    rewrite (debounce_lookup strict exc) in H by exact Hi.
    unfold debounce. cbn [nextTimer].
    destruct (decide (timer = nextTimer C d)) as [->|Hne]; [lia|].
    assert (Hp : pending C d !! timer = Some entry).
    { destruct (timers C d !! key) as [t0|]; [|exact H].
      destruct (decide (timer = t0)); [discriminate|exact H]. }
    apply H2 in Hp. lia.
  - unfold debounce. cbn [nextTimer]. lia.
  - intros k t He. destruct (H4 k t He) as [Hr Hn].
    rewrite (debounce_lookup strict exc) by exact Hi.
    unfold debounce. cbn [nextTimer]. split; [lia|].
    rewrite decide_False by lia.
    destruct (timers C d !! key) as [t0|]; [|exact Hn].
    now destruct (decide (t = t0)).
  - intros Hs. destruct (H5 Hs) as [H6 H7]. specialize (Hkey Hs). split.
    + intros timer key' c' due' H.
      rewrite (debounce_lookup strict exc) in H by exact Hi.
      unfold debounce. cbn [timers].
      destruct (decide (timer = nextTimer C d)) as [->|Hne].
      * injection H as <- <- <-. apply lookup_insert_eq.
      * assert (Hp : pending C d !! timer = Some (key', c', due')
                     /\ timers C d !! key <> Some timer).
        { destruct (timers C d !! key) as [t0|]; [|split; [exact H|discriminate]].
          destruct (decide (timer = t0)); [discriminate|].
          split; [exact H|congruence]. }
        destruct Hp as [Hp Hnt]. pose proof (H6 _ _ _ _ Hp) as Ht.
        rewrite lookup_insert_ne; [exact Ht|]. intros ->. contradiction.
    + intros k t t' He H. unfold debounce in H. cbn [timers] in H.
      rewrite lookup_insert_ne in H by (intros ->; now apply (Hkey k t)).
      now apply (H7 k).
Qed.

Lemma cancel_inv strict exc key d :
  Inv strict exc d -> Inv strict exc (cancel C key d).
Proof.
  intros Hi. pose proof Hi as (H1 & H2 & H3 & H4 & H5). unfold cancel.
  destruct (timers C d !! key) as [[|n]|] eqn:E; try exact Hi.
  cbn [timers pending nextTimer]. split; [|split; [|split; [|split]]].
  - intros key' timer H. apply lookup_delete_Some in H as [Hne H].
    destruct (H1 key' timer H) as [(c' & due' & Hp)|He]; [|now right].
    left. exists c', due'. rewrite lookup_delete_ne; [exact Hp|].
    intros <-. apply Hne. symmetry.
    exact (tracked_key strict exc d key key' (S n) c' due' Hi E Hp).
  - intros timer entry H. apply lookup_delete_Some in H as [_ H].
    now apply H2 in H.
  - exact H3.
  - intros k t He. destruct (H4 k t He) as [Hr Hn]. split; [exact Hr|].
    destruct (decide (t = S n)) as [->|Hne].
    + apply lookup_delete_eq.
    + now rewrite lookup_delete_ne by congruence.
  - intros Hs. destruct (H5 Hs) as [H6 H7]. split.
    + intros timer key' c' due' H. apply lookup_delete_Some in H as [Hne H].
      pose proof (H6 _ _ _ _ H) as Ht.
      rewrite lookup_delete_ne; [exact Ht|]. intros <-. congruence.
    + intros k t t' He H. apply lookup_delete_Some in H as [_ H].
      now apply (H7 k).
Qed.

Lemma foldr_delete_lookup {V : Type} (p : gmap nat V) (l : list nat) t :
  foldr (fun timer p => delete timer p) p l !! t
  = if bool_decide (t ∈ l) then None else p !! t.
Proof.
  induction l as [|x l IH]; simpl; [reflexivity|].
  destruct (decide (t = x)) as [->|Hne].
  - rewrite lookup_delete_eq, bool_decide_eq_true_2; [reflexivity|].
    apply elem_of_cons. now left.
  - rewrite lookup_delete_ne by congruence. rewrite IH.
    destruct (bool_decide (t ∈ l)) eqn:B.
    + apply bool_decide_eq_true in B.
      rewrite bool_decide_eq_true_2; [reflexivity|].
      apply elem_of_cons. now right.
    + apply bool_decide_eq_false in B.
      rewrite bool_decide_eq_false_2; [reflexivity|].
      intros [?|?]%elem_of_cons; contradiction.
Qed.

Lemma cancelAll_inv strict exc d :
  Inv strict exc d -> Inv strict exc (cancelAll C d).
Proof.
  intros Hi. pose proof Hi as (H1 & H2 & H3 & H4 & H5). unfold cancelAll.
  cbn [timers pending nextTimer]. split; [|split; [|split; [|split]]].
  - intros key timer H. now rewrite lookup_empty in H.
  - intros timer entry H. rewrite foldr_delete_lookup in H.
    destruct (bool_decide _); [discriminate|]. now apply H2 in H.
  - exact H3.
  - intros k t He. destruct (H4 k t He) as [Hr Hn]. split; [exact Hr|].
    rewrite foldr_delete_lookup. now destruct (bool_decide _).
  - intros Hs. destruct (H5 Hs) as [H6 _]. split.
    + intros timer key c due H. rewrite foldr_delete_lookup in H.
      case_bool_decide as E; [discriminate|]. exfalso. apply E.
      apply list_elem_of_fmap. exists (key, timer). split; [reflexivity|].
      apply elem_of_map_to_list. now apply (H6 timer key c due).
    + intros k t t' _ H. now rewrite lookup_empty in H.
Qed.

Lemma call_inv strict exc d (c : Call C) :
  Inv strict exc d ->
  (strict = true -> forall k t, exc = Some (k, t) -> debounces C k c = false) ->
  Inv strict exc (call C d c).
Proof.
  intros Hi Hc. destruct c as [now key cb delay|key|]; cbn [call].
  - apply debounce_inv; [exact Hi|]. intros Hs k t He ->.
    specialize (Hc Hs key t He). cbn [debounces] in Hc.
    now rewrite bool_decide_eq_true_2 in Hc.
  - now apply cancel_inv.
  - now apply cancelAll_inv.
Qed.

Lemma calls_inv strict exc (cs : list (Call C)) d :
  Inv strict exc d ->
  (strict = true ->
   forall k t, exc = Some (k, t) -> existsb (debounces C k) cs = false) ->
  Inv strict exc (foldl (call C) d cs).
Proof.
  revert d. induction cs as [|c cs IH]; intros d Hi Hc; [exact Hi|].
  cbn [foldl]. apply IH.
  - apply call_inv; [exact Hi|]. intros Hs k t He.
    specialize (Hc Hs k t He). cbn [existsb] in Hc.
    now apply orb_false_iff in Hc as [Hc _].
  - intros Hs k t He. specialize (Hc Hs k t He). cbn [existsb] in Hc.
    now apply orb_false_iff in Hc as [_ Hc].
Qed.

(** The window has taken the timer [timer], set for [key], and is about
    to call its callback. *)
Lemma taken_inv strict d key timer c due :
  Inv strict None d ->
  pending C d !! timer = Some (key, c, due) ->
  Inv strict (Some (key, timer))
      (mk C (timers C d) (delete timer (pending C d)) (nextTimer C d)).
Proof.
  intros Hi Hp. pose proof Hi as (H1 & H2 & H3 & _ & H5).
  cbn [timers pending nextTimer]. split; [|split; [|split; [|split]]].
  - intros key' timer' H.
    destruct (H1 key' timer' H) as [(c' & due' & Hp')|He]; [|discriminate].
    destruct (decide (timer' = timer)) as [->|Hne].
    + right. congruence.
    + left. exists c', due'. now rewrite lookup_delete_ne by congruence.
  - intros timer' entry H. apply lookup_delete_Some in H as [_ H].
    now apply H2 in H.
  - exact H3.
  - intros k t [= -> ->]. split; [now apply H2 in Hp|].
    apply lookup_delete_eq.
  - intros Hs. destruct (H5 Hs) as [H6 _]. split.
    + intros timer' key' c' due' H. apply lookup_delete_Some in H as [_ H].
      now apply (H6 timer' key' c' due').
    + intros k t t' [= -> ->] H. pose proof (H6 _ _ _ _ Hp). congruence.
Qed.

(** The callback has returned and its key is deleted. *)
Lemma returned_inv strict d key timer :
  Inv strict (Some (key, timer)) d ->
  Inv strict None
      (mk C (delete key (timers C d)) (pending C d) (nextTimer C d)).
Proof.
  intros (H1 & H2 & H3 & H4 & H5). cbn [timers pending nextTimer].
  split; [|split; [|split; [|split]]].
  - intros key' timer' H. apply lookup_delete_Some in H as [Hne H].
    destruct (H1 key' timer' H) as [Hp|[= -> ->]]; [now left|].
    contradiction.
  - exact H2.
  - exact H3.
  - discriminate.
  - intros Hs. destruct (H5 Hs) as [H6 H7]. split; [|discriminate].
    intros timer' key' c' due' H. pose proof (H6 _ _ _ _ H) as Ht.
    rewrite lookup_delete_ne; [exact Ht|]. intros <-.
    rewrite (H7 key timer timer' eq_refl Ht) in H.
    destruct (H4 key timer eq_refl) as [_ Hn]. congruence.
Qed.

Lemma fire_inv strict timer during returned d :
  Inv strict None d ->
  (forall key c due,
      pending C d !! timer = Some (key, c, due) ->
      returned = true
      /\ (strict = true -> existsb (debounces C key) during = false)) ->
  Inv strict None (fire C timer during returned d).1.
Proof.
  intros Hi Hw. unfold fire.
  destruct (pending C d !! timer) as [[[key c] due]|] eqn:E; [|exact Hi].
  destruct (Hw key c due eq_refl) as [-> Hq]. cbn [fst].
  apply (returned_inv strict _ key timer).
  apply calls_inv.
  - now apply (taken_inv strict d key timer c due).
  - intros Hs k t [= -> ->]. now apply Hq.
Qed.

Lemma step_state (d : t C) (called : list C) op :
  (step C (d, called) op).1 = (step C (d, []) op).1.
Proof.
  destruct op as [c|timer during returned]; cbn [step]; [reflexivity|].
  now destruct (fire C timer during returned d).
Qed.

Lemma run_snoc (ops : list (Op C)) op :
  run C (ops ++ [op]) = step C (run C ops) op.
Proof. unfold run. apply foldl_snoc. Qed.

(** While every callback returns, the timers of the map are held by
    the window. *)
Lemma run_tracked (ops : list (Op C)) :
  allReturned C ops = true -> Inv false None (run C ops).1.
Proof.
  induction ops as [|op ops IH] using rev_ind; intros Hr.
  - apply inv_initial.
  - unfold allReturned in Hr. rewrite forallb_app in Hr.
    apply andb_true_iff in Hr as [Hr Hop]. specialize (IH Hr).
    rewrite run_snoc. destruct (run C ops) as [d called]. cbn [fst] in IH.
    rewrite step_state.
    destruct op as [c|timer during returned]; cbn [step fst].
    + apply call_inv; [exact IH|discriminate].
    + pose proof (fire_inv false timer during returned d IH) as H.
      destruct (fire C timer during returned d) as [d' cs]. apply H.
      intros key c due _. cbn [forallb] in Hop.
      rewrite andb_true_r in Hop. split; [exact Hop|discriminate].
Qed.

(** While every callback is well behaved, the map and the window
    agree. *)
Lemma steps_consistent (ops : list (Op C)) d called :
  Inv true None d -> allWellBehaved C d ops = true ->
  Inv true None (foldl (step C) (d, called) ops).1.
Proof.
  revert d called. induction ops as [|op ops IH]; intros d called Hi Hw;
    [exact Hi|].
  cbn [foldl allWellBehaved] in *. apply andb_true_iff in Hw as [Hop Hw].
  destruct (step C (d, called) op) as [d' called'] eqn:Es.
  assert (Hd' : d' = (step C (d, []) op).1).
  { rewrite <- step_state with (called := called). now rewrite Es. }
  rewrite <- Hd' in Hw. apply IH; [|exact Hw]. rewrite Hd'.
  destruct op as [c|timer during returned]; cbn [step fst].
  - apply call_inv; [exact Hi|discriminate].
  - pose proof (fire_inv true timer during returned d Hi) as H.
    destruct (fire C timer during returned d) as [d'' cs]. apply H.
    intros key c due Hp. cbn [wellBehaved] in Hop. rewrite Hp in Hop.
    apply andb_true_iff in Hop as [Hret Hq]. split; [exact Hret|].
    intros _. now apply negb_true_iff in Hq.
Qed.

Lemma run_consistent (ops : list (Op C)) :
  allWellBehaved C (initial C) ops = true -> consistent C (run C ops).1.
Proof.
  intros Hw. apply inv_consistent. unfold run.
  apply steps_consistent; [apply inv_initial|exact Hw].
Qed.

(** What the window holds after [debounce], from a state where the map
    and the window agree. *)
Lemma debounce_pending now key c delay d timer key' c' due' :
  consistent C d ->
  pending C (debounce C now key c delay d) !! timer = Some (key', c', due')
  <-> (timer = nextTimer C d /\ key' = key /\ c' = c
       /\ due' = (now + delay)%Z)
      \/ (key' <> key /\ pending C d !! timer = Some (key', c', due')).
Proof.
  intros Hc. pose proof Hc as (H1 & H2 & H3).
  apply inv_consistent in Hc.
  rewrite (debounce_lookup true None) by exact Hc.
  destruct (decide (timer = nextTimer C d)) as [->|Hne].
  - split.
    + intros [= <- <- <-]. left. auto.
    + intros [(_ & -> & -> & ->)|[_ H]]; [reflexivity|].
      apply H2 in H. lia.
  - destruct (timers C d !! key) as [t|] eqn:E.
    + destruct (decide (timer = t)) as [->|Hne'].
      * split; [discriminate|].
        intros [(-> & _)|[Hk H]]; [contradiction|].
        exfalso. apply Hk.
        exact (tracked_key true None d key key' t c' due' Hc E H).
      * split.
        -- intros H. right. split; [|exact H]. intros ->.
           apply Hne'. assert (timers C d !! key = Some timer)
             by (apply H1; eauto). congruence.
        -- intros [(-> & _)|[_ H]]; [contradiction|exact H].
    + split.
      * intros H. right. split; [|exact H]. intros ->.
        assert (timers C d !! key = Some timer) by (apply H1; eauto).
        congruence.
      * intros [(-> & _)|[_ H]]; [contradiction|exact H].
Qed.

End DebouncerProofs.

(** X20: the debouncer and the window.  After any history of calls and
    of timers run by the window: as long as every callback has
    returned, a key that is pending has its timer held by the window,
    set for this key; and as long as every callback has returned
    without debouncing the key it was running for, the converse holds
    too: a key is pending exactly when the window holds a timer set for
    it, and the window never holds two timers set for the same key. *)
Theorem debouncer_tracks_window_timers :
  forall (C : Type) (ops : list (Debouncer.Op C)),
    let d := (Debouncer.run C ops).1 in
    (Debouncer.allReturned C ops = true ->
     forall key,
       Debouncer.isPending C key d = true ->
       exists timer callback due,
         Debouncer.timers C d !! key = Some timer
         /\ Debouncer.pending C d !! timer = Some (key, callback, due))
    /\ (Debouncer.allWellBehaved C (Debouncer.initial C) ops = true ->
        (forall key,
            Debouncer.isPending C key d = true
            <-> exists timer callback due,
                  Debouncer.pending C d !! timer = Some (key, callback, due))
        /\ (forall key timer timer' callback callback' due due',
              Debouncer.pending C d !! timer = Some (key, callback, due) ->
              Debouncer.pending C d !! timer' = Some (key, callback', due') ->
              timer = timer')).
Proof.
  intros C ops d. split.
  - intros Hr key Hp. pose proof (run_tracked ops Hr) as Hi. fold d in Hi.
    apply inv_tracked in Hi as (H1 & _).
    unfold Debouncer.isPending in Hp. apply bool_decide_eq_true in Hp.
    destruct Hp as [timer Ht]. exists timer.
    destruct (H1 key timer Ht) as (c & due & Hp). eauto.
  - intros Hw. pose proof (run_consistent ops Hw) as Hc. fold d in Hc.
    pose proof Hc as (H1 & _). split.
    + intros key. unfold Debouncer.isPending. rewrite bool_decide_eq_true.
      split.
      * intros [timer Ht]. apply H1 in Ht as (c & due & Ht). eauto.
      * intros (timer & c & due & Hp). exists timer. apply H1. eauto.
    + intros key timer timer' c c' due due' Hp Hp'.
      assert (Debouncer.timers C d !! key = Some timer) by (apply H1; eauto).
      assert (Debouncer.timers C d !! key = Some timer') by (apply H1; eauto).
      congruence.
Qed.

Lemma debouncer_tracks_window_timers_witness :
  exists timer callback due,
    Debouncer.timers string (Debouncer.run string sampleFirings).1
      !! "validate-ae_sf_account" = Some timer
    /\ Debouncer.pending string (Debouncer.run string sampleFirings).1
         !! timer
       = Some ("validate-ae_sf_account", callback, due).
Proof.
  destruct (debouncer_tracks_window_timers string sampleFirings) as [H _].
  apply H; reflexivity.
Defined.

(** X21: the latest [debounce] of a key supersedes the earlier ones.
    After a history in which every callback has returned without
    debouncing the key it was running for, right after
    [debounce(key, callback, delay)] the window holds exactly one timer
    set for this key, the new one, with this callback and due [delay]
    after the call; the timers set for other keys are the ones that
    were there. *)
Theorem debounce_supersedes :
  forall (C : Type) (ops : list (Debouncer.Op C)) (now : Z) (key : string)
         (callback : C) (delay : Z),
    let d := (Debouncer.run C ops).1 in
    let d' := Debouncer.debounce C now key callback delay d in
    Debouncer.allWellBehaved C (Debouncer.initial C) ops = true ->
    (forall timer callback' due',
        Debouncer.pending C d' !! timer = Some (key, callback', due')
        <-> timer = Debouncer.nextTimer C d /\ callback' = callback
            /\ due' = (now + delay)%Z)
    /\ (forall timer key' callback' due',
          key' <> key ->
          (Debouncer.pending C d' !! timer = Some (key', callback', due')
           <-> Debouncer.pending C d !! timer = Some (key', callback', due'))).
Proof.
  intros C ops now key callback delay d d' Hw.
  pose proof (run_consistent ops Hw) as Hc. fold d in Hc. split.
  - intros timer c' due'. unfold d'.
    rewrite (debounce_pending _ _ _ _ _ _ _ _ _ Hc).
    split.
    + intros [(-> & _ & -> & ->)|[Hne _]]; [auto|contradiction].
    + intros (-> & -> & ->). left. auto.
  - intros timer key' c' due' Hne. unfold d'.
    rewrite (debounce_pending _ _ _ _ _ _ _ _ _ Hc). split.
    + intros [(_ & -> & _)|[_ H]]; [contradiction|exact H].
    + intros H. right. auto.
Qed.

Lemma debounce_supersedes_witness :
  Debouncer.pending string
    (Debouncer.debounce string 500 "mutation-scan" "rescan" 300
       (Debouncer.run string sampleFirings).1) !! 4
  = Some ("validate-ae_sf_account", "third", 500%Z).
Proof.
  destruct (debounce_supersedes string sampleFirings 500 "mutation-scan"
              "rescan" 300 eq_refl) as [_ Hother].
  apply Hother; [discriminate | reflexivity].
Defined.

(** X22: after a history in which every callback has returned without
    debouncing the key it was running for, [cancel(key)] leaves no
    timer set for the key in the window and the key not pending, and
    does not touch the timers set for other keys. *)
Theorem cancel_clears_key :
  forall (C : Type) (ops : list (Debouncer.Op C)) (key : string),
    let d := (Debouncer.run C ops).1 in
    let d' := Debouncer.cancel C key d in
    Debouncer.allWellBehaved C (Debouncer.initial C) ops = true ->
    Debouncer.isPending C key d' = false
    /\ (forall timer callback due,
          Debouncer.pending C d' !! timer <> Some (key, callback, due))
    /\ (forall timer key' callback due,
          key' <> key ->
          (Debouncer.pending C d' !! timer = Some (key', callback, due)
           <-> Debouncer.pending C d !! timer = Some (key', callback, due))).
Proof.
  intros C ops key d d' Hw.
  pose proof (run_consistent ops Hw) as Hc. fold d in Hc.
  pose proof Hc as (H1 & H2 & _).
  assert (Hc' : Debouncer.consistent C d').
  { apply inv_consistent. unfold d'. apply cancel_inv.
    now apply inv_consistent. }
  pose proof Hc' as (H1' & _).
  assert (Hnone : Debouncer.timers C d' !! key = None).
  { unfold d', Debouncer.cancel.
    destruct (Debouncer.timers C d !! key) as [[|n]|] eqn:E.
    - apply H1 in E as (c & due & E). apply H2 in E. lia.
    - simpl. apply lookup_delete_eq.
    - exact E. }
  split; [|split].
  - unfold Debouncer.isPending. apply bool_decide_eq_false.
    rewrite Hnone. now intros [? ?].
  - intros timer c due H.
    assert (Debouncer.timers C d' !! key = Some timer) by (apply H1'; eauto).
    congruence.
  - intros timer key' c due Hne. unfold d', Debouncer.cancel.
    destruct (Debouncer.timers C d !! key) as [[|n]|] eqn:E;
      try reflexivity.
    simpl. destruct (decide (timer = S n)) as [->|Hnt].
    + rewrite lookup_delete_eq. split; [discriminate|]. intros H.
      exfalso. apply Hne. apply inv_consistent in Hc.
      exact (tracked_key true None d key key' (S n) c due Hc E H).
    + now rewrite lookup_delete_ne by congruence.
Qed.

Lemma cancel_clears_key_witness :
  Debouncer.isPending string "validate-ae_sf_account"
    (Debouncer.cancel string "validate-ae_sf_account"
       (Debouncer.run string sampleFirings).1) = false.
Proof.
  exact (proj1 (cancel_clears_key string sampleFirings
                  "validate-ae_sf_account" eq_refl)).
Defined.

(** X26: a callback that debounces the key it runs for escapes the
    debouncer.  When the window runs a timer set for [key] and the last
    call of its callback on the debouncer is
    [debounce(key, again, delay)], then, once the callback has
    returned, the key is not pending although the window holds the new
    timer set for it; [cancel(key)] leaves that timer in the window,
    and when the window runs it the callback [again] is called. *)
Theorem rearming_callback_escapes :
  forall (C : Type) (d : Debouncer.t C) (timer : nat) (key : string)
         (callback again : C) (due now delay : Z)
         (during : list (Debouncer.Call C)),
    Debouncer.pending C d !! timer = Some (key, callback, due) ->
    let d' :=
      (Debouncer.fire C timer
         (during ++ [Debouncer.Debounce C now key again delay]) true d).1 in
    Debouncer.isPending C key d' = false
    /\ exists timer',
         Debouncer.pending C d' !! timer'
         = Some (key, again, (now + delay)%Z)
         /\ Debouncer.pending C (Debouncer.cancel C key d') !! timer'
            = Some (key, again, (now + delay)%Z)
         /\ (Debouncer.fire C timer' [] true (Debouncer.cancel C key d')).2
            = [again].
Proof.
  intros C d timer key callback again due now delay during Hp d'.
  unfold d', Debouncer.fire. rewrite Hp, foldl_snoc. cbn [fst].
  set (d1 := foldl (Debouncer.call C) _ during).
  cbn [Debouncer.call]. unfold Debouncer.debounce.
  cbn [Debouncer.timers Debouncer.pending Debouncer.nextTimer].
  assert (Hnone : delete key (<[key := Debouncer.nextTimer C d1]>
                                (Debouncer.timers C d1)) !! key = None)
    by apply lookup_delete_eq.
  split.
  - unfold Debouncer.isPending. cbn [Debouncer.timers].
    apply bool_decide_eq_false. rewrite Hnone. now intros [? ?].
  - exists (Debouncer.nextTimer C d1). unfold Debouncer.cancel.
    cbn [Debouncer.timers Debouncer.pending]. rewrite Hnone.
    cbn [Debouncer.pending]. rewrite lookup_insert_eq. auto.
Qed.

Lemma rearming_callback_escapes_witness :
  Debouncer.isPending string "mutation-scan"
    (Debouncer.fire string 3
       ([] ++ [Debouncer.Debounce string 450 "mutation-scan" "scan" 300])
       true (Debouncer.run string sampleDebounces).1).1 = false.
Proof.
  exact (proj1 (rearming_callback_escapes string
                  (Debouncer.run string sampleDebounces).1 3 "mutation-scan"
                  "scan" "scan" 450 450 300 [] eq_refl)).
Defined.

(** ** The performance monitor *)

Section Samples.
Context {D : Type}.
Implicit Types (ds : list D) (d : D).

Lemma lastN_length n ds : length (lastN n ds) = Nat.min n (length ds).
Proof. unfold lastN. rewrite length_drop. lia. Qed.

(** Pushing a sample and shifting when there are more than ten keeps
    the last ten. *)
Lemma lastN_push ds d :
  let samples := lastN PerformanceMonitor.maxSamples ds ++ [d] in
  (if (PerformanceMonitor.maxSamples <? length samples)%nat
   then tail samples else samples)
  = lastN PerformanceMonitor.maxSamples (ds ++ [d]).
Proof.
  cbv zeta. rewrite length_app, lastN_length. simpl length at 1.
  unfold lastN, PerformanceMonitor.maxSamples. rewrite length_app. simpl length.
  destruct (10 <? 10 `min` length ds + 1)%nat eqn:E.
  - apply Nat.ltb_lt in E.
    replace (length ds + 1 - 10) with (S (length ds - 10)) by lia.
    rewrite drop_app_le by lia.
    destruct (drop (length ds - 10) ds) as [|x xs] eqn:Hd.
    + apply (f_equal length) in Hd. rewrite length_drop in Hd. simpl in Hd.
      lia.
    + simpl. f_equal.
      replace (S (length ds - 10)) with ((length ds - 10) + 1) by lia.
      now rewrite <- drop_drop, Hd.
  - apply Nat.ltb_ge in E.
    replace (length ds - 10) with 0 by lia.
    replace (length ds + 1 - 10) with 0 by lia. reflexivity.
Qed.

Lemma recordAll_snoc (ms : list (string * D)) operation d :
  PerformanceMonitor.recordAll D (ms ++ [(operation, d)])
  = PerformanceMonitor.record D operation d (PerformanceMonitor.recordAll D ms).
Proof. unfold PerformanceMonitor.recordAll. now rewrite foldl_snoc. Qed.

Lemma recordAll_samples (ms : list (string * D)) operation :
  default [] (PerformanceMonitor.recordAll D ms !! operation)
  = lastN PerformanceMonitor.maxSamples
          (PerformanceMonitor.durationsOf D operation ms)
  /\ (PerformanceMonitor.recordAll D ms !! operation = None
      <-> PerformanceMonitor.durationsOf D operation ms = []).
Proof.
  induction ms as [|[op d] ms [IH1 IH2]] using rev_ind.
  - unfold PerformanceMonitor.recordAll. simpl. now rewrite lookup_empty.
  - rewrite recordAll_snoc. unfold PerformanceMonitor.durationsOf in *.
    rewrite List.filter_app, fmap_app. simpl.
    unfold PerformanceMonitor.record.
    case_bool_decide as E.
    + subst op. rewrite lookup_insert_eq. simpl. rewrite IH1. split.
      * apply lastN_push.
      * split; [discriminate|]. intros H. now destruct (_.*2).
    + rewrite lookup_insert_ne by exact E. simpl. now rewrite app_nil_r.
Qed.

End Samples.

(** X23: the monitor keeps the last ten samples of each operation: for
    every run of measurements recorded from a new monitor, the samples
    held for an operation are the last ten durations measured for it
    (all of them when there are fewer), in the order measured; so the
    sample count that [getStats] reports never exceeds ten, and an
    operation has an entry exactly when it has been measured. *)
Theorem monitor_keeps_last_ten :
  forall (D : Type) (measurements : list (string * D)) (operation : string),
    let metrics := PerformanceMonitor.recordAll D measurements in
    default [] (metrics !! operation)
    = lastN 10 (PerformanceMonitor.durationsOf D operation measurements)
    /\ default 0 (PerformanceMonitor.sampleCount D operation metrics) <= 10
    /\ (metrics !! operation = None
        <-> PerformanceMonitor.durationsOf D operation measurements = []).
Proof.
  intros D measurements operation metrics.
  destruct (recordAll_samples measurements operation) as [H1 H2].
  fold metrics in H1, H2. split; [exact H1|]. split; [|exact H2].
  unfold PerformanceMonitor.sampleCount.
  destruct (metrics !! operation) as [samples|]; simpl in *; [|lia].
  rewrite H1, lastN_length. unfold PerformanceMonitor.maxSamples. lia.
Qed.

(** ** Records and statistics after a full run *)

Section RecordsAfterRun.
Variable engineConfig : ValidatorEngineConfig.
Variable rules : list ValidationRule.
Variable now : Z.
Variable page : Dom.

Local Abbreviation recordOf :=
  (validatedRecord engineConfig rules now page).

(** Among validated records, those marked valid are those whose
    validation passes. *)
Lemma validated_outcomes (l : list FieldData.t) :
  Z.of_nat (length (List.filter
    (fun fd => bool_decide (FieldData.isValid fd = Some true))
    (recordOf <$> l)))
  = ValidationOrchestrator.passed engineConfig rules now page l
  /\ Z.of_nat (length (List.filter
       (fun fd => bool_decide (FieldData.isValid fd = Some false))
       (recordOf <$> l)))
     = ValidationOrchestrator.failed engineConfig rules now page l.
Proof.
  unfold ValidationOrchestrator.passed, ValidationOrchestrator.failed.
  induction l as [|fd l [IH1 IH2]]; [split; reflexivity|].
  cbn [fmap list_fmap List.filter].
  unfold validatedRecord at 1 3. simpl FieldData.isValid.
  destruct (isValid _); simpl negb;
    repeat case_bool_decide; try congruence; cbn [length]; split; lia.
Qed.

End RecordsAfterRun.

(** X24: the records are right after a full run.  When every record
    sits under the id of its element, [runFullValidation] leaves as
    many records marked valid as there are fields whose validation
    passes and as many marked invalid as there are fields whose
    validation fails; so [updateFromFields] on the registry it leaves
    reports the passes as [validFields] and the failures as
    [invalidFields]. *)
Theorem records_aggregate_after_run :
  forall (engineConfig : ValidatorEngineConfig) (rules : list ValidationRule)
         (now later : Z) (page : Dom) (o : ValidationOrchestrator.t),
    let fields :=
      (map_to_list (FieldManager.registeredFields
                      (ValidationOrchestrator.fieldManager o))).*2 in
    keyedByElementId page (ValidationOrchestrator.fieldManager o) ->
    exists o' evs,
      ValidationOrchestrator.runFullValidation engineConfig rules now page o
      = Some (o', evs)
      /\ ValidationOrchestrator.recordedValid o'
         = ValidationOrchestrator.passed engineConfig rules now page fields
      /\ ValidationOrchestrator.recordedInvalid o'
         = ValidationOrchestrator.failed engineConfig rules now page fields
      /\ validFields
           (StatsManager.updateFromFields later
              (FieldManager.getAllFields
                 (ValidationOrchestrator.fieldManager o')))
         = ValidationOrchestrator.passed engineConfig rules now page fields
      /\ invalidFields
           (StatsManager.updateFromFields later
              (FieldManager.getAllFields
                 (ValidationOrchestrator.fieldManager o')))
         = ValidationOrchestrator.failed engineConfig rules now page fields.
Proof.
  intros engineConfig rules now later page o fields Hkeyed.
  destruct (runFullValidation_registry engineConfig rules now page o Hkeyed)
    as (o' & evs & Hrun & Hrec & _).
  exists o', evs. split; [exact Hrun|].
  assert (Hmap : FieldManager.registeredFields
                   (ValidationOrchestrator.fieldManager o')
                 = validatedRecord engineConfig rules now page
                   <$> FieldManager.registeredFields
                         (ValidationOrchestrator.fieldManager o)).
  { apply map_eq. intros id. now rewrite Hrec, lookup_fmap. }
  assert (Hvalues : (map_to_list (FieldManager.registeredFields
                       (ValidationOrchestrator.fieldManager o'))).*2
                    = validatedRecord engineConfig rules now page <$> fields).
  { rewrite Hmap, map_to_list_fmap. unfold fields.
    rewrite <- !list_fmap_compose. apply list_fmap_ext. now intros i [k fd]. }
  destruct (validated_outcomes engineConfig rules now page fields) as [Hp Hf].
  assert (Hv : ValidationOrchestrator.recordedValid o'
               = ValidationOrchestrator.passed engineConfig rules now page
                   fields).
  { unfold ValidationOrchestrator.recordedValid. now rewrite Hvalues. }
  assert (Hi : ValidationOrchestrator.recordedInvalid o'
               = ValidationOrchestrator.failed engineConfig rules now page
                   fields).
  { unfold ValidationOrchestrator.recordedInvalid. now rewrite Hvalues. }
  split; [exact Hv|]. split; [exact Hi|].
  unfold StatsManager.updateFromFields, FieldManager.getAllFields.
  unfold ValidationOrchestrator.recordedValid in Hv.
  unfold ValidationOrchestrator.recordedInvalid in Hi.
  cbv zeta. simpl.
  set (fm' := ValidationOrchestrator.fieldManager o') in *.
  change ((FieldManager.entries fm').*2) with (FieldManager.values fm').
  rewrite <- (filter_length_perm _ _ _ (values_perm fm')) in Hv.
  rewrite <- (filter_length_perm _ _ _ (values_perm fm')) in Hi.
  destruct (updateFromFields_fold (FieldManager.values fm')
              (StatsManager.setTotal
                 (Z.of_nat (length (FieldManager.entries fm')))
                 StatsManager.reset)) as (_ & Hv' & Hi' & _).
  cbv zeta in Hv', Hi'. rewrite Hv', Hi', Hv, Hi. simpl.
  split; reflexivity.
Qed.

Lemma records_aggregate_after_run_witness :
  exists o' evs,
    ValidationOrchestrator.runFullValidation ValidatorEngine.defaultConfig
      initializeDefaultRules 1000 samplePage sampleOrchestrator
    = Some (o', evs)
    /\ ValidationOrchestrator.recordedValid o' = 1%Z
    /\ ValidationOrchestrator.recordedInvalid o' = 0%Z.
Proof.
  destruct (records_aggregate_after_run ValidatorEngine.defaultConfig
              initializeDefaultRules 1000 2000 samplePage sampleOrchestrator)
    as (o' & evs & Hrun & Hv & Hi & _).
  - intros id fd. simpl. unfold sampleRegistry. simpl.
    intros [<- <-]%lookup_singleton_Some. reflexivity.
  - exists o', evs. split; [exact Hrun|].
    rewrite Hv, Hi. split; vm_compute; reflexivity.
Defined.

(** X25: a scan keeps the registry keyed by element id.  When every
    record sits under the id of its element before [scanAndRegister],
    the same holds after it: the records kept are untouched and each
    new one is stored under the id of the element it was made for. *)
Theorem scan_keeps_registry_keyed :
  forall (config : ValidatorConfig) (page : Dom) (container : list NodeRef)
         (fm : FieldManager.t),
    keyedByElementId page fm ->
    keyedByElementId page
      (FieldManager.scanAndRegister config page container fm).1.
Proof.
  intros config page container fm Hkeyed id fd Hfd.
  assert (Hid : id ∈ FieldManager.idsOf page
                       (FieldManager.scannedFields page container)).
  { rewrite <- (scanAndRegister_dom config page container fm).
    apply elem_of_dom. now exists fd. }
  pose proof (scanAndRegister_records config page container fm id Hid) as H.
  cbv zeta in H.
  destruct (FieldManager.registeredFields fm !! id) as [old|] eqn:Eold.
  - destruct H as [H _]. rewrite Hfd in H. injection H as ->.
    now apply Hkeyed.
  - destruct H as (field & _ & Hel & H & _). rewrite Hfd in H.
    injection H as ->. exact Hel.
Qed.

Lemma scan_keeps_registry_keyed_witness :
  exists fieldData,
    FieldManager.registeredFields
      (FieldManager.scanAndRegister DEFAULT_CONFIG samplePage sampleContainer
                                    sampleRegistry).1 !! "ae_sf_account"
    = Some fieldData
    /\ el_id (samplePage (FieldData.element fieldData)) = "ae_sf_account".
Proof.
  assert (Hkeyed : keyedByElementId samplePage sampleRegistry).
  { intros id fd. unfold sampleRegistry. simpl.
    intros [<- <-]%lookup_singleton_Some. reflexivity. }
  exists (FieldData.mk 0 None [] 0).
  assert (Hrec : FieldManager.registeredFields
                   (FieldManager.scanAndRegister DEFAULT_CONFIG samplePage
                      sampleContainer sampleRegistry).1 !! "ae_sf_account"
                 = Some (FieldData.mk 0 None [] 0)) by (vm_compute; reflexivity).
  split; [exact Hrec|].
  exact (scan_keeps_registry_keyed DEFAULT_CONFIG samplePage sampleContainer
           sampleRegistry Hkeyed "ae_sf_account" _ Hrec).
Defined.
(** ** The order of the registry *)

Lemma StronglySorted_among {A : Type} (R R' : A -> A -> Prop) (l : list A) :
  (forall a b, a ∈ l -> b ∈ l -> R a b -> R' a b) ->
  StronglySorted R l -> StronglySorted R' l.
Proof.
  intros H Hs. induction Hs as [|x l Hl IH Hx]; [constructor|].
  constructor.
  - apply IH. intros a b Ha Hb. apply H; apply elem_of_cons; now right.
  - rewrite Forall_forall in Hx. apply Forall_forall. intros y Hy.
    apply H; [apply elem_of_cons; now left|apply elem_of_cons; now right|].
    now apply Hx.
Qed.

Section RegistryOrder.
Variable config : ValidatorConfig.
Variable page : Dom.
Implicit Types (fm : FieldManager.t) (fs : list NodeRef) (ids : list string).

Local Abbreviation regs := FieldManager.registeredFields.
Local Abbreviation time := FieldManager.insertionTime.
Local Abbreviation earlier fm :=
  (fun a b : string => time fm a <= time fm b).

Lemma insertByTime_sorted fm e l :
  StronglySorted (fun a b => time fm a.1 <= time fm b.1) l ->
  StronglySorted (fun a b => time fm a.1 <= time fm b.1)
                 (FieldManager.insertByTime fm e l).
Proof.
  induction 1 as [|x l Hl IH Hx]; simpl.
  - repeat constructor.
  - destruct (time fm e.1 <=? time fm x.1)%nat eqn:E.
    + apply Nat.leb_le in E. constructor; [now constructor|].
      constructor; [exact E|].
      eapply Forall_impl; [exact Hx|]. simpl. intros y Hy. lia.
    + apply Nat.leb_gt in E. constructor; [exact IH|].
      rewrite (insertByTime_perm fm e l). constructor; [lia|exact Hx].
Qed.

(** The keys are visited by ascending time of insertion. *)
Lemma keys_sorted fm : StronglySorted (earlier fm) (FieldManager.keys fm).
Proof.
  unfold FieldManager.keys.
  apply (StronglySorted_fmap fst (fun a b => time fm a.1 <= time fm b.1));
    [auto|].
  unfold FieldManager.entries.
  induction (map_to_list (regs fm)) as [|e l IH]; simpl; [constructor|].
  now apply insertByTime_sorted.
Qed.

Lemma time_registered fm id :
  wellFormed fm -> id ∈ dom (regs fm) ->
  FieldManager.insertedAt fm !! id = Some (time fm id).
Proof.
  intros (Hd & _) Hid. rewrite <- Hd in Hid.
  apply elem_of_dom in Hid as [t Ht].
  unfold FieldManager.insertionTime. now rewrite Ht.
Qed.

(** In a well-formed registry the order of the keys is the only one
    that ascends with the times of insertion. *)
Lemma keys_unique fm ids :
  wellFormed fm -> StronglySorted (earlier fm) ids ->
  ids ≡ₚ FieldManager.keys fm -> FieldManager.keys fm = ids.
Proof.
  intros Hwf Hs Hp. symmetry.
  apply (StronglySorted_unique_strong (earlier fm));
    [|exact Hs|apply keys_sorted|exact Hp].
  intros a b Ha Hb Hab Hba. rewrite Hp in Ha.
  apply keys_dom in Ha, Hb.
  pose proof (time_registered fm a Hwf Ha) as Ta.
  pose proof (time_registered fm b Hwf Hb) as Tb.
  destruct Hwf as (_ & _ & Hinj). apply (Hinj a b (time fm a)); [exact Ta|].
  rewrite Tb. f_equal. lia.
Qed.

Lemma keys_elements fm ids :
  NoDup ids -> (forall id, id ∈ ids <-> id ∈ dom (regs fm)) ->
  ids ≡ₚ FieldManager.keys fm.
Proof.
  intros Hnd Hel. apply NoDup_Permutation; [exact Hnd|apply keys_NoDup|].
  intros id. now rewrite Hel, keys_dom.
Qed.

Lemma wellFormed_initial observing :
  wellFormed (FieldManager.initial observing).
Proof.
  unfold wellFormed, FieldManager.initial. simpl.
  split; [now rewrite !dom_empty_L|].
  split; intros id; intros; now rewrite lookup_empty in *.
Qed.

(** Registering a new id puts it behind the others. *)
Lemma registerField_order f fm :
  wellFormed fm -> el_id (page f) ∉ dom (regs fm) ->
  let fm1 := (FieldManager.registerField config page f fm).1 in
  wellFormed fm1
  /\ FieldManager.keys fm1 = FieldManager.keys fm ++ [el_id (page f)].
Proof.
  intros Hwf Hnew fm1. set (id := el_id (page f)) in *.
  assert (Hhas : FieldManager.hasField id fm = false).
  { apply not_true_is_false. intros H. now apply hasField_dom in H. }
  assert (Hr : regs fm1 = <[id := FieldData.mk f None [] 0]> (regs fm)).
  { apply registerField_registered. }
  assert (Hs : FieldManager.insertedAt fm1
               = <[id := FieldManager.insertions fm]>
                   (FieldManager.insertedAt fm)
               /\ FieldManager.insertions fm1
                  = S (FieldManager.insertions fm)).
  { unfold fm1, FieldManager.registerField, FieldManager.setField.
    fold id. rewrite Hhas. now destruct (autoValidate config). }
  destruct Hs as [Hs Hn]. pose proof Hwf as (Hd & Hlt & Hinj).
  assert (Hwf1 : wellFormed fm1).
  { split; [|split].
    - rewrite Hs, Hr, !dom_insert_L. now rewrite Hd.
    - intros k t. rewrite Hs, Hn. intros H.
      apply lookup_insert_Some in H as [[_ <-]|[_ H]]; [lia|].
      apply Hlt in H. lia.
    - intros k k' t. rewrite Hs. intros H H'.
      apply lookup_insert_Some in H as [[<- <-]|[Hk H]];
        apply lookup_insert_Some in H' as [[<- Ht]|[Hk' H']];
        try reflexivity.
      + apply Hlt in H'. lia.
      + subst t. apply Hlt in H. lia.
      + now apply (Hinj k k' t). }
  split; [exact Hwf1|].
  assert (Htime : forall k, k ∈ dom (regs fm) -> time fm1 k = time fm k).
  { intros k Hk. unfold FieldManager.insertionTime. rewrite Hs.
    rewrite lookup_insert_ne; [reflexivity|]. intros <-. contradiction. }
  assert (Hid : time fm1 id = FieldManager.insertions fm).
  { unfold FieldManager.insertionTime. now rewrite Hs, lookup_insert_eq. }
  apply keys_unique; [exact Hwf1| |].
  - apply StronglySorted_app_2.
    + intros a b Ha Hb. apply list_elem_of_singleton in Hb as ->.
      apply keys_dom in Ha. rewrite Hid, (Htime a Ha).
      pose proof (time_registered fm a Hwf Ha) as Ta. apply Hlt in Ta. lia.
    + apply (StronglySorted_among (earlier fm)); [|apply keys_sorted].
      intros a b Ha Hb. apply keys_dom in Ha, Hb.
      now rewrite (Htime a Ha), (Htime b Hb).
    + repeat constructor.
  - apply keys_elements.
    + apply NoDup_app. split; [apply keys_NoDup|]. split.
      * intros k Hk Hk'. apply list_elem_of_singleton in Hk' as ->.
        now apply keys_dom in Hk.
      * apply NoDup_singleton.
    + intros k. rewrite elem_of_app, keys_dom, list_elem_of_singleton.
      rewrite Hr, dom_insert_L, elem_of_union, elem_of_singleton. tauto.
Qed.

(** Unregistering an id takes it out and leaves the others in place. *)
Lemma unregisterField_order id fm :
  wellFormed fm ->
  let fm1 := (FieldManager.unregisterField id fm).1 in
  wellFormed fm1
  /\ FieldManager.keys fm1
     = List.filter (fun k => negb (bool_decide (k = id)))
                   (FieldManager.keys fm).
Proof.
  intros Hwf fm1. pose proof Hwf as (Hd & Hlt & Hinj).
  assert (Hr : regs fm1 = delete id (regs fm)).
  { apply unregisterField_registered. }
  assert (Hs : FieldManager.insertedAt fm1
               = delete id (FieldManager.insertedAt fm)
               /\ FieldManager.insertions fm1 = FieldManager.insertions fm).
  { unfold fm1, FieldManager.unregisterField.
    destruct (regs fm !! id) as [fd|] eqn:E; simpl.
    - now destruct (bool_decide _).
    - split; [|reflexivity]. symmetry. apply delete_id.
      apply not_elem_of_dom. rewrite Hd. now apply not_elem_of_dom. }
  destruct Hs as [Hs Hn].
  assert (Hwf1 : wellFormed fm1).
  { split; [|split].
    - rewrite Hs, Hr, !dom_delete_L. now rewrite Hd.
    - intros k t. rewrite Hs, Hn. intros H.
      apply lookup_delete_Some in H as [_ H]. now apply Hlt in H.
    - intros k k' t. rewrite Hs. intros H H'.
      apply lookup_delete_Some in H as [_ H].
      apply lookup_delete_Some in H' as [_ H']. now apply (Hinj k k' t). }
  split; [exact Hwf1|].
  assert (Hin : forall k,
             k ∈ List.filter (fun k => negb (bool_decide (k = id)))
                             (FieldManager.keys fm)
             <-> k ∈ dom (regs fm) /\ k <> id).
  { intros k. rewrite list_elem_of_In, filter_In, <- list_elem_of_In.
    rewrite keys_dom, negb_true_iff, bool_decide_eq_false. tauto. }
  assert (Htime : forall k, k <> id -> time fm1 k = time fm k).
  { intros k Hk. unfold FieldManager.insertionTime. rewrite Hs.
    now rewrite lookup_delete_ne by congruence. }
  apply keys_unique; [exact Hwf1| |].
  - apply (StronglySorted_among (earlier fm)).
    + intros a b Ha Hb. apply Hin in Ha as [_ Ha]. apply Hin in Hb as [_ Hb].
      now rewrite (Htime a Ha), (Htime b Hb).
    + apply (StronglySorted_sublist _ _ (FieldManager.keys fm));
        [apply filter_sublist|apply keys_sorted].
  - apply keys_elements.
    + eapply sublist_NoDup; [apply keys_NoDup|apply filter_sublist].
    + intros k. rewrite Hin, Hr, dom_delete_L, elem_of_difference.
      rewrite elem_of_singleton. tauto.
Qed.

(** The order of the keys is read off the records and the times of
    insertion only. *)
Lemma keys_ext fm fm' :
  regs fm = regs fm' ->
  FieldManager.insertedAt fm = FieldManager.insertedAt fm' ->
  FieldManager.keys fm = FieldManager.keys fm'.
Proof.
  intros Hr Hs. unfold FieldManager.keys, FieldManager.entries.
  rewrite Hr. f_equal.
  induction (map_to_list (regs fm')) as [|e l IH]; [reflexivity|].
  simpl. rewrite IH. generalize (foldr (FieldManager.insertByTime fm') [] l).
  intros k. induction k as [|x k IHk]; [reflexivity|]. simpl.
  unfold FieldManager.insertionTime. rewrite Hs. now rewrite IHk.
Qed.

Lemma wellFormed_ext fm fm' :
  regs fm = regs fm' ->
  FieldManager.insertedAt fm = FieldManager.insertedAt fm' ->
  FieldManager.insertions fm = FieldManager.insertions fm' ->
  wellFormed fm -> wellFormed fm'.
Proof. unfold wellFormed. now intros -> -> ->. Qed.

Local Abbreviation idOf := (fun field : NodeRef => el_id (page field)).

Lemma scanField_order fm cur evs f :
  wellFormed fm ->
  let r := FieldManager.scanField config page (fm, cur, evs) f in
  wellFormed r.1.1
  /\ FieldManager.keys r.1.1
     = FieldManager.keys fm
       ++ (if FieldManager.hasField (idOf f) fm then [] else [idOf f]).
Proof.
  intros Hwf. unfold FieldManager.scanField.
  destruct (FieldManager.hasField (el_id (page f)) fm) eqn:E; cbn [fst snd].
  - split; [exact Hwf|]. now rewrite app_nil_r.
  - assert (Hnew : el_id (page f) ∉ dom (regs fm)).
    { intros H. apply hasField_dom in H. congruence. }
    destruct (registerField_order f fm Hwf Hnew) as [Hwf1 Hk].
    destruct (FieldManager.registerField config page f fm) as [fm1 ev1].
    cbn [fst snd] in *. split.
    + now apply (wellFormed_ext fm1).
    + rewrite <- Hk. now apply keys_ext.
Qed.

(** The scanning loop puts the new ids behind the others, in the order
    in which it meets them. *)
Lemma scan_order fs fm cur evs :
  wellFormed fm ->
  let r := foldl (FieldManager.scanField config page) (fm, cur, evs) fs in
  wellFormed r.1.1
  /\ FieldManager.keys r.1.1
     = FieldManager.keys fm ++ freshIds (dom (regs fm)) (idOf <$> fs).
Proof.
  revert fm cur evs. induction fs as [|f fs IH]; intros fm cur evs Hwf.
  - simpl. split; [exact Hwf|]. now rewrite app_nil_r.
  - cbn [foldl fmap list_fmap freshIds].
    destruct (scanField_order fm cur evs f Hwf) as [Hwf1 Hk].
    destruct (scanField_dom config page fm cur evs f) as [_ Hd].
    destruct (FieldManager.scanField config page (fm, cur, evs) f)
      as [[fm1 cur1] evs1].
    cbn [fst snd] in *. destruct (IH fm1 cur1 evs1 Hwf1) as [Hwf2 Hk2].
    cbv zeta in Hk2. split; [exact Hwf2|]. rewrite Hk2, Hk, Hd.
    destruct (FieldManager.hasField (el_id (page f)) fm) eqn:E.
    + apply hasField_dom in E. rewrite bool_decide_eq_true_2 by exact E.
      rewrite app_nil_r. do 2 f_equal. apply set_eq. intros x.
      rewrite elem_of_union, elem_of_singleton. split; [|tauto].
      intros [->|H]; assumption.
    + rewrite bool_decide_eq_false_2.
      * now rewrite <- app_assoc.
      * intros H. apply hasField_dom in H. congruence.
Qed.

Lemma filter_filter_and {A : Type} (f g : A -> bool) (l : list A) :
  List.filter f (List.filter g l) = List.filter (fun x => g x && f x) l.
Proof.
  induction l as [|x l IH]; [reflexivity|]. simpl.
  destruct (g x); simpl; [|exact IH]. destruct (f x); now rewrite IH.
Qed.

(** Unregistering ids takes them out and leaves the others in place. *)
Lemma unregisterAll_order ids fm evs :
  wellFormed fm ->
  let r := foldl (fun '(fm, evs) id =>
                    let '(fm', ev) := FieldManager.unregisterField id fm in
                    (fm', evs ++ ev))
                 (fm, evs) ids in
  wellFormed r.1
  /\ FieldManager.keys r.1
     = List.filter (fun k => negb (bool_decide (k ∈ ids)))
                   (FieldManager.keys fm).
Proof.
  revert fm evs. induction ids as [|id ids IH]; intros fm evs Hwf.
  - simpl. split; [exact Hwf|]. symmetry. apply filter_all.
    intros k _. reflexivity.
  - cbn [foldl]. destruct (unregisterField_order id fm Hwf) as [Hwf1 Hk].
    destruct (FieldManager.unregisterField id fm) as [fm1 ev1].
    cbn [fst] in *. destruct (IH fm1 (evs ++ ev1) Hwf1) as [Hwf2 Hk2].
    cbv zeta in Hk2. split; [exact Hwf2|].
    rewrite Hk2, Hk, filter_filter_and. apply filter_ext. intros k.
    rewrite <- negb_orb. f_equal. apply Bool.eq_iff_eq_true.
    rewrite orb_true_iff, !bool_decide_eq_true, elem_of_cons. tauto.
Qed.

Lemma freshIds_member known ids id :
  id ∈ freshIds known ids -> id ∈ ids.
Proof.
  revert known. induction ids as [|x ids IH]; intros known H; [exact H|].
  cbn [freshIds] in H. destruct (bool_decide (x ∈ known)).
  - apply elem_of_cons. right. now apply (IH known).
  - apply elem_of_cons in H as [->|H]; apply elem_of_cons; [now left|].
    right. now apply (IH _ H).
Qed.

(** The order of the registry after a scan. *)
Lemma scanAndRegister_order container fm :
  wellFormed fm ->
  let fs := FieldManager.scannedFields page container in
  let fm' := (FieldManager.scanAndRegister config page container fm).1 in
  wellFormed fm'
  /\ FieldManager.keys fm'
     = List.filter (fun id => bool_decide (id ∈ FieldManager.idsOf page fs))
                   (FieldManager.keys fm)
       ++ freshIds (dom (regs fm)) (idOf <$> fs).
Proof.
  intros Hwf fs. unfold FieldManager.scanAndRegister. fold fs.
  destruct (scan_order fs fm ∅ [] Hwf) as [Hwf1 Hk].
  destruct (scan_dom config page fs fm ∅ []) as [Hc _].
  destruct (foldl _ _ fs) as [[fm1 cur1] evs1]. cbn [fst snd] in *.
  subst cur1. set (toRemove := List.filter _ (FieldManager.keys fm1)).
  destruct (unregisterAll_order toRemove fm1 [] Hwf1) as [Hwf2 Hk2].
  unfold FieldManager.unregisterAll.
  destruct (foldl _ (fm1, []) toRemove) as [fm2 evs2]. cbn [fst] in *.
  split; [exact Hwf2|]. rewrite Hk2.
  assert (Hf : List.filter (fun k => negb (bool_decide (k ∈ toRemove)))
                           (FieldManager.keys fm1)
               = List.filter
                   (fun id => bool_decide (id ∈ FieldManager.idsOf page fs))
                   (FieldManager.keys fm1)).
  { apply filter_ext_in. intros k Hk'. unfold toRemove.
    destruct (decide (k ∈ FieldManager.idsOf page fs)) as [Hin|Hout].
    - rewrite (bool_decide_eq_true_2 _ Hin). apply negb_true_iff.
      apply bool_decide_eq_false. intros H.
      apply list_elem_of_In, filter_In in H as [_ H].
      apply bool_decide_eq_true in H. apply H. apply elem_of_union. now left.
    - rewrite (bool_decide_eq_false_2 _ Hout). apply negb_false_iff.
      apply bool_decide_eq_true. apply list_elem_of_In, filter_In.
      split; [exact Hk'|]. apply bool_decide_eq_true.
      rewrite elem_of_union, elem_of_empty. tauto. }
  rewrite Hf, Hk, List.filter_app. f_equal. apply filter_all.
  intros id Hid. apply bool_decide_eq_true.
  apply freshIds_member in Hid.
  unfold FieldManager.idsOf. now apply elem_of_list_to_set.
Qed.

End RegistryOrder.

Section OrderKept.
Implicit Types (fm : FieldManager.t).

(** Replacing records and snapshots leaves the order alone. *)
Lemma same_keys fm fm' :
  wellFormed fm ->
  dom (FieldManager.registeredFields fm')
  = dom (FieldManager.registeredFields fm) ->
  FieldManager.insertedAt fm' = FieldManager.insertedAt fm ->
  FieldManager.insertions fm' = FieldManager.insertions fm ->
  wellFormed fm' /\ FieldManager.keys fm' = FieldManager.keys fm.
Proof.
  intros Hwf Hd Hs Hn.
  assert (Hwf' : wellFormed fm').
  { unfold wellFormed in *. now rewrite Hd, Hs, Hn. }
  split; [exact Hwf'|]. apply keys_unique; [exact Hwf'| |].
  - apply (StronglySorted_among
             (fun a b => FieldManager.insertionTime fm a
                         <= FieldManager.insertionTime fm b));
      [|apply keys_sorted].
    intros a b _ _. unfold FieldManager.insertionTime. now rewrite Hs.
  - apply keys_elements; [apply keys_NoDup|].
    intros id. now rewrite keys_dom, Hd.
Qed.

Lemma updateFieldData_order id u fm :
  wellFormed fm ->
  wellFormed (FieldManager.updateFieldData id u fm)
  /\ FieldManager.keys (FieldManager.updateFieldData id u fm)
     = FieldManager.keys fm.
Proof.
  intros Hwf. unfold FieldManager.updateFieldData.
  destruct (FieldManager.registeredFields fm !! id) as [fd|] eqn:E;
    [|now split].
  apply same_keys; [exact Hwf| |reflexivity|reflexivity].
  cbn [FieldManager.setRegistered FieldManager.registeredFields].
  apply dom_insert_lookup_L. now exists fd.
Qed.

Lemma hasFieldChanged_order page id fm :
  wellFormed fm ->
  wellFormed (FieldManager.hasFieldChanged page id fm).1
  /\ FieldManager.keys (FieldManager.hasFieldChanged page id fm).1
     = FieldManager.keys fm.
Proof.
  intros Hwf. unfold FieldManager.hasFieldChanged.
  destruct (FieldManager.registeredFields fm !! id) as [fd|];
    [|now split].
  destruct (bool_decide _); [now split|].
  now apply same_keys.
Qed.

Lemma cleanup_order fm :
  wellFormed fm ->
  wellFormed (FieldManager.cleanup fm).1
  /\ FieldManager.keys (FieldManager.cleanup fm).1 = [].
Proof.
  intros Hwf. unfold FieldManager.cleanup.
  destruct (size (FieldManager.registeredFields fm) =? 0)%nat eqn:E.
  - split; [exact Hwf|]. apply Nat.eqb_eq in E.
    apply length_zero_iff_nil. cbn [fst]. now rewrite keys_length.
  - destruct (unregisterAll_order (FieldManager.keys fm) fm [] Hwf)
      as [Hwf' Hk].
    unfold FieldManager.unregisterAll. split; [exact Hwf'|].
    cbv zeta in Hk. rewrite Hk. apply filter_nil. intros k Hk'.
    apply negb_false_iff. now apply bool_decide_eq_true.
Qed.

End OrderKept.

(** X27: the registry is visited in the order of registration.  The
    bookkeeping of the order is sound in a new registry and stays sound
    under [updateFieldData], [hasFieldChanged], [cleanup] and
    [scanAndRegister]; the first two leave the order of the ids as it
    is, [cleanup] leaves no id, and after [scanAndRegister] the ids are
    visited in this order: first the ids that were registered and are
    still found in the container, in the order they had; then the new
    ids, in the order in which the container has their elements, each
    at its first occurrence. *)
Theorem scan_keeps_registration_order :
  (forall observing, wellFormed (FieldManager.initial observing))
  /\ (forall (fm : FieldManager.t),
        wellFormed fm ->
        (forall id u,
            wellFormed (FieldManager.updateFieldData id u fm)
            /\ FieldManager.keys (FieldManager.updateFieldData id u fm)
               = FieldManager.keys fm)
        /\ (forall page id,
              wellFormed (FieldManager.hasFieldChanged page id fm).1
              /\ FieldManager.keys (FieldManager.hasFieldChanged page id fm).1
                 = FieldManager.keys fm)
        /\ (wellFormed (FieldManager.cleanup fm).1
            /\ FieldManager.keys (FieldManager.cleanup fm).1 = [])
        /\ forall (config : ValidatorConfig) (page : Dom)
                  (container : list NodeRef),
             let fields := FieldManager.scannedFields page container in
             let fm' :=
               (FieldManager.scanAndRegister config page container fm).1 in
             wellFormed fm'
             /\ FieldManager.keys fm'
                = List.filter
                    (fun id =>
                       bool_decide (id ∈ FieldManager.idsOf page fields))
                    (FieldManager.keys fm)
                  ++ freshIds (dom (FieldManager.registeredFields fm))
                       ((fun field => el_id (page field)) <$> fields)).
Proof.
  split; [exact wellFormed_initial|]. intros fm Hwf.
  split; [|split; [|split]].
  - intros id u. now apply updateFieldData_order.
  - intros page id. now apply hasFieldChanged_order.
  - now apply cleanup_order.
  - intros config page container. now apply scanAndRegister_order.
Qed.

Lemma scan_keeps_registration_order_witness :
  FieldManager.keys
    (FieldManager.scanAndRegister DEFAULT_CONFIG samplePage sampleContainer
       (FieldManager.initial true)).1
  = ["ae_sf_account"; "ae_sf_count"].
Proof.
  destruct scan_keeps_registration_order as [Hinit Hkept].
  destruct (Hkept (FieldManager.initial true) (Hinit true))
    as (_ & _ & _ & Hscan).
  destruct (Hscan DEFAULT_CONFIG samplePage sampleContainer) as [_ Hkeys].
  rewrite Hkeys. vm_compute. reflexivity.
Defined.
